(** * Digest ranking and summarization engine: model and verified properties

    A shallow embedding of the digest engine of the Build Canada Discord bot:
    - [GuildFeatureConfigService] (channel weight multipliers),
    - [ThreadScoringService] (heuristic thread score),
    - [ThemeClusterService] (greedy cosine clustering and labels),
    - [Summarizer] (deterministic extractive summaries).

    Conventions of the embedding.
    - A JavaScript [number] is a real number of [R]: finite doubles without
      rounding.  Where the code tests for [NaN] and the infinities
      ([Number.isFinite] in the multiplier write path) the input has type
      [JsNumber]; where a value that is not a number can reach the
      arithmetic (the reaction weight of a thread, the channel multiplier
      and the score made of them) the value has type [Numeric], a number
      or [NotANumber].  [Math.log] is [ln], [Math.sqrt] is [sqrt]; the
      counters, lengths and indices local to the summarizer are [nat].
    - A JavaScript string is the [string] of its UTF-8 bytes; its
      [length], which counts UTF-16 code units, is [Text.units], and a
      [slice] counts in code units too ([Text.slice]).  Character classes
      ([\s], [\d], [toLowerCase], [trim]) are the ASCII ones.
    - A [Map<string, V>] is an association list in insertion order with
      unique keys ([JsMap]); a [Set<T>] is a duplicate-free list in insertion
      order.
    - [Array.prototype.sort] is the stable sort of ECMAScript 2019, modelled
      by a stable insertion sort over the sign of the comparator.
    - Rounding is looked at where a statement depends on it: the cosine
      similarity is given over the reals and, in
      [ThemeClusterService.Binary64], over binary64. *)

From Stdlib Require Import Reals Lra Lia List Bool Arith PeanoNat NArith.
From Stdlib Require Import String Ascii Permutation Sorting.Sorted.
From Stdlib Require Import DecimalString DecimalNat.
From Stdlib Require PrimFloat.
Import ListNotations.

Open Scope string_scope.
Open Scope R_scope.

(* ================================================================== *)
(** * JavaScript prelude *)
(* ================================================================== *)

Module Js.

(** [x < y] on numbers, as a boolean. *)
Definition Rltb (x y : R) : bool := if Rlt_dec x y then true else false.

(** [x <= y] on numbers, as a boolean. *)
Definition Rleb (x y : R) : bool := if Rle_dec x y then true else false.

(** [x === v] on numbers, as a boolean. *)
Definition Reqb (x v : R) : bool := if Req_dec_T x v then true else false.

(** [Math.max] and [Math.min] on finite numbers. *)
Definition Math_max (x y : R) : R := Rmax x y.
Definition Math_min (x y : R) : R := Rmin x y.

(** A number as a caller can pass it: finite or one of the three
    non-finite doubles. *)
Inductive JsNumber : Type :=
| Finite (r : R)
| NaN
| PosInfinity
| NegInfinity.


(** [Number.isFinite(w) ? w : d] *)
Definition finiteOr (w : JsNumber) (d : R) : R :=
  match w with Finite r => r | _ => d end.

(** A value in a place where the code computes with numbers: a number, or
    a value that arithmetic turns into [NaN], which is [NaN] itself or a
    value that is no number at all, such as a method that an object
    inherits. *)
Inductive Numeric : Type :=
| Number (r : R)
| NotANumber.

Definition isNumber (x : Numeric) : bool :=
  match x with Number _ => true | NotANumber => false end.

(** [x + y], [x - y] and [x * y]: [NaN] as soon as an operand is. *)
Definition arith (op : R -> R -> R) (x y : Numeric) : Numeric :=
  match x, y with
  | Number a, Number b => Number (op a b)
  | _, _ => NotANumber
  end.

Definition numPlus : Numeric -> Numeric -> Numeric := arith Rplus.
Definition numMinus : Numeric -> Numeric -> Numeric := arith Rminus.
Definition numTimes : Numeric -> Numeric -> Numeric := arith Rmult.

(** [x > 0], [x <= y] and [x === y]: false as soon as an operand is
    [NaN]. *)
Definition isPositive (x : Numeric) : bool :=
  match x with Number r => Rltb 0 r | NotANumber => false end.

Definition numLe (x y : Numeric) : Prop :=
  match x, y with
  | Number a, Number b => a <= b
  | _, _ => False
  end.

Definition numEqb (x y : Numeric) : bool :=
  match x, y with
  | Number a, Number b => Reqb a b
  | _, _ => false
  end.

(** ** [Map<string, V>]: insertion-ordered, unique keys *)

Definition JsMap (V : Type) : Type := list (string * V).

Fixpoint get {V} (m : JsMap V) (k : string) : option V :=
  match m with
  | [] => None
  | (k', v) :: m' => if String.eqb k' k then Some v else get m' k
  end.

(** [m.get(k) ?? d] *)
Definition getOr {V} (m : JsMap V) (k : string) (d : V) : V :=
  match get m k with Some v => v | None => d end.

(** [m.set(k, v)]: an existing key keeps its place, a new key goes last. *)
Fixpoint set {V} (m : JsMap V) (k : string) (v : V) : JsMap V :=
  match m with
  | [] => [(k, v)]
  | (k', v') :: m' =>
      if String.eqb k' k then (k', v) :: m' else (k', v') :: set m' k v
  end.

(** [m.delete(k)] *)
Fixpoint delete {V} (m : JsMap V) (k : string) : JsMap V :=
  match m with
  | [] => []
  | (k', v') :: m' =>
      if String.eqb k' k then m' else (k', v') :: delete m' k
  end.

Definition keys {V} (m : JsMap V) : list string := map fst m.
Definition values {V} (m : JsMap V) : list V := map snd m.

(** ** [Set<string>] and [Set<number>] *)

Definition has (s : list string) (x : string) : bool :=
  existsb (String.eqb x) s.

Definition add (s : list string) (x : string) : list string :=
  if has s x then s else s ++ [x].

(** [new Set(xs)] *)
Definition newSet (xs : list string) : list string := fold_left add xs [].

Definition hasIndex (s : list nat) (i : nat) : bool :=
  existsb (Nat.eqb i) s.

(** ** Plain objects used as tables

    The members every object inherits from [Object.prototype]: for these
    names [table[name]] is a function (an object for [__proto__]), not
    [undefined], unless the table has a property of its own with that
    name. *)
Definition prototypeNames : list string :=
  ["constructor"; "toString"; "toLocaleString"; "valueOf";
   "hasOwnProperty"; "isPrototypeOf"; "propertyIsEnumerable"; "__proto__";
   "__defineGetter__"; "__defineSetter__"; "__lookupGetter__";
   "__lookupSetter__"].

(** [table[name] = v] on a plain object: a property of its own, except for
    [__proto__], whose inherited setter ignores a number. *)
Definition assign {V} (table : JsMap V) (name : string) (v : V) : JsMap V :=
  if String.eqb name "__proto__" then table else set table name v.

(** [table[name] ?? d] on a plain object whose own properties, the
    entries of [table], hold numbers: the own property when there is one,
    else the inherited member, which is not a number, else [d]. *)
Definition readOr (table : JsMap R) (name : string) (d : R) : Numeric :=
  match get table name with
  | Some v => Number v
  | None => if has prototypeNames name then NotANumber else Number d
  end.

(** ** [Array.prototype.sort]

    [after a b] is the sign test [compare(a, b) > 0]: [a] has to come
    after [b].  Elements that compare [<= 0] keep their order. *)

Section Sort.
Context {A : Type} (after : A -> A -> bool).

Fixpoint insert (x : A) (l : list A) : list A :=
  match l with
  | [] => [x]
  | y :: l' => if after x y then y :: insert x l' else x :: y :: l'
  end.

Definition sort (l : list A) : list A := fold_right insert [] l.
End Sort.

(** [l.sort((a, b) => key(b) - key(a))] *)
Definition sortDescBy {A} (key : A -> R) (l : list A) : list A :=
  sort (fun a b => Rltb 0 (key b - key a)) l.

(** [l.sort((a, b) => key(b) - key(a))] where a key may be [NaN].  The
    comparator then returns [NaN], which [sort] reads as 0.  With a [NaN]
    among the keys the comparator is not a consistent one and ECMAScript
    leaves the order to the implementation: the result is then one of the
    permutations, and what is stated of its order is stated for keys that
    are numbers. *)
Definition sortDescByNumeric {A} (key : A -> Numeric) (l : list A) : list A :=
  sort (fun a b => isPositive (numMinus (key b) (key a))) l.

(** [l.sort((a, b) => a - b)] on array indices *)
Definition sortIndices (l : list nat) : list nat :=
  sort (fun a b => Nat.ltb b a) l.

(** [xs.join(sep)] *)
Fixpoint join (sep : string) (xs : list string) : string :=
  match xs with
  | [] => ""
  | [x] => x
  | x :: xs' => x ++ sep ++ join sep xs'
  end.

End Js.

(** Arithmetic on [Js.Numeric] is written as in the code, in the scope
    [num]; a number is read as a [Js.Numeric] where one is expected. *)
Declare Scope num_scope.
Delimit Scope num_scope with num.
Notation "x + y" := (Js.numPlus x y) : num_scope.
Notation "x - y" := (Js.numMinus x y) : num_scope.
Notation "x * y" := (Js.numTimes x y) : num_scope.
Coercion Js.Number : R >-> Js.Numeric.

(* ================================================================== *)
(** * Data model *)
(* ================================================================== *)

(** [TopicHitMetric] (ThreadFeatureExtractor).  [boost] is declared
    [number], so the [hit.boost ?? 1] of the readers is the field itself. *)
Record TopicHitMetric : Type := {
  slug : string;
  keywordHits : R;
  bigramHits : R;
  boost : R
}.

(** [MessageForSummary]; a [Date] is its [getTime()] in milliseconds. *)
Record MessageForSummary : Type := {
  id : string;
  authorUsername : string;
  content : string;
  timestamp : R;
  url : string
}.

(** [ThreadFeature] (ThreadFeatureExtractor).  [reactionWeighted] is
    [NaN] when a reaction of the thread is named like a member that objects
    inherit (see [ThreadFeatureExtractor.reactionWeight]). *)
Record ThreadFeature : Type := {
  key : string;
  guildId : string;
  channelId : string;
  threadId : option string;
  parentChannelId : option string;
  uniqueParticipants : R;
  messageCount : R;
  reactionWeighted : Js.Numeric;
  topicHits : list TopicHitMetric;
  linkCount : R;
  decisionVerbHits : R;
  hasLinks : bool;
  firstMessageAt : R;
  lastMessageAt : R;
  matchedKeywords : list string;
  messages : list MessageForSummary
}.

(** The [breakdown] object of a [ThreadScore]; its fields [messageCount]
    and [topicHits] are [bMessageCount] and [bTopicHits] here, the plain
    names being fields of [ThreadFeature]. *)
Record Breakdown : Type := {
  participants : R;
  bMessageCount : R;
  reactions : Js.Numeric;
  bTopicHits : R;
  links : R;
  decisions : R;
  timeDecay : R
}.

Record ThreadScore : Type := {
  feature : ThreadFeature;
  score : Js.Numeric;
  breakdown : Breakdown
}.

(** [ITopic], the fields the engine reads. *)
Record Topic : Type := {
  topicSlug : string;
  topicKeywords : list string;
  topicBigrams : list string;
  topicBoost : R
}.

(* ================================================================== *)
(** * GuildFeatureConfigService *)
(* ================================================================== *)

Module GuildFeatureConfigService.
Import Js.

(** [IGuildFeatureConfig]: [channelMultipliers] is a [Mixed] field, read
    with [?.] and [?? {}], so it may be missing. *)
Record GuildFeatureConfig : Type := {
  cfgGuildId : string;
  highlightChannelId : option string;
  errorChannelId : option string;
  channelMultipliers : option (JsMap R)
}.

(** The service's [cache] and the collection behind [GuildFeatureConfig]. *)
Record State : Type := {
  db : JsMap GuildFeatureConfig;
  cache : JsMap GuildFeatureConfig
}.

Definition emptyState : State := {| db := []; cache := [] |}.

(** [GuildFeatureConfig.create({ guildId })]: schema defaults. *)
Definition created (guild : string) : GuildFeatureConfig :=
  {| cfgGuildId := guild; highlightChannelId := None;
     errorChannelId := None; channelMultipliers := Some [] |}.

(** [config.channelMultipliers?.[channelId] ?? 1]: a read of a plain
    object, which finds the members that objects inherit. *)
Definition getChannelMultiplier (st : State) (guild channel : string)
  : Numeric :=
  match get (cache st) guild with
  | None => Number 1
  | Some config =>
      match channelMultipliers config with
      | None => Number 1
      | Some m => readOr m channel 1
      end
  end.

(** [Math.max(0, Math.min(5, Number.isFinite(weight) ? weight : 1))] *)
Definition sanitizeWeight (weight : JsNumber) : R :=
  Math_max 0 (Math_min 5 (finiteOr weight 1)).

Definition withMultipliers (c : GuildFeatureConfig) (m : option (JsMap R))
  : GuildFeatureConfig :=
  {| cfgGuildId := cfgGuildId c; highlightChannelId := highlightChannelId c;
     errorChannelId := errorChannelId c; channelMultipliers := m |}.

(** [findOneAndUpdate({ guildId }, ..., { upsert: true, new: true })] *)
Definition upsert (st : State) (guild : string)
           (f : GuildFeatureConfig -> GuildFeatureConfig) : State :=
  let doc := match get (db st) guild with
             | Some d => d
             | None => created guild
             end in
  let updated := f doc in
  {| db := set (db st) guild updated; cache := set (cache st) guild updated |}.

Definition setHighlightChannelId (st : State) (guild channel : string)
  : State :=
  upsert st guild (fun doc =>
    {| cfgGuildId := cfgGuildId doc; highlightChannelId := Some channel;
       errorChannelId := errorChannelId doc;
       channelMultipliers := channelMultipliers doc |}).

Definition setErrorChannelId (st : State) (guild channel : string) : State :=
  upsert st guild (fun doc =>
    {| cfgGuildId := cfgGuildId doc;
       highlightChannelId := highlightChannelId doc;
       errorChannelId := Some channel;
       channelMultipliers := channelMultipliers doc |}).

(** [updateOnboardingDefaults] writes fields that are not part of this
    model; it still upserts the document and caches it. *)
Definition updateOnboardingDefaults (st : State) (guild : string) : State :=
  upsert st guild (fun doc => doc).

Definition setChannelMultiplier (st : State) (guild channel : string)
           (weight : JsNumber) : State :=
  let sanitizedWeight := sanitizeWeight weight in
  upsert st guild (fun doc =>
    withMultipliers doc
      (Some (set (match channelMultipliers doc with
                  | Some m => m | None => [] end)
                 channel sanitizedWeight))).

Definition clearChannelMultiplier (st : State) (guild channel : string)
  : State :=
  match get (db st) guild with
  | None => st
  | Some doc =>
      let updated :=
        withMultipliers doc
          (match channelMultipliers doc with
           | Some m => Some (delete m channel)
           | None => None
           end) in
      {| db := set (db st) guild updated;
         cache := set (cache st) guild updated |}
  end.

(** [refresh] (and [initialize], which differs only by logging). *)
Definition refresh (st : State) (guild : string) : State :=
  match get (db st) guild with
  | Some config => {| db := db st; cache := set (cache st) guild config |}
  | None =>
      {| db := set (db st) guild (created guild);
         cache := set (cache st) guild (created guild) |}
  end.

Definition listChannelMultipliers (st : State) (guild : string)
  : JsMap R * State :=
  let st' := match get (cache st) guild with
             | Some _ => st
             | None => refresh st guild
             end in
  (match get (cache st') guild with
   | Some config =>
       match channelMultipliers config with Some m => m | None => [] end
   | None => []
   end, st').

Definition updateChannelMultipliers (st : State) (guild : string)
           (multipliers : JsMap JsNumber) : State :=
  let '(existing, st1) := listChannelMultipliers st guild in
  let sanitized :=
    fold_left (fun acc '(channel, weight) =>
                 if String.eqb channel "" then acc
                 else assign acc channel (sanitizeWeight weight))
              multipliers [] in
  let merged := fold_left (fun acc '(k, v) => set acc k v) sanitized existing in
  upsert st1 guild (fun doc => withMultipliers doc (Some merged)).

(** The states the service can reach from an empty collection. *)
Inductive reachable : State -> Prop :=
| reach_empty : reachable emptyState
| reach_refresh st g : reachable st -> reachable (refresh st g)
| reach_highlight st g c : reachable st -> reachable (setHighlightChannelId st g c)
| reach_error st g c : reachable st -> reachable (setErrorChannelId st g c)
| reach_onboarding st g :
    reachable st -> reachable (updateOnboardingDefaults st g)
| reach_set st g c w : reachable st -> reachable (setChannelMultiplier st g c w)
| reach_clear st g c : reachable st -> reachable (clearChannelMultiplier st g c)
| reach_update st g ms :
    reachable st -> reachable (updateChannelMultipliers st g ms).



End GuildFeatureConfigService.

(* ================================================================== *)
(** * ThreadScoringService *)
(* ================================================================== *)

Module ThreadScoringService.
Import Js.

Definition computeTopicHitScore (f : ThreadFeature) : R :=
  fold_left (fun total hit =>
               let keywordWeight := keywordHits hit * 2 in
               let bigramWeight := bigramHits hit * 4 in
               total + (keywordWeight + bigramWeight) * boost hit)
            (topicHits f) 0.

(** The body of the [features.map] callback; [now] is [Date.now()]. *)
Definition scoreFeature (st : GuildFeatureConfigService.State) (now : R)
           (guild : string) (f : ThreadFeature) : ThreadScore :=
  let participants := 1.2 * uniqueParticipants f in
  let messageCount := ln (1 + messageCount f) in
  let reactions := (0.8 * reactionWeighted f)%num in
  let topicHits := 1.3 * computeTopicHitScore f in
  let links := 1.1 * (if hasLinks f then 2 else 0) in
  let decisions := 1.4 * decisionVerbHits f * 3 in
  let hoursSinceLast := (now - lastMessageAt f) / (1000 * 60 * 60) in
  let timeDecay := Math_max 0 (hoursSinceLast / 72) in
  let rawScore :=
    (participants + messageCount + reactions + topicHits + links
     + decisions - timeDecay)%num in
  let multiplier :=
    GuildFeatureConfigService.getChannelMultiplier st guild (channelId f) in
  {| feature := f;
     score := (rawScore * multiplier)%num;
     breakdown := {| participants := participants;
                     bMessageCount := messageCount;
                     reactions := reactions;
                     bTopicHits := topicHits;
                     links := links;
                     decisions := decisions;
                     timeDecay := timeDecay |} |}.

Definition scoreThreads (st : GuildFeatureConfigService.State) (now : R)
           (guild : string) (features : list ThreadFeature)
  : list ThreadScore :=
  sortDescByNumeric score (map (scoreFeature st now guild) features).

End ThreadScoringService.

(* ================================================================== *)
(** * ThemeClusterService *)
(* ================================================================== *)

Module ThemeClusterService.
Import Js.

Record ThreadCluster : Type := {
  clusterId : string;
  label : string;
  members : list ThreadScore;
  topTokens : list string
}.

Record ThemeAnalysis : Type := {
  clusters : list ThreadCluster;
  globalTopTokens : list (string * R)
}.

Definition threshold : R := 0.2.

Definition buildVector (score : ThreadScore) : JsMap R :=
let vector :=
  fold_left (fun vector hit =>
               let weight :=
                 (keywordHits hit * 2 + bigramHits hit * 4) * boost hit in
               if Rleb weight 0 then vector
               else set vector (slug hit) (getOr vector (slug hit) 0 + weight))
            (topicHits (feature score)) [] in
fold_left (fun vector keyword =>
             set vector keyword (getOr vector keyword 0 + 1))
          (matchedKeywords (feature score)) vector.

(** The three accumulators [dot], [normA], [normB] of [cosineSimilarity]
    after the loop over the shared token set. *)
Definition accumulate (a b : JsMap R) (shared : list string) : R * R * R :=
fold_left (fun '(dot, normA, normB) token =>
             let valueA := getOr a token 0 in
             let valueB := getOr b token 0 in
             (dot + valueA * valueB,
              normA + valueA * valueA,
              normB + valueB * valueB))
          shared (0, 0, 0).

Definition cosineSimilarity (a b : JsMap R) : R :=
let shared := newSet (keys a ++ keys b) in
let '(dot, normA, normB) := accumulate a b shared in
if Reqb normA 0 || Reqb normB 0 then 0
else dot / (sqrt normA * sqrt normB).

(** The separator of a two-token label, byte for byte as in the source. *)
Definition separator : string := " Â· ".

Definition labelTokens (scores : list ThreadScore) : JsMap R :=
fold_left (fun tokens score =>
             fold_left (fun tokens hit =>
                          let weight := keywordHits hit + bigramHits hit * 2 in
                          set tokens (slug hit)
                              (getOr tokens (slug hit) 0 + weight))
                       (topicHits (feature score)) tokens)
          scores [].

Definition buildLabel (scores : list ThreadScore) : string :=
match scores with
| [] => "general"
| _ =>
    let sorted := sortDescBy snd (labelTokens scores) in
    match sorted with
    | a :: b :: _ => fst a ++ separator ++ fst b
    | [a] => fst a
    | [] => "general"
    end
end.

(** [totals.set(token, (totals.get(token) ?? 0) + weight)] for every entry
    of [vector]. *)
Definition addVector (totals vector : JsMap R) : JsMap R :=
fold_left (fun totals '(token, weight) =>
             set totals token (getOr totals token 0 + weight))
          vector totals.

Definition topTokensForCluster (indices : list nat)
           (vectors : list (JsMap R)) (take : nat) : list string :=
let totals :=
  fold_left (fun totals index => addVector totals (nth index vectors []))
            indices [] in
map fst (firstn take (sortDescBy snd totals)).

(** The inner loop [for (j = i + 1; j < scores.length; j++)]: [js] are the
    indices still to scan. *)
Fixpoint absorb (seedVector : JsMap R) (vectors : list (JsMap R))
         (js : list nat) (members visited : list nat)
  : list nat * list nat :=
match js with
| [] => (members, visited)
| j :: js' =>
    if hasIndex visited j then absorb seedVector vectors js' members visited
    else
      let similarity := cosineSimilarity seedVector (nth j vectors []) in
      if Rleb threshold similarity
      then absorb seedVector vectors js' (members ++ [j]) (visited ++ [j])
      else absorb seedVector vectors js' members visited
end.

(** The outer loop [for (i = 0; i < scores.length; i++)]: every cluster as
    its seed index and the indices of its members. *)
Fixpoint clusterLoop (n : nat) (vectors : list (JsMap R)) (todo : list nat)
         (found : list (nat * list nat)) (visited : list nat)
  : list (nat * list nat) :=
match todo with
| [] => found
| i :: todo' =>
    if hasIndex visited i then clusterLoop n vectors todo' found visited
    else
      let seedVector := nth i vectors [] in
      let '(members, visited') :=
        absorb seedVector vectors (seq (i + 1) (n - (i + 1))) [i]
               (visited ++ [i]) in
      clusterLoop n vectors todo' (found ++ [(i, members)]) visited'
end.

Definition clusterIndices (scores : list ThreadScore) : list (nat * list nat) :=
clusterLoop (List.length scores) (map buildVector scores)
            (seq 0 (List.length scores)) [] [].

(** [members.map(index => scores[index])] *)
Definition pick (scores : list ThreadScore) (indices : list nat)
  : list ThreadScore :=
flat_map (fun index => match nth_error scores index with
                       | Some s => [s]
                       | None => []
                       end) indices.

Definition makeCluster (scores : list ThreadScore) (vectors : list (JsMap R))
           (c : nat * list nat) : ThreadCluster :=
let clusterScores := pick scores (snd c) in
{| clusterId := "cluster-" ++ NilEmpty.string_of_uint (Nat.to_uint (fst c));
   label := buildLabel clusterScores;
   members := clusterScores;
   topTokens := topTokensForCluster (snd c) vectors 2 |}.

Definition analyze (scores : list ThreadScore) : ThemeAnalysis :=
match scores with
| [] => {| clusters := []; globalTopTokens := [] |}
| _ =>
    let vectors := map buildVector scores in
    let globalCounts := fold_left addVector vectors [] in
    {| clusters := map (makeCluster scores vectors) (clusterIndices scores);
       globalTopTokens := firstn 10 (sortDescBy snd globalCounts) |}
end.

(** ** The arithmetic of the code

    [buildVector] and [cosineSimilarity] once more, over the doubles that
    the code computes with (IEEE 754 binary64, rounding to nearest, the
    primitive floats of [PrimFloat]): they show what rounding does to the
    similarity. *)
Module Binary64.
Import PrimFloat.

(** The fields of a topic hit that [buildVector] reads. *)
Record TopicHit : Type := {
  hitSlug : string;
  hitKeywordHits : float;
  hitBigramHits : float;
  hitBoost : float
}.

Definition buildVector (topicHits : list TopicHit)
           (matchedKeywords : list string) : JsMap float :=
let vector :=
  fold_left (fun vector hit =>
               let weight :=
                 ((hitKeywordHits hit * 2 + hitBigramHits hit * 4)
                  * hitBoost hit)%float in
               if (weight <=? 0)%float then vector
               else set vector (hitSlug hit)
                        (getOr vector (hitSlug hit) 0 + weight)%float)
            topicHits [] in
fold_left (fun vector keyword =>
             set vector keyword (getOr vector keyword 0 + 1)%float)
          matchedKeywords vector.

Definition accumulate (a b : JsMap float) (shared : list string)
  : float * float * float :=
fold_left (fun '(dot, normA, normB) token =>
             let valueA := getOr a token 0%float in
             let valueB := getOr b token 0%float in
             ((dot + valueA * valueB)%float,
              (normA + valueA * valueA)%float,
              (normB + valueB * valueB)%float))
          shared (0%float, 0%float, 0%float).

Definition cosineSimilarity (a b : JsMap float) : float :=
let shared := newSet (keys a ++ keys b) in
let '(dot, normA, normB) := accumulate a b shared in
if (normA =? 0)%float || (normB =? 0)%float then 0%float
else (dot / (sqrt normA * sqrt normB))%float.

End Binary64.

End ThemeClusterService.

(* ================================================================== *)
(** * Text primitives: strings and the regular expressions of the code *)
(* ================================================================== *)

Module Text.
Local Open Scope nat_scope.
Local Open Scope list_scope.

Definition chars : Type := list ascii.

Definition ofString (s : string) : chars := list_ascii_of_string s.
Definition toString (s : chars) : string := string_of_list_ascii s.

Definition code (c : ascii) : nat := nat_of_ascii c.

(** The UTF-16 code units that the byte [c] of a UTF-8 string accounts
    for: none for a continuation byte ([10xxxxxx]), two for the first byte
    of a sequence of four bytes ([11110xxx], a character above U+FFFF, a
    surrogate pair in UTF-16), one for every other first byte. *)
Definition unitsOf (c : ascii) : nat :=
  if code c <? 128 then 1
  else if code c <? 192 then 0
  else if code c <? 240 then 1
  else 2.

(** [s.length] *)
Definition units (s : chars) : nat := list_sum (map unitsOf s).

Definition lengthOf (s : string) : nat := units (list_ascii_of_string s).

(** The high surrogate of the character above U+FFFF whose bytes are [c]
    and the first three of [rest], as the three bytes of its generalised
    UTF-8 encoding: what a slice keeps of the character when it ends
    between the two code units. *)
Definition highSurrogate (c : ascii) (rest : chars) : chars :=
  let low6 i := (N_of_ascii (nth i rest Ascii.zero) mod 64)%N in
  let point := ((N_of_ascii c mod 8) * 262144 + low6 0%nat * 4096
                + low6 1%nat * 64 + low6 2%nat)%N in
  let unit := (55296 + (point - 65536) / 1024)%N in
  [ascii_of_N 237; ascii_of_N (128 + (unit / 64) mod 64);
   ascii_of_N (128 + unit mod 64)].

(** [s.slice(0, n)]: the first [n] code units. *)
Fixpoint slice (n : nat) (s : chars) : chars :=
  match s with
  | [] => []
  | c :: rest =>
      match unitsOf c, n with
      | 0, _ => c :: slice n rest
      | _, 0 => []
      | 1, S n' => c :: slice n' rest
      | _, 1 => highSurrogate c rest
      | _, S (S n') => c :: slice n' rest
      end
  end.

(** [\s] *)
Definition isSpace (c : ascii) : bool :=
  ((9 <=? code c) && (code c <=? 13)) || (code c =? 32).

(** [\d] *)
Definition isDigit (c : ascii) : bool := (48 <=? code c) && (code c <=? 57).

Definition isLower (c : ascii) : bool := (97 <=? code c) && (code c <=? 122).
Definition isUpper (c : ascii) : bool := (65 <=? code c) && (code c <=? 90).

(** The line terminators that [.] does not match and that [^], [$]
    recognise under the [m] flag. *)
Definition isLineTerminator (c : ascii) : bool :=
  (code c =? 10) || (code c =? 13).

Definition toLowerChar (c : ascii) : ascii :=
  if isUpper c then ascii_of_nat (code c + 32) else c.

(** [s.toLowerCase()] *)
Definition toLowerCase (s : chars) : chars := map toLowerChar s.

Fixpoint startsWith (p s : chars) : bool :=
  match p, s with
  | [], _ => true
  | _ :: _, [] => false
  | a :: p', b :: s' => Ascii.eqb a b && startsWith p' s'
  end.

(** [s.endsWith(p)] *)
Definition endsWith (p s : chars) : bool := startsWith (rev p) (rev s).

(** [s.indexOf(p)] *)
Fixpoint indexOf (p s : chars) : option nat :=
  if startsWith p s then Some 0
  else match s with
       | [] => None
       | _ :: s' => option_map S (indexOf p s')
       end.

(** [s.includes(p)] *)
Definition includes (p s : chars) : bool :=
  match indexOf p s with Some _ => true | None => false end.

(** Length of the longest prefix of [s] whose characters satisfy [f]: what
    a greedy [[class]*] consumes. *)
Fixpoint spanLength (f : ascii -> bool) (s : chars) : nat :=
  match s with
  | c :: s' => if f c then S (spanLength f s') else 0
  | [] => 0
  end.

Fixpoint dropWhile (f : ascii -> bool) (s : chars) : chars :=
  match s with
  | c :: s' => if f c then dropWhile f s' else s
  | [] => []
  end.

(** [s.trim()] *)
Definition trim (s : chars) : chars :=
  rev (dropWhile isSpace (rev (dropWhile isSpace s))).

(** [s.replace(/re/g, rep)] for a regular expression that never matches the
    empty string: [matchAt prev s] is the length of the match of [re] at the
    head of [s], [prev] being the character before it; matches are taken
    leftmost and do not overlap ([skip] characters of a match remain). *)
Fixpoint replaceFrom (matchAt : option ascii -> chars -> option nat)
         (rep : chars) (prev : option ascii) (skip : nat) (s : chars)
  : chars :=
  match s with
  | [] => []
  | c :: t =>
      match skip with
      | S k => replaceFrom matchAt rep (Some c) k t
      | 0 =>
          match matchAt prev s with
          | Some (S m) => rep ++ replaceFrom matchAt rep (Some c) m t
          | _ => c :: replaceFrom matchAt rep (Some c) 0 t
          end
      end
  end.

Definition replaceAll (matchAt : option ascii -> chars -> option nat)
           (rep : chars) (s : chars) : chars :=
  replaceFrom matchAt rep None 0 s.

Definition notChar (x : ascii) (c : ascii) : bool := negb (Ascii.eqb c x).

(** [/```[\s\S]*?```/]: an opening fence and the nearest closing one. *)
Definition matchFence (_ : option ascii) (s : chars) : option nat :=
  if startsWith ["`"%char; "`"%char; "`"%char] s
  then match indexOf ["`"%char; "`"%char; "`"%char] (skipn 3 s) with
       | Some k => Some (3 + k + 3)
       | None => None
       end
  else None.

(** [/`[^`]+`/] *)
Definition matchInlineCode (_ : option ascii) (s : chars) : option nat :=
  match s with
  | "`"%char :: t =>
      let n := spanLength (notChar "`"%char) t in
      if (0 <? n) && startsWith ["`"%char] (skipn n t) then Some (n + 2) else None
  | _ => None
  end.

(** [/^>.*$/m]: a whole line that starts with [>]. *)
Definition matchQuote (prev : option ascii) (s : chars) : option nat :=
  let lineStart := match prev with
                   | None => true
                   | Some p => isLineTerminator p
                   end in
  match s with
  | ">"%char :: t =>
      if lineStart
      then Some (1 + spanLength (fun c => negb (isLineTerminator c)) t)
      else None
  | _ => None
  end.

(** [/https?:\/\/\S+/i] *)
Definition matchUrl (_ : option ascii) (s : chars) : option nat :=
  let low := toLowerCase s in
  let scheme :=
    if startsWith ["h"%char; "t"%char; "t"%char; "p"%char; "s"%char; ":"%char; "/"%char; "/"%char] low then Some 8
    else if startsWith ["h"%char; "t"%char; "t"%char; "p"%char; ":"%char; "/"%char; "/"%char] low then Some 7
    else None in
  match scheme with
  | Some k =>
      let n := spanLength (fun c => negb (isSpace c)) (skipn k s) in
      if 0 <? n then Some (k + n) else None
  | None => None
  end.

(** [/<@!?\d+>/] *)
Definition matchMention (_ : option ascii) (s : chars) : option nat :=
  if startsWith ["<"%char; "@"%char] s then
    let r := skipn 2 s in
    let b := if startsWith ["!"%char] r then 1 else 0 in
    let n := spanLength isDigit (skipn b r) in
    if (0 <? n) && startsWith [">"%char] (skipn n (skipn b r))
    then Some (2 + b + n + 1) else None
  else None.

(** [/<#[^>]+>/] *)
Definition matchChannel (_ : option ascii) (s : chars) : option nat :=
  if startsWith ["<"%char; "#"%char] s then
    let r := skipn 2 s in
    let n := spanLength (notChar ">"%char) r in
    if (0 <? n) && startsWith [">"%char] (skipn n r)
    then Some (2 + n + 1) else None
  else None.

(** [/\s+/] *)
Definition matchSpaces (_ : option ascii) (s : chars) : option nat :=
  let n := spanLength isSpace s in
  if 0 <? n then Some n else None.

(** [s.replace(/\s+/g, ' ')] *)
Definition collapseSpaces (s : chars) : chars := replaceAll matchSpaces [" "%char] s.

(** The state of a [RegExp] object is its [lastIndex].  [re.test(s)]: with
    the [g] flag the search starts at [lastIndex], which is left after the
    match (reset to 0 on failure); without it the search starts at 0 and
    [lastIndex] is not touched.  [found s] is the end of the first match in
    [s]. *)
Definition regexTest (global : bool) (found : chars -> option nat)
           (lastIndex : nat) (s : chars) : bool * nat :=
  if global then
    match found (skipn lastIndex s) with
    | Some e => (true, lastIndex + e)
    | None => (false, 0)
    end
  else
    (match found s with Some _ => true | None => false end, lastIndex).

(** End of the leftmost match of an alternation of literal words, the
    alternatives tried in order at each position. *)
Fixpoint firstWord (words : list chars) (s : chars) : option nat :=
  match words with
  | [] => None
  | w :: words' =>
      if startsWith w s then Some (List.length w) else firstWord words' s
  end.

Fixpoint findWords (words : list chars) (s : chars) : option nat :=
  match firstWord words s with
  | Some e => Some e
  | None => match s with
            | [] => None
            | _ :: s' => option_map S (findWords words s')
            end
  end.

End Text.

(* ================================================================== *)
(** * TopicService (the cache read by the summarizer) *)
(* ================================================================== *)

Module TopicService.
Import Js.

(** [topicService.find(slug)] over the taxonomy cache. *)
Definition find (cache : JsMap Topic) (slug : string) : option Topic :=
  get cache (Text.toString (Text.toLowerCase (Text.ofString slug))).

(** [slug.toLowerCase()] *)
Definition normalized (slug : string) : string :=
  Text.toString (Text.toLowerCase (Text.ofString slug)).

(** The [Topic] collection, one document per slug (the schema declares
    [slug] unique), and the cache of the service. *)
Record State : Type := {
  db : JsMap Topic;
  cache : JsMap Topic
}.

Definition emptyState : State := {| db := []; cache := [] |}.

(** The argument of [create]: everything but the slug is optional. *)
Record TopicInput : Type := {
  inSlug : string;
  inKeywords : option (list string);
  inBigrams : option (list string);
  inBoost : option R
}.

(** [list()]: [Array.from(this.cache.values())] *)
Definition listTopics (st : State) : list Topic := values (cache st).

(** [create]: the document found by [{ slug: normalized }] keeps that
    slug, an inserted one receives it; the other three fields are set in
    both cases. *)
Definition create (st : State) (topic : TopicInput) : Topic * State :=
  let normalized := normalized (inSlug topic) in
  let created :=
    {| topicSlug := normalized;
       topicKeywords := match inKeywords topic with
                        | Some k => k | None => [] end;
       topicBigrams := match inBigrams topic with
                       | Some b => b | None => [] end;
       topicBoost := match inBoost topic with
                     | Some b => b | None => 1 end |} in
  (created, {| db := set (db st) normalized created;
               cache := set (cache st) (topicSlug created) created |}).

Definition remove (st : State) (slug : string) : bool * State :=
  let normalized := normalized slug in
  match get (db st) normalized with
  | Some _ =>
      (true, {| db := delete (db st) normalized;
                cache := delete (cache st) normalized |})
  | None => (false, st)
  end.

Definition refresh (st : State) (slug : string) : option Topic * State :=
  let normalized := normalized slug in
  match get (db st) normalized with
  | Some doc => (Some doc, {| db := db st;
                              cache := set (cache st) normalized doc |})
  | None => (None, st)
  end.

Definition defaults : list Topic :=
  [ {| topicSlug := "policy";
       topicKeywords := ["policy"; "bill"; "regulation"; "legislation";
                         "permit"; "permitting"; "ministerial"];
       topicBigrams := ["environmental assessment"; "impact assessment";
                        "public consultation"];
       topicBoost := 12 / 10 |};
    {| topicSlug := "energy";
       topicKeywords := ["pipeline"; "transmission"; "grid"; "hydro";
                         "nuclear"; "uranium"; "oil"; "lng"; "gas"];
       topicBigrams := ["natural resources"; "power purchase"];
       topicBoost := 11 / 10 |};
    {| topicSlug := "builder-mp";
       topicKeywords := ["builder-mp"; "milestone"; "release"; "deploy";
                         "rollback"; "bugfix"];
       topicBigrams := ["feature flag"; "release notes"];
       topicBoost := 13 / 10 |} ].

(** [seedDefaults]: each default is upserted with all its fields and
    cached under the slug of the stored document.  An upsert that throws
    is caught and logged, and the loop goes on without that topic:
    [failed slug] tells whether the upsert of the default [slug] throws. *)
Definition seedDefaults (failed : string -> bool) (st : State) : State :=
  fold_left (fun st def =>
               if failed (topicSlug def) then st
               else
                 let created := def in
                 {| db := set (db st) (topicSlug def) created;
                    cache := set (cache st) (topicSlug created) created |})
            defaults st.

(** [initialize]: at most 500 documents are loaded into the cache; the
    defaults are seeded when the cache is still empty. *)
Definition initialize (failed : string -> bool) (st : State) : State :=
  let all := firstn 500 (values (db st)) in
  let st1 := {| db := db st;
                cache := fold_left (fun c t => set c (topicSlug t) t)
                                   all (cache st) |} in
  if Nat.eqb (List.length (cache st1)) 0 then seedDefaults failed st1
  else st1.

(** No upsert fails. *)
Definition noFailure (slug : string) : bool := false.

(** The states the service can reach from an empty collection. *)
Inductive reachable : State -> Prop :=
| reach_empty : reachable emptyState
| reach_initialize st failed :
    reachable st -> reachable (initialize failed st)
| reach_create st topic : reachable st -> reachable (snd (create st topic))
| reach_remove st slug : reachable st -> reachable (snd (remove st slug))
| reach_refresh st slug : reachable st -> reachable (snd (refresh st slug)).

End TopicService.

(* ================================================================== *)
(** * Summarizer *)
(* ================================================================== *)

Module Summarizer.
Import Js.

Record ExtractiveSummaryResult : Type := {
  summary : string;
  tokensUsed : R * R;
  cost : R;
  selectedIds : list string
}.

(** [SentenceDoc]; the source's fields [id], [length] and [timestamp] are
    [docId], [docLength] and [docTimestamp] here. *)
Record SentenceDoc : Type := {
  docId : string;
  author : string;
  original : string;
  normalized : string;
  tokens : list string;
  ngrams : list string;
  tf : JsMap nat;
  uniqueTokens : list string;
  docLength : nat;
  position : nat;
  docTimestamp : R
}.

(** The alternatives of [DECISION_REGEX], in order. *)
Definition decisionWords : list Text.chars :=
  map Text.ofString
      ["decide"; "decided"; "approve"; "approved"; "ship"; "shipping";
       "shipped"; "blocked"; "blocker"; "eta"; "owner"].

(** [DECISION_REGEX] has the flags [i] only: it is not global. *)
Definition DECISION_REGEX_global : bool := false.

(** [DECISION_REGEX.test(s)]; the object's [lastIndex] is threaded. *)
Definition DECISION_REGEX_test (lastIndex : nat) (s : string) : bool * nat :=
  Text.regexTest DECISION_REGEX_global
                 (fun t => Text.findWords decisionWords (Text.toLowerCase t))
                 lastIndex (Text.ofString s).

Definition stopwords : list string :=
  ["a"; "about"; "after"; "again"; "against"; "all"; "am"; "an"; "and"; "any";
   "are"; "as"; "at"; "be"; "because"; "been"; "before"; "being"; "below";
   "between"; "both"; "but"; "by"; "can"; "did"; "do"; "does"; "doing";
   "down"; "during"; "each"; "few"; "for"; "from"; "further"; "had"; "has";
   "have"; "having"; "he"; "her"; "here"; "hers"; "herself"; "him";
   "himself"; "his"; "how"; "i"; "if"; "in"; "into"; "is"; "it"; "its";
   "itself"; "just"; "me"; "more"; "most"; "my"; "myself"; "no"; "nor";
   "not"; "now"; "of"; "off"; "on"; "once"; "only"; "or"; "other"; "our";
   "ours"; "ourselves"; "out"; "over"; "own"; "same"; "she"; "should"; "so";
   "some"; "such"; "than"; "that"; "the"; "their"; "theirs"; "them";
   "themselves"; "then"; "there"; "these"; "they"; "this"; "those";
   "through"; "to"; "too"; "under"; "until"; "up"; "very"; "was"; "we";
   "were"; "what"; "when"; "where"; "which"; "while"; "who"; "whom"; "why";
   "with"; "you"; "your"; "yours"; "yourself"; "yourselves"; "ai"; "canada";
   "builds"; "project"; "team"].

Definition noNotable : string :=
  "No notable discussion captured in this window.".

Definition emptyResult : ExtractiveSummaryResult :=
  {| summary := noNotable; tokensUsed := (0, 0); cost := 0;
     selectedIds := [] |}.

(** [a || b] on strings *)
Definition orElse (a b : string) : string :=
  match a with EmptyString => b | _ => a end.

Definition stripFormatting (content : string) : string :=
  let s := Text.ofString content in
  let s := Text.replaceAll Text.matchFence (Text.ofString " ") s in
  let s := Text.replaceAll Text.matchInlineCode (Text.ofString " ") s in
  let s := Text.replaceAll Text.matchQuote (Text.ofString " ") s in
  let s := Text.replaceAll Text.matchUrl (Text.ofString " [link] ") s in
  let s := Text.replaceAll Text.matchMention (Text.ofString " member ") s in
  let s := Text.replaceAll Text.matchChannel (Text.ofString " channel ") s in
  let s := Text.collapseSpaces s in
  Text.toString (Text.trim s).

(** [[.!?]] *)
Definition isTerminator (c : ascii) : bool :=
  Ascii.eqb c "."%char || Ascii.eqb c "!"%char || Ascii.eqb c "?"%char.

(** [content.split(/([.!?])/)]: the pieces between terminators and, as
    the group is captured, the terminators themselves. *)
Fixpoint splitCapture (cur : Text.chars) (s : Text.chars)
  : list Text.chars :=
  match s with
  | [] => [cur]
  | c :: t =>
      if isTerminator c then cur :: [c] :: splitCapture [] t
      else splitCapture (cur ++ [c])%list t
  end.

Definition splitSentences (content : string) : list string :=
  let '(sentences, buffer) :=
    fold_left (fun '(sentences, buffer) part =>
                 let buffer := (buffer ++ part)%list in
                 if existsb isTerminator part then
                   let trimmed := Text.trim buffer in
                   (match trimmed with
                    | [] => sentences
                    | _ => (sentences ++ [Text.toString trimmed])%list
                    end, [])
                 else (sentences, buffer))
              (splitCapture [] (Text.ofString content)) ([], []) in
  let tail := Text.trim buffer in
  match tail with
  | [] => sentences
  | _ => (sentences ++ [Text.toString tail])%list
  end.

(** [[a-z0-9\[\]]] *)
Definition isTokenChar (c : ascii) : bool :=
  Text.isLower c || Text.isDigit c
  || Ascii.eqb c "["%char || Ascii.eqb c "]"%char.

Definition normalize (text : string) : string :=
  let s := Text.toLowerCase (Text.ofString text) in
  let s := map (fun c => if isTokenChar c || Text.isSpace c
                         then c else " "%char) s in
  Text.toString (Text.trim (Text.collapseSpaces s)).

(** [text.split(/[^a-z0-9\[\]]+/).filter(Boolean)]: the maximal runs of
    token characters; the empty pieces [split] yields are the ones
    [filter(Boolean)] drops. *)
Fixpoint tokenRuns (cur : Text.chars) (s : Text.chars) : list Text.chars :=
  match s with
  | [] => match cur with [] => [] | _ => [cur] end
  | c :: t =>
      if isTokenChar c then tokenRuns (cur ++ [c])%list t
      else match cur with
           | [] => tokenRuns [] t
           | _ => cur :: tokenRuns [] t
           end
  end.

Definition tokenize (text : string) : list string :=
  map Text.toString (tokenRuns [] (Text.ofString text)).

(** [token.slice(0, -k)] *)
Definition dropLast (k : nat) (s : Text.chars) : Text.chars :=
  firstn (List.length s - k) s.

Definition stem (token : string) : string :=
  let t := Text.ofString token in
  if (List.length t <=? 4)%nat then token
  else if Text.endsWith (Text.ofString "ing") t
          || Text.endsWith (Text.ofString "ers") t
       then Text.toString (dropLast 3 t)
  else if Text.endsWith (Text.ofString "ed") t
          || Text.endsWith (Text.ofString "es") t
       then Text.toString (dropLast 2 t)
  else if Text.endsWith (Text.ofString "s") t && (3 <? List.length t)%nat
       then Text.toString (dropLast 1 t)
  else token.

Fixpoint bigrams (ts : list string) : list string :=
  match ts with
  | a :: (b :: _) as rest => (a ++ "_" ++ b) :: bigrams rest
  | _ => []
  end.

Fixpoint trigrams (ts : list string) : list string :=
  match ts with
  | a :: (b :: c :: _) as rest => (a ++ "_" ++ b ++ "_" ++ c) :: trigrams rest
  | _ => []
  end.

Definition buildNgrams (ts : list string) : list string :=
  (bigrams ts ++ trigrams ts)%list.

(** [tf.set(token, (tf.get(token) ?? 0) + 1)] for every token. *)
Definition countTokens (combined : list string) : JsMap nat :=
  fold_left (fun tf token => set tf token (getOr tf token 0%nat + 1)%nat)
            combined [].

(** The body of the loop over the sentences of one message: the document
    of [sentence], if it survives cleaning and filtering. *)
Definition sentenceDoc (message : MessageForSummary) (position : nat)
           (sentence : string) : option SentenceDoc :=
  let normalized := normalize sentence in
  match normalized with
  | EmptyString => None
  | _ =>
      let tokens := map stem (tokenize normalized) in
      let filtered :=
        filter (fun token =>
                  (2 <=? String.length token)%nat
                  && (String.length token <=? 24)%nat
                  && negb (has stopwords token)) tokens in
      let ngrams := buildNgrams filtered in
      let combined := (filtered ++ ngrams)%list in
      match combined with
      | [] => None
      | _ =>
          Some {| docId := id message;
                  author := authorUsername message;
                  original :=
                    Text.toString (Text.trim (Text.ofString sentence));
                  normalized := normalized;
                  tokens := filtered;
                  ngrams := ngrams;
                  tf := countTokens combined;
                  uniqueTokens := newSet combined;
                  docLength := List.length combined;
                  position := position;
                  docTimestamp := timestamp message |}
      end
  end.

Definition buildSentenceDocs (messages : list MessageForSummary)
  : list SentenceDoc :=
  fst (fold_left
         (fun '(docs, position) message =>
            let sanitized := stripFormatting (content message) in
            let originalSentences := splitSentences sanitized in
            fold_left (fun '(docs, position) sentence =>
                         match sentenceDoc message position sentence with
                         | None => (docs, position)
                         | Some doc => ((docs ++ [doc])%list, S position)
                         end)
                      originalSentences (docs, position))
         messages ([], 0%nat)).

(** [df.set(token, (df.get(token) ?? 0) + 1)] over every document's unique
    tokens. *)
Definition buildDocumentFrequency (docs : list SentenceDoc) : JsMap nat :=
  fold_left (fun df doc =>
               fold_left (fun df token =>
                            set df token (getOr df token 0%nat + 1)%nat)
                         (uniqueTokens doc) df)
            docs [].

Definition buildTopicTokens (keywords bigrams : list string) (topic : string)
  : list string :=
  fold_left (fun tokens entry =>
               fold_left (fun tokens token => add tokens (stem token))
                         (tokenize (Text.toString
                                      (Text.toLowerCase (Text.ofString entry))))
                         tokens)
            (keywords ++ bigrams ++ [topic])%list [].

(** [/\d/.test(s)] on a fresh, non-global literal. *)
Definition hasDigit (s : string) : bool :=
  existsb Text.isDigit (Text.ofString s).

(** [computeSentenceScore]; the [lastIndex] of [DECISION_REGEX] goes in and
    comes out. *)
Definition computeSentenceScore (lastIndex : nat) (doc : SentenceDoc)
           (docFreq : JsMap nat) (totalDocs : nat) (topicTokens : list string)
           (index total : nat) : R * nat :=
  let score :=
    fold_left (fun score '(token, count) =>
                 let tf := INR count / INR (docLength doc) in
                 let df := getOr docFreq token 1%nat in
                 let idf := ln ((INR totalDocs + 1) / (INR df + 1)) + 1 in
                 let topicBoost := if has topicTokens token then 1.2 else 1 in
                 score + tf * idf * topicBoost)
              (tf doc) 0 in
  let score := if (index <=? 2)%nat then score + 0.2 else score in
  let '(hasDecision, lastIndex') :=
    DECISION_REGEX_test lastIndex (normalized doc) in
  let score :=
    if hasDecision then
      let score := score + 0.6 in
      (* index >= total - 2, over the integers *)
      if (total <=? index + 2)%nat then score + 0.3 else score
    else score in
  let score := if hasDigit (original doc) then score + 0.2 else score in
  let score :=
    if Text.includes (Text.ofString "[link]") (Text.ofString (normalized doc))
    then score + 0.2 else score in
  (score, lastIndex').

(** [sentences.map((sentence, index) => computeSentenceScore(...))] *)
Fixpoint scoreSentences (lastIndex : nat) (docFreq : JsMap nat)
         (totalDocs : nat) (topicTokens : list string) (index : nat)
         (docs : list SentenceDoc) : list R * nat :=
  match docs with
  | [] => ([], lastIndex)
  | doc :: docs' =>
      let '(s, lastIndex1) :=
        computeSentenceScore lastIndex doc docFreq totalDocs topicTokens
                             index totalDocs in
      let '(ss, lastIndex2) :=
        scoreSentences lastIndex1 docFreq totalDocs topicTokens (S index)
                       docs' in
      (s :: ss, lastIndex2)
  end.

(** What [docs[i]] is read for when [i] is out of range; [selectByMMR] and
    [enforceCharacterLimit] only use indices of [docs]. *)
Definition undefinedDoc : SentenceDoc :=
  {| docId := ""; author := ""; original := ""; normalized := "";
     tokens := []; ngrams := []; tf := []; uniqueTokens := [];
     docLength := 0; position := 0; docTimestamp := 0 |}.

Definition maxSimilarity (doc : SentenceDoc) (others : list SentenceDoc) : R :=
  match others with
  | [] => 0
  | _ =>
      fold_left (fun max other =>
                   let overlap :=
                     List.length (filter (has (uniqueTokens other))
                                         (uniqueTokens doc)) in
                   let size :=
                     List.length (newSet (uniqueTokens doc
                                          ++ uniqueTokens other)%list) in
                   let union := match size with O => 1%nat | _ => size end in
                   let similarity := INR overlap / INR union in
                   if Rltb max similarity then similarity else max)
                others 0
  end.

Definition lambda : R := 0.72.

(** The [for] loop of one round of [selectByMMR]; [bestScore = None] is
    [-Infinity]. *)
Definition pickBest (docs : list SentenceDoc) (scores : list R)
           (selected candidates : list nat) (first : nat) : nat :=
  fst (fold_left
         (fun '(bestIndex, bestScore) candidate =>
            let relevance := nth candidate scores 0 in
            let redundancy :=
              maxSimilarity (nth candidate docs undefinedDoc)
                            (map (fun idx => nth idx docs undefinedDoc)
                                 selected) in
            let mmr := lambda * relevance - (1 - lambda) * redundancy in
            let better := match bestScore with
                          | None => true
                          | Some b => Rltb b mmr
                          end in
            if better then (candidate, Some mmr) else (bestIndex, bestScore))
         candidates (first, None)).

(** [candidates.splice(candidates.indexOf(x), 1)] *)
Fixpoint removeFirst (x : nat) (l : list nat) : list nat :=
  match l with
  | [] => []
  | y :: l' => if Nat.eqb y x then l' else y :: removeFirst x l'
  end.

(** The [while] loop of [selectByMMR]; [room] is
    [maxItems - selected.length]. *)
Fixpoint mmrLoop (docs : list SentenceDoc) (scores : list R) (room : nat)
         (candidates selected : list nat) : list nat :=
  match room, candidates with
  | S room', first :: _ =>
      let bestIndex := pickBest docs scores selected candidates first in
      mmrLoop docs scores room' (removeFirst bestIndex candidates)
              (selected ++ [bestIndex])%list
  | _, _ => selected
  end.

Definition selectByMMR (docs : list SentenceDoc) (scores : list R)
           (maxItems : nat) : list nat :=
  let candidates :=
    map fst (sortDescBy snd (combine (seq 0 (List.length scores)) scores)) in
  sortIndices (mmrLoop docs scores maxItems candidates []).

(** The loop of [enforceCharacterLimit], with its two [break]s. *)
Fixpoint enforceLoop (docs : list SentenceDoc) (limit : nat)
         (selected : list nat) (chosen : list SentenceDoc) (total : nat)
  : list SentenceDoc :=
  match selected with
  | [] => chosen
  | index :: rest =>
      let candidate := nth index docs undefinedDoc in
      let projected := (total + Text.lengthOf (original candidate))%nat in
      if (4 <=? List.length chosen)%nat then chosen
      else if (limit <? projected)%nat && (0 <? List.length chosen)%nat
           then chosen
      else enforceLoop docs limit rest (chosen ++ [candidate])%list projected
  end.

Definition enforceCharacterLimit (docs : list SentenceDoc)
           (selected : list nat) (limit : nat) : list SentenceDoc :=
  enforceLoop docs limit selected [] 0%nat.

Definition bullet : string := "• ".
Definition ellipsis : string := "…".
Definition newline : string := String (ascii_of_nat 10) EmptyString.

Definition formatBullet (sentence author : string) : string :=
  let trimmed := Text.trim (Text.collapseSpaces (Text.ofString sentence)) in
  let preview :=
    if (180 <? Text.units trimmed)%nat
    then Text.toString (Text.slice 177 trimmed) ++ ellipsis
    else Text.toString trimmed in
  bullet ++ author ++ ": " ++ preview.

Definition formatSummary (sentences : list SentenceDoc)
  : ExtractiveSummaryResult :=
  let bullets :=
    map (fun sentence => formatBullet (original sentence) (author sentence))
        sentences in
  {| summary := orElse (join newline bullets) noNotable;
     tokensUsed := (0, 0);
     cost := 0;
     selectedIds := map docId sentences |}.

Definition fallback (messages : list MessageForSummary)
  : ExtractiveSummaryResult :=
  let top := firstn (Nat.min 3 (List.length messages)) messages in
  let bullets :=
    map (fun msg => formatBullet (content msg) (authorUsername msg)) top in
  {| summary := orElse (join newline bullets) noNotable;
     tokensUsed := (0, 0);
     cost := 0;
     selectedIds := map id top |}.

(** The path [summarize] returns through. *)
Inductive Path : Type := PathEmpty | PathFallback | PathSelection.

(** [summarize]: the taxonomy cache and the [lastIndex] of [DECISION_REGEX]
    are the state it runs in; it yields the result, the path taken, the
    documents kept, and the [lastIndex] it leaves. *)
Definition run (topics : JsMap Topic) (lastIndex : nat)
           (messages : list MessageForSummary) (topic : string)
  : ExtractiveSummaryResult * Path * list SentenceDoc * nat :=
  match messages with
  | [] => (emptyResult, PathEmpty, [], lastIndex)
  | _ =>
      let sentences := buildSentenceDocs messages in
      match sentences with
      | [] => (emptyResult, PathEmpty, [], lastIndex)
      | _ =>
          let topicInfo := TopicService.find topics topic in
          let topicTokens :=
            buildTopicTokens
              (match topicInfo with Some t => topicKeywords t | None => [] end)
              (match topicInfo with Some t => topicBigrams t | None => [] end)
              topic in
          let docFreq := buildDocumentFrequency sentences in
          let '(scores, lastIndex') :=
            scoreSentences lastIndex docFreq (List.length sentences)
                           topicTokens 0 sentences in
          let selected := selectByMMR sentences scores 4 in
          match selected with
          | [] => (fallback messages, PathFallback, [], lastIndex')
          | _ =>
              let capped := enforceCharacterLimit sentences selected 380 in
              (formatSummary capped, PathSelection, capped, lastIndex')
          end
      end
  end.

Definition summarize (topics : JsMap Topic) (lastIndex : nat)
           (messages : list MessageForSummary) (topic : string)
  : ExtractiveSummaryResult :=
  fst (fst (fst (run topics lastIndex messages topic))).

End Summarizer.

(* ================================================================== *)
(** * TopicCounterService *)
(* ================================================================== *)

Module TopicCounterService.
Import Js.

(** [count]: a result [{ slug, count }] is the pair [(slug, count)]. *)
Definition count (scores : list ThreadScore) : list (string * R) :=
  let totals :=
    fold_left (fun totals score =>
                 fold_left (fun totals hit =>
                              let weight :=
                                keywordHits hit + bigramHits hit * 2 in
                              set totals (slug hit)
                                  (getOr totals (slug hit) 0 + weight))
                           (topicHits (feature score)) totals)
              scores [] in
  firstn 3 (sortDescBy snd totals).

End TopicCounterService.

(* ================================================================== *)
(** * ThreadFeatureExtractor *)
(* ================================================================== *)

Module ThreadFeatureExtractor.
Import Js.

Record Reaction : Type := {
  emoji : string;
  count : R
}.

(** A document of the [Message] collection as [lean()] returns it, with the
    fields the extractor reads.  The schema gives [content],
    [normalizedContent], [matchedKeywords], [linkCount] and
    [reactionSummary] a default, so the [??] of the readers never
    applies. *)
Record IndexedMessage : Type := {
  msgMessageId : string;
  msgGuildId : string;
  msgChannelId : string;
  msgThreadId : option string;
  msgParentChannelId : option string;
  msgAuthorId : string;
  msgAuthorUsername : string;
  msgContent : string;
  msgNormalizedContent : string;
  msgMatchedKeywords : list string;
  msgLinkCount : R;
  msgReactionSummary : list Reaction;
  msgTimestamp : R
}.

Record InternalAccumulator : Type := {
  accKey : string;
  accGuildId : string;
  accChannelId : string;
  accThreadId : option string;
  accParentChannelId : option string;
  accMessageCount : R;
  accLinkCount : R;
  accReactionWeighted : R;
  accParticipants : list string;
  accTopicStats : JsMap TopicHitMetric;
  accKeywordSet : list string;
  accMessages : list MessageForSummary;
  accDecisionVerbHits : R;
  accFirstMessageAt : R;
  accLastMessageAt : R
}.

(** The alternatives of [DECISION_VERB_REGEX], in order. *)
Definition decisionVerbs : list Text.chars :=
  map Text.ofString
      ["decide"; "decided"; "approve"; "approved"; "ship"; "shipping";
       "shipped"; "blocked"; "blocker"; "eta"; "owner"].

Definition REACTION_WEIGHTS : JsMap R :=
  [ ("üëç", 2);
    ("‚úÖ", 2);
    ("üî•", 2);
    ("üí°", 1.5);
    ("‚ù§Ô∏è", 1.5);
    ("üéâ", 1.5);
    ("üòÇ", 0.75) ].

(** The properties every object literal inherits from [Object.prototype]:
    [REACTION_WEIGHTS[name]] is a function (an object for [__proto__]) for
    these names, not [undefined]. *)
Definition inheritedNames : list string := prototypeNames.

(** [REACTION_WEIGHTS[emoji] ?? 1] as a factor of a product: [None] is the
    case where the product is [NaN]. *)
Definition reactionWeight (emoji : string) : option R :=
  match get REACTION_WEIGHTS emoji with
  | Some w => Some w
  | None => if has inheritedNames emoji then None else Some 1
  end.

(** [key = doc.threadId ?? doc.channelId] *)
Definition keyOf (doc : IndexedMessage) : string :=
  match msgThreadId doc with
  | Some t => t
  | None => msgChannelId doc
  end.

Definition createAccumulator (doc : IndexedMessage) (guildId : string)
  : InternalAccumulator :=
  {| accKey := keyOf doc;
     accGuildId := guildId;
     accChannelId := msgChannelId doc;
     accThreadId := msgThreadId doc;
     accParentChannelId := msgParentChannelId doc;
     accMessageCount := 0;
     accLinkCount := 0;
     accReactionWeighted := 0;
     accParticipants := [];
     accTopicStats := [];
     accKeywordSet := [];
     accMessages := [];
     accDecisionVerbHits := 0;
     accFirstMessageAt := msgTimestamp doc;
     accLastMessageAt := msgTimestamp doc |}.

(** [calculateReactionWeight]; [None] when the total is [NaN]. *)
Definition calculateReactionWeight (summary : list Reaction) : option R :=
  match summary with
  | [] => Some 0
  | _ =>
      fold_left (fun total reaction =>
                   match total, reactionWeight (emoji reaction) with
                   | Some total, Some weight =>
                       Some (total + weight * count reaction)
                   | _, _ => None
                   end)
                summary (Some 0)
  end.

(** The number of matches of an alternation of literal words in [s]:
    leftmost first, the alternatives tried in order, no overlap ([skip]
    characters of the last match remain). *)
Fixpoint countWords (words : list Text.chars) (skip : nat) (s : Text.chars)
  : nat :=
  match s with
  | [] => 0
  | _ :: t =>
      match skip with
      | S k => countWords words k t
      | O =>
          match Text.firstWord words s with
          | Some (S m) => S (countWords words m t)
          | _ => countWords words 0 t
          end
      end
  end.

(** [content.match(DECISION_VERB_REGEX)?.length ?? 0]; [match] with a
    global expression starts at 0 whatever [lastIndex] was. *)
Definition countDecisionVerbs (content : string) : R :=
  match content with
  | EmptyString => 0
  | _ => INR (countWords decisionVerbs 0
                         (Text.toLowerCase (Text.ofString content)))
  end.

Definition channelsUrl : string := "https://discord.com/channels/".

Definition toSummaryMessage (doc : IndexedMessage) : MessageForSummary :=
  let channelId := keyOf doc in
  {| id := msgMessageId doc;
     authorUsername := msgAuthorUsername doc;
     content := msgContent doc;
     timestamp := msgTimestamp doc;
     url := channelsUrl ++ msgGuildId doc ++ "/" ++ channelId ++ "/"
            ++ msgMessageId doc |}.

(** The hits of [doc] for [topic]: matched keywords that are keywords of
    the topic, and bigrams of the topic found in the normalised content. *)
Definition keywordHitsOf (topic : Topic) (doc : IndexedMessage) : R :=
  INR (List.length (filter (has (topicKeywords topic))
                           (msgMatchedKeywords doc))).

Definition bigramHitsOf (topic : Topic) (doc : IndexedMessage) : R :=
  if (0 <? List.length (topicBigrams topic))%nat
     && negb (String.eqb (msgNormalizedContent doc) "")
  then INR (List.length
              (filter (fun bigram =>
                         Text.includes
                           (Text.toLowerCase (Text.ofString bigram))
                           (Text.ofString (msgNormalizedContent doc)))
                      (topicBigrams topic)))
  else 0.

(** The loop over the topics, on the [topicStats] of the accumulator. *)
Definition countTopics (topics : list Topic) (doc : IndexedMessage)
           (topicStats : JsMap TopicHitMetric) : JsMap TopicHitMetric :=
  fold_left
    (fun topicStats topic =>
       let keywordHits' := keywordHitsOf topic doc in
       let bigramHits' := bigramHitsOf topic doc in
       if Rltb 0 keywordHits' || Rltb 0 bigramHits' then
         let metric :=
           getOr topicStats (topicSlug topic)
                 {| slug := topicSlug topic; keywordHits := 0;
                    bigramHits := 0; boost := topicBoost topic |} in
         set topicStats (topicSlug topic)
             {| slug := slug metric;
                keywordHits := keywordHits metric + keywordHits';
                bigramHits := bigramHits metric + bigramHits';
                boost := boost metric |}
       else topicStats)
    topics topicStats.

(** The body of the loop over the messages, on the accumulator of the key
    of [doc]; [weight] is the reaction weight of [doc]. *)
Definition accumulate (topics : list Topic) (acc : InternalAccumulator)
           (doc : IndexedMessage) (weight : R) : InternalAccumulator :=
  {| accKey := accKey acc;
     accGuildId := accGuildId acc;
     accChannelId := accChannelId acc;
     accThreadId := accThreadId acc;
     accParentChannelId := accParentChannelId acc;
     accMessageCount := accMessageCount acc + 1;
     accLinkCount := accLinkCount acc + msgLinkCount doc;
     accReactionWeighted := accReactionWeighted acc + weight;
     accParticipants := add (accParticipants acc) (msgAuthorId doc);
     accTopicStats := countTopics topics doc (accTopicStats acc);
     accKeywordSet := fold_left add (msgMatchedKeywords doc)
                                (accKeywordSet acc);
     accMessages := (accMessages acc ++ [toSummaryMessage doc])%list;
     accDecisionVerbHits :=
       accDecisionVerbHits acc + countDecisionVerbs (msgContent doc);
     accFirstMessageAt := accFirstMessageAt acc;
     accLastMessageAt :=
       if Rltb (accLastMessageAt acc) (msgTimestamp doc)
       then msgTimestamp doc else accLastMessageAt acc |}.

Definition toFeature (guildId : string) (acc : InternalAccumulator)
  : ThreadFeature :=
  {| key := accKey acc;
     guildId := guildId;
     channelId := accChannelId acc;
     threadId := accThreadId acc;
     parentChannelId := accParentChannelId acc;
     uniqueParticipants := INR (List.length (accParticipants acc));
     messageCount := accMessageCount acc;
     reactionWeighted := Number (accReactionWeighted acc);
     topicHits := values (accTopicStats acc);
     linkCount := accLinkCount acc;
     decisionVerbHits := accDecisionVerbHits acc;
     hasLinks := Rleb 2 (accLinkCount acc);
     firstMessageAt := accFirstMessageAt acc;
     lastMessageAt := accLastMessageAt acc;
     matchedKeywords := accKeywordSet acc;
     messages := accMessages acc |}.

(** [fetchFeatures] on the documents the query returned and on the topics
    of [topicService.list()].  The accumulators hold numbers: the result
    is [None] when the reaction weight of a message is [NaN], the case in
    which the feature of its thread carries [NaN] as [reactionWeighted]. *)
Definition fetchFeatures (guildId : string) (topics : list Topic)
           (messages : list IndexedMessage) : option (list ThreadFeature) :=
  match messages with
  | [] => Some []
  | _ =>
      let grouped :=
        fold_left
          (fun grouped doc =>
             match grouped with
             | None => None
             | Some grouped =>
                 let key := keyOf doc in
                 let acc := getOr grouped key
                                  (createAccumulator doc guildId) in
                 match calculateReactionWeight (msgReactionSummary doc) with
                 | None => None
                 | Some weight =>
                     Some (set grouped key
                               (accumulate topics acc doc weight))
                 end
             end)
          messages (Some []) in
      match grouped with
      | Some grouped => Some (map (toFeature guildId) (values grouped))
      | None => None
      end
  end.

End ThreadFeatureExtractor.

(* ================================================================== *)
(** * PresenceActivityBuilder *)
(* ================================================================== *)

Module PresenceActivityBuilder.

(** [ActivityType] of discord.js. *)
Inductive ActivityType : Type :=
| Playing | Streaming | Listening | Watching | Custom | Competing.

Record PresenceActivity : Type := {
  name : string;
  activityType : ActivityType
}.

(** [mentions] and [guildCount] are counts: natural numbers, printed in
    decimal by the template strings. *)
Record PresenceBuilderContext : Type := {
  trendingTopic : option (string * nat);
  trendingKeyword : option (string * nat);
  guildCount : nat
}.

(** [`${n}`] *)
Definition show (n : nat) : string :=
  NilEmpty.string_of_uint (Nat.to_uint n).

Definition FALLBACK_ACTIVITY : PresenceActivity :=
  {| name := "/help · explore commands"; activityType := Listening |}.

Definition COMMAND_HINTS : list PresenceActivity :=
  [ {| name := "/subscribe · personalize digests";
       activityType := Listening |};
    {| name := "/digest-now · preview the latest";
       activityType := Playing |};
    {| name := "/todo add · capture action items";
       activityType := Competing |} ].

Definition addUniqueActivity (target : list PresenceActivity)
           (activity : option PresenceActivity) : list PresenceActivity :=
  match activity with
  | None => target
  | Some activity =>
      let exists_ :=
        existsb (fun existing => String.eqb (name existing) (name activity))
                target in
      if exists_ then target else (target ++ [activity])%list
  end.

Definition buildTrendActivity (context : PresenceBuilderContext)
  : option PresenceActivity :=
  match trendingTopic context with
  | Some (label, mentions) =>
      Some {| name := "/topics trending · "
                      ++ Text.toString (Text.toLowerCase (Text.ofString label))
                      ++ " (" ++ show mentions ++ ")";
              activityType := Listening |}
  | None =>
      match trendingKeyword context with
      | Some (keyword, mentions) =>
          Some {| name := "/where "
                          ++ Text.toString
                               (Text.toLowerCase (Text.ofString keyword))
                          ++ " · " ++ show mentions ++ " mentions";
                  activityType := Watching |}
      | None => None
      end
  end.

Definition buildGuildActivity (guildCount : nat) : PresenceActivity :=
  let label := if Nat.eqb guildCount 1 then "community" else "communities" in
  {| name := "Serving " ++ show guildCount ++ " " ++ label
             ++ " across Canada";
     activityType := Playing |}.

Definition buildPresenceActivities (context : PresenceBuilderContext)
  : list PresenceActivity :=
  let activities := [] in
  let activities :=
    addUniqueActivity activities (buildTrendActivity context) in
  let activities :=
    addUniqueActivity activities
                      (Some (buildGuildActivity (guildCount context))) in
  let activities :=
    fold_left (fun activities hint => addUniqueActivity activities (Some hint))
              COMMAND_HINTS activities in
  addUniqueActivity activities (Some FALLBACK_ACTIVITY).

End PresenceActivityBuilder.

(* ================================================================== *)
(** * DigestGenerator *)
(* ================================================================== *)

(** The parts of the digest that are computed from the features: which
    threads are listed, their entries, the statistics and the escalated
    topics.  The embeds, the call of the AI summary and the rounded
    [threadScores] are not modelled. *)
Module DigestGenerator.
Import Js.

Record TopicWeight : Type := {
  weightSlug : string;
  weight : R
}.

Record ThreadDigestEntry : Type := {
  primaryTopic : string;
  entryChannelId : string;
  entryThreadId : option string;
  entryMessageCount : R;
  topics : list TopicWeight
}.

Record DigestStats : Type := {
  statsMessageCount : R;
  topicCount : nat;
  topTopics : list (string * R);
  clusterLabels : list string
}.

(** [[...feature.topicHits].sort(...)] of [buildThreadEmbed] *)
Definition sortedTopics (feature : ThreadFeature) : list TopicHitMetric :=
  sortDescBy (fun hit => (keywordHits hit + bigramHits hit * 2) * boost hit)
             (topicHits feature).

(** [sortedTopics[0]?.slug ?? feature.matchedKeywords[0] ?? 'discussion'] *)
Definition primaryTopicOf (feature : ThreadFeature) : string :=
  match sortedTopics feature with
  | hit :: _ => slug hit
  | [] =>
      match matchedKeywords feature with
      | keyword :: _ => keyword
      | [] => "discussion"
      end
  end.

Definition topTopicWeights (feature : ThreadFeature) : list TopicWeight :=
  map (fun hit =>
         {| weightSlug := slug hit;
            weight := (keywordHits hit * 2 + bigramHits hit * 4)
                      * boost hit |})
      (firstn 3 (sortedTopics feature)).

(** The [metadata] that [buildThreadEmbed] returns. *)
Definition metadata (score : ThreadScore) : ThreadDigestEntry :=
  let feature := feature score in
  {| primaryTopic := primaryTopicOf feature;
     entryChannelId := channelId feature;
     entryThreadId := threadId feature;
     entryMessageCount := messageCount feature;
     topics := topTopicWeights feature |}.

Definition arrow : string := " â†‘".

Definition detectEscalations (topTopics : list (string * R))
           (clusters : list ThemeClusterService.ThreadCluster)
  : list string :=
  fold_left
    (fun escalations topic =>
       let '(channelCount, decisionHits) :=
         fold_left
           (fun '(channelCount, decisionHits) cluster =>
              let membersWithTopic :=
                filter (fun member =>
                          existsb (fun hit => String.eqb (slug hit) (fst topic))
                                  (topicHits (feature member)))
                       (ThemeClusterService.members cluster) in
              if (0 <? List.length membersWithTopic)%nat
              then
                ((channelCount
                  + List.length
                      (newSet (map (fun member => channelId (feature member))
                                   membersWithTopic)))%nat,
                 decisionHits
                 + fold_left (fun sum member =>
                                sum + decisionVerbHits (feature member))
                             membersWithTopic 0)
              else (channelCount, decisionHits))
           clusters (0%nat, 0) in
       if (3 <=? channelCount)%nat && Rleb 2 decisionHits
       then (escalations ++ [(fst topic ++ arrow)%string])%list
       else escalations)
    topTopics [].

(** [generateDigest] after the features are fetched: the entries of the
    threads listed and the statistics. *)
Definition generateDigest (st : GuildFeatureConfigService.State) (now : R)
           (guildId : string) (features : list ThreadFeature)
  : list ThreadDigestEntry * DigestStats :=
  match features with
  | [] =>
      ([], {| statsMessageCount := 0; topicCount := 0; topTopics := [];
              clusterLabels := [] |})
  | _ =>
      let scored :=
        ThreadScoringService.scoreThreads st now guildId features in
      let themeAnalysis := ThemeClusterService.analyze scored in
      let topTopics := TopicCounterService.count scored in
      let topScores := firstn 9 scored in
      let totalMessages :=
        fold_left (fun totalMessages score =>
                     totalMessages + messageCount (feature score))
                  topScores 0 in
      (map metadata topScores,
       {| statsMessageCount := totalMessages;
          topicCount := List.length topScores;
          topTopics := topTopics;
          clusterLabels :=
            map ThemeClusterService.label
                (ThemeClusterService.clusters themeAnalysis) |})
  end.

End DigestGenerator.

(* ================================================================== *)
(** * Vocabulary of the statements *)
(* ================================================================== *)

(** Sum of a list of numbers: the [Σ] of the formulas. *)
Definition sumR (l : list R) : R := fold_right Rplus 0 l.

(** The scoring formula, as a property of one [ThreadScore] computed at
    time [now] for [guild] under the configuration state [st].  The sum
    and the product are those of the code: [NaN] when the reaction weight
    or the multiplier is not a number. *)
Definition scoreFormula (st : GuildFeatureConfigService.State) (now : R)
           (guild : string) (ts : ThreadScore) : Prop :=
  let f := feature ts in
  let b := breakdown ts in
  let hoursSinceLastMessage := (now - lastMessageAt f) / 3600000 in
  participants b = 1.2 * uniqueParticipants f
  /\ bMessageCount b = ln (1 + messageCount f)
  /\ reactions b = (0.8 * reactionWeighted f)%num
  /\ bTopicHits b
     = 1.3 * sumR (map (fun hit =>
                          (keywordHits hit * 2 + bigramHits hit * 4)
                          * boost hit)
                       (topicHits f))
  /\ links b = 1.1 * (if hasLinks f then 2 else 0)
  /\ decisions b = 1.4 * decisionVerbHits f * 3
  /\ timeDecay b = Rmax 0 (hoursSinceLastMessage / 72)
  /\ score ts
     = ((participants b + bMessageCount b + reactions b + bTopicHits b
         + links b + decisions b - timeDecay b)
        * GuildFeatureConfigService.getChannelMultiplier st guild
            (channelId f))%num.

(** [ms] are the elements of [scores] at the indices [idx], in order. *)
Definition membersAt (scores : list ThreadScore) (idx : list nat)
           (ms : list ThreadScore) : Prop :=
  Forall2 (fun i s => nth_error scores i = Some s) idx ms.


(** All topic hits of the members of a cluster, in order. *)
Definition memberHits (ms : list ThreadScore) : list TopicHitMetric :=
  flat_map (fun s => topicHits (feature s)) ms.

(** The topic slugs of a cluster, in first-seen order. *)
Definition labelSlugs (ms : list ThreadScore) : list string :=
  Js.newSet (map slug (memberHits ms)).

(** The weight of the topic slug [t] in the label of a cluster: the sum of
    [keywordHits + 2 x bigramHits] over the members' hits for [t]. *)
Definition labelWeight (ms : list ThreadScore) (t : string) : R :=
  sumR (map (fun hit => keywordHits hit + bigramHits hit * 2)
            (filter (fun hit => String.eqb (slug hit) t) (memberHits ms))).

(** A label made of the first two tokens of a ranking. *)
Definition labelOf (ranking : list string) : string :=
  match ranking with
  | t1 :: t2 :: _ => t1 ++ ThemeClusterService.separator ++ t2
  | [t] => t
  | [] => "general"
  end.

(** What the label of a cluster with members [ms] is: made of the topic
    slugs of the members, ranked by [labelWeight]. *)
Definition labelSpec (ms : list ThreadScore) (l : string) : Prop :=
  (labelSlugs ms = [] /\ l = "general")
  \/ (exists t, labelSlugs ms = [t] /\ l = t)
  \/ (exists t1 t2,
        l = t1 ++ ThemeClusterService.separator ++ t2
        /\ In t1 (labelSlugs ms) /\ In t2 (labelSlugs ms) /\ t1 <> t2
        /\ labelWeight ms t2 <= labelWeight ms t1
        /\ forall t, In t (labelSlugs ms) -> t <> t1 ->
                     labelWeight ms t <= labelWeight ms t2).

(** The accumulated length of the original text of the kept sentences,
    in UTF-16 code units as the code counts it. *)
Definition totalChars (chosen : list Summarizer.SentenceDoc) : nat :=
  list_sum (map (fun d => Text.lengthOf (Summarizer.original d)) chosen).

(** The bullet lines of the kept sentences. *)
Definition bulletsOf (chosen : list Summarizer.SentenceDoc) : list string :=
  map (fun d => Summarizer.formatBullet (Summarizer.original d)
                                        (Summarizer.author d))
      chosen.

(** The documents [docs] come from [messages] in message order: the ids of
    the documents are the ids of the messages, each repeated once per
    surviving sentence. *)
Definition inMessageOrder (messages : list MessageForSummary)
           (docs : list Summarizer.SentenceDoc) : Prop :=
  exists counts : list nat,
    List.length counts = List.length messages
    /\ map Summarizer.docId docs
       = flat_map (fun mk => repeat (id (fst mk)) (snd mk))
                  (combine messages counts).

(** What the loops of [buildSentenceDocs] maintain. *)
Definition docsInv (messages : list MessageForSummary)
           (st : list Summarizer.SentenceDoc * nat) : Prop :=
  snd st = List.length (fst st)
  /\ map Summarizer.position (fst st) = seq 0 (List.length (fst st))
  /\ Forall (fun d => exists m, In m messages /\ Summarizer.docId d = id m
                                /\ Summarizer.author d = authorUsername m) (fst st).

(** The number of line feeds of a string: [s.split('\n').length - 1]. *)
Fixpoint lineBreaks (s : string) : nat :=
  match s with
  | EmptyString => 0
  | String c s' =>
      ((if Ascii.eqb c (ascii_of_nat 10) then 1 else 0) + lineBreaks s')%nat
  end.

(** ** Sample inputs *)

Module Sample.

Definition message (i a c : string) : MessageForSummary :=
  {| id := i; authorUsername := a; content := c; timestamp := 0;
     url := "" |}.

(** A message whose only word is a stopword. *)
Definition onlyStopword : list MessageForSummary :=
  [message "m1" "maya" "AI!"].

(** A message of one sentence of 81 words, longer than the limit of the
    summary. *)
Definition longSentence : list MessageForSummary :=
  [message "m3" "noor"
           (Js.join " " (repeat "solar" 80) ++ " grid.")].

(** A message of two sentences. *)
Definition twoSentences : list MessageForSummary :=
  [message "m2" "jules" "Solar panels shipped. Budget approved today!"].

Definition feature0 (keywords : list string) (hits : list TopicHitMetric)
  : ThreadFeature :=
  {| key := "c1"; guildId := "g1"; channelId := "c1"; threadId := None;
     parentChannelId := None; uniqueParticipants := 1; messageCount := 1;
     reactionWeighted := Js.Number 0; topicHits := hits; linkCount := 0;
     decisionVerbHits := 0; hasLinks := false; firstMessageAt := 0;
     lastMessageAt := 0; matchedKeywords := keywords; messages := [] |}.

Definition scored (f : ThreadFeature) : ThreadScore :=
  ThreadScoringService.scoreFeature GuildFeatureConfigService.emptyState 0
                                    "g1" f.

(** A thread of three participants with a reaction weight of 4. *)
Definition lively : ThreadFeature :=
  {| key := "c2"; guildId := "g1"; channelId := "c2"; threadId := None;
     parentChannelId := None; uniqueParticipants := 3; messageCount := 5;
     reactionWeighted := Js.Number 4; topicHits := []; linkCount := 0;
     decisionVerbHits := 0; hasLinks := false; firstMessageAt := 0;
     lastMessageAt := 0; matchedKeywords := []; messages := [] |}.

(** A thread that matched the keyword [solar], which no topic lists. *)
Definition solar : ThreadScore := scored (feature0 ["solar"] []).

(** A thread without keywords and topic hits. *)
Definition quiet : ThreadScore := scored (feature0 [] []).


End Sample.

Module Sample64.
Import PrimFloat.





End Sample64.

(** The token-weight vector of the unit at position [j] of [scores]. *)
Definition vectorAt (scores : list ThreadScore) (j : nat) : Js.JsMap R :=
  nth j (map ThemeClusterService.buildVector scores) [].

(** The clusters [cs] are made from the index lists [parts]: a part is the
    seed position of a cluster and the positions of its members. *)
Definition clustersOf (scores : list ThreadScore)
           (cs : list ThemeClusterService.ThreadCluster)
           (parts : list (nat * list nat)) : Prop :=
  Forall2 (fun c p =>
             ThemeClusterService.clusterId c
             = "cluster-" ++ NilEmpty.string_of_uint (Nat.to_uint (fst p))
             /\ membersAt scores (snd p) (ThemeClusterService.members c))
          cs parts.

(** The weight of [hit] in a vector. *)
Definition hitWeight (hit : TopicHitMetric) : R :=
  (keywordHits hit * 2 + bigramHits hit * 4) * boost hit.

(** The summed weight of [token] over the vectors [vs]. *)
Definition summedWeight (vs : list (Js.JsMap R)) (token : string) : R :=
  sumR (map (fun v => Js.getOr v token 0) vs).

(** The tokens of the vectors [vs], in first-seen order. *)
Definition tokensOf (vs : list (Js.JsMap R)) : list string :=
  Js.newSet (flat_map Js.keys vs).

(** [out] ranks the [k] heaviest tokens of the vectors [vs]: distinct
    tokens with their summed weights, in descending order, no token left
    out weighing more than a listed one. *)
Definition isRanking (vs : list (Js.JsMap R)) (k : nat)
           (out : list (string * R)) : Prop :=
  List.length out = Nat.min k (List.length (tokensOf vs))
  /\ NoDup (map fst out)
  /\ StronglySorted (fun a b => snd b <= snd a) out
  /\ Forall (fun e => In (fst e) (tokensOf vs)
                      /\ snd e = summedWeight vs (fst e)) out
  /\ (forall t o, In t (tokensOf vs) -> ~ In t (map fst out) -> In o out ->
                  summedWeight vs t <= snd o).

(** A part is well formed: its seed comes first, its positions increase,
    and every other member is similar enough to the seed. *)
Definition seededPart (scores : list ThreadScore) (p : nat * list nat)
  : Prop :=
  exists extra,
    snd p = fst p :: extra
    /\ StronglySorted lt (snd p)
    /\ Forall (fun j => (j < List.length scores)%nat
                        /\ ThemeClusterService.threshold
                           <= ThemeClusterService.cosineSimilarity
                                (vectorAt scores (fst p)) (vectorAt scores j))
              extra.

(** No member of the part [q] is similar enough to the seed of [p]. *)
Definition separated (scores : list ThreadScore) (p q : nat * list nat)
  : Prop :=
  Forall (fun j => ThemeClusterService.cosineSimilarity
                     (vectorAt scores (fst p)) (vectorAt scores j)
                   < ThemeClusterService.threshold)
         (snd q).

(** What the outer loop of [analyze] maintains, for [found] and [visited]
    when the positions of [todo] remain. *)
Definition greedyInv (scores : list ThreadScore) (todo : list nat)
           (found : list (nat * list nat)) (visited : list nat) : Prop :=
  Forall (seededPart scores) found
  /\ StronglySorted lt (map fst found)
  /\ ForallOrdPairs (separated scores) found
  /\ (forall p t, In p found -> In t todo -> (fst p < t)%nat)
  /\ (forall p j, In p found -> (fst p < j < List.length scores)%nat ->
                  ~ In j visited ->
                  ThemeClusterService.cosineSimilarity
                    (vectorAt scores (fst p)) (vectorAt scores j)
                  < ThemeClusterService.threshold)
  /\ (forall p j, In p found -> In j (snd p) -> In j visited).

(** ** The configuration cache and the collection *)

(** The cache holds for [guild] what the collection holds. *)
Definition synced (st : GuildFeatureConfigService.State) (guild : string)
  : Prop :=
  Js.get (GuildFeatureConfigService.cache st) guild
  = Js.get (GuildFeatureConfigService.db st) guild.


(** The multiplier objects of the collection are objects: no channel is a
    key twice. *)
Definition wellKeyed (st : GuildFeatureConfigService.State) : Prop :=
  Forall (fun gd =>
            match GuildFeatureConfigService.channelMultipliers (snd gd) with
            | Some m => NoDup (Js.keys m)
            | None => True
            end)
         (GuildFeatureConfigService.db st).





(** The weight a request of [updateChannelMultipliers] carries for
    [channel]: the last one listed under that key; the empty key is
    skipped, and so is [__proto__], which the assignment to the object of
    sanitised weights does not create. *)
Definition requested (multipliers : Js.JsMap Js.JsNumber) (channel : string)
  : option Js.JsNumber :=
  if String.eqb channel "" || String.eqb channel "__proto__" then None
  else Js.get (rev multipliers) channel.

(** The cached configuration of the guild has a multiplier map. *)
Definition hasMultiplierMap (st : GuildFeatureConfigService.State)
           (guild : string) : bool :=
  match Js.get (GuildFeatureConfigService.cache st) guild with
  | Some config =>
      match GuildFeatureConfigService.channelMultipliers config with
      | Some _ => true
      | None => false
      end
  | None => false
  end.

(** [channel] is the name of a member that objects inherit and the guild
    has no multiplier map yet: the channel reads the default 1 now, and the
    inherited member as soon as the guild has a map. *)
Definition inheritedOnceMapped (st : GuildFeatureConfigService.State)
           (guild channel : string) : bool :=
  Js.has Js.prototypeNames channel && negb (hasMultiplierMap st guild).

(** ** The topic taxonomy *)

(** Every entry of [m] is stored under the slug of its topic, the slug is
    in lower case, and no slug is a key twice. *)
Definition keyedBySlug (m : Js.JsMap Topic) : Prop :=
  NoDup (Js.keys m)
  /\ Forall (fun kv => topicSlug (snd kv) = fst kv
                       /\ TopicService.normalized (fst kv) = fst kv) m.

(** ** Sentence documents *)

(** What every [SentenceDoc] built from a sentence satisfies: it has at
    least one token, every token has 2 to 24 characters and is no stopword,
    its n-grams are the bigrams and then the trigrams of its tokens, its
    length counts tokens and n-grams, its unique tokens are those tokens
    and n-grams once each, in first-seen order, and its term frequencies
    count their occurrences. *)
Definition wellFormedDoc (d : Summarizer.SentenceDoc) : Prop :=
  let n := List.length (Summarizer.tokens d) in
  let combined := (Summarizer.tokens d ++ Summarizer.ngrams d)%list in
  Summarizer.tokens d <> []
  /\ Forall (fun t => (2 <= String.length t <= 24)%nat
                      /\ ~ In t Summarizer.stopwords)
            (Summarizer.tokens d)
  /\ List.length (Summarizer.ngrams d) = ((n - 1) + (n - 2))%nat
  /\ Summarizer.docLength d = (n + (n - 1) + (n - 2))%nat
  /\ NoDup (Summarizer.uniqueTokens d)
  /\ (forall t, In t (Summarizer.uniqueTokens d) <-> In t combined)
  /\ Js.keys (Summarizer.tf d) = Summarizer.uniqueTokens d
  /\ (forall t, Js.getOr (Summarizer.tf d) t 0%nat
                = count_occ string_dec combined t).

(** The value [selectByMMR] maximises when it picks after [selected]:
    relevance against the redundancy with what is already picked. *)
Definition mmrValue (docs : list Summarizer.SentenceDoc) (scores : list R)
           (selected : list nat) (candidate : nat) : R :=
  Summarizer.lambda * nth candidate scores 0
  - (1 - Summarizer.lambda)
    * Summarizer.maxSimilarity
        (nth candidate docs Summarizer.undefinedDoc)
        (map (fun idx => nth idx docs Summarizer.undefinedDoc) selected).

(** The share of tokens a document has in common with another one, as
    [maxSimilarity] computes it: overlap over union. *)
Definition tokenOverlap (doc other : Summarizer.SentenceDoc) : R :=
  let overlap :=
    List.length (filter (Js.has (Summarizer.uniqueTokens other))
                        (Summarizer.uniqueTokens doc)) in
  let size :=
    List.length (Js.newSet (Summarizer.uniqueTokens doc
                            ++ Summarizer.uniqueTokens other)%list) in
  let union := match size with O => 1%nat | _ => size end in
  INR overlap / INR union.

(** ** Features of threads *)

(** The messages of the thread (or channel) [key], in the order of the
    query. *)
Definition groupOf (key : string)
           (messages : list ThreadFeatureExtractor.IndexedMessage)
  : list ThreadFeatureExtractor.IndexedMessage :=
  filter (fun doc => String.eqb (ThreadFeatureExtractor.keyOf doc) key)
         messages.

(** No reaction of the messages is named like a property that every object
    inherits. *)
Definition plainReactions
           (messages : list ThreadFeatureExtractor.IndexedMessage) : bool :=
  forallb (fun doc =>
             forallb (fun reaction =>
                        negb (Js.has ThreadFeatureExtractor.inheritedNames
                                     (ThreadFeatureExtractor.emoji reaction)))
                     (ThreadFeatureExtractor.msgReactionSummary doc))
          messages.

(** The reaction weight of one message, when it is a number. *)
Definition reactionWeightOf (doc : ThreadFeatureExtractor.IndexedMessage)
  : R :=
  match ThreadFeatureExtractor.calculateReactionWeight
          (ThreadFeatureExtractor.msgReactionSummary doc) with
  | Some w => w
  | None => 0
  end.

(** The feature [f] aggregates the messages [grp] of its thread. *)
Definition aggregates (grp : list ThreadFeatureExtractor.IndexedMessage)
           (f : ThreadFeature) : Prop :=
  (exists first rest,
      grp = first :: rest
      /\ channelId f = ThreadFeatureExtractor.msgChannelId first
      /\ threadId f = ThreadFeatureExtractor.msgThreadId first
      /\ parentChannelId f = ThreadFeatureExtractor.msgParentChannelId first
      /\ firstMessageAt f = ThreadFeatureExtractor.msgTimestamp first)
  /\ uniqueParticipants f
     = INR (List.length
              (Js.newSet (map ThreadFeatureExtractor.msgAuthorId grp)))
  /\ 1 <= uniqueParticipants f <= messageCount f
  /\ linkCount f = sumR (map ThreadFeatureExtractor.msgLinkCount grp)
  /\ (hasLinks f = true <-> 2 <= linkCount f)
  /\ reactionWeighted f = Js.Number (sumR (map reactionWeightOf grp))
  /\ decisionVerbHits f
     = sumR (map (fun doc => ThreadFeatureExtractor.countDecisionVerbs
                               (ThreadFeatureExtractor.msgContent doc)) grp)
  /\ matchedKeywords f
     = Js.newSet (flat_map ThreadFeatureExtractor.msgMatchedKeywords grp)
  /\ firstMessageAt f <= lastMessageAt f
  /\ Forall (fun doc => ThreadFeatureExtractor.msgTimestamp doc
                        <= lastMessageAt f) grp
  /\ Exists (fun doc => lastMessageAt f
                        = ThreadFeatureExtractor.msgTimestamp doc) grp.

(** The message [doc] hits [topic]: one of its matched keywords is a
    keyword of the topic, or a bigram of the topic occurs in it. *)
Definition hitBy (topic : Topic)
           (doc : ThreadFeatureExtractor.IndexedMessage) : bool :=
  Js.Rltb 0 (ThreadFeatureExtractor.keywordHitsOf topic doc)
  || Js.Rltb 0 (ThreadFeatureExtractor.bigramHitsOf topic doc).

(** The metric [h] is the one of a topic of [topics] that some message of
    [grp] hits, with the hits of all messages of [grp] summed. *)
Definition hitsOf (topics : list Topic)
           (grp : list ThreadFeatureExtractor.IndexedMessage)
           (h : TopicHitMetric) : Prop :=
  exists topic,
    In topic topics
    /\ slug h = topicSlug topic
    /\ boost h = topicBoost topic
    /\ existsb (hitBy topic) grp = true
    /\ keywordHits h
       = sumR (map (ThreadFeatureExtractor.keywordHitsOf topic) grp)
    /\ bigramHits h
       = sumR (map (ThreadFeatureExtractor.bigramHitsOf topic) grp).

(** A thread of two messages by one author, and one message elsewhere. *)
Module SampleThread.

Definition first : ThreadFeatureExtractor.IndexedMessage :=
  {| ThreadFeatureExtractor.msgMessageId := "m1";
     ThreadFeatureExtractor.msgGuildId := "g";
     ThreadFeatureExtractor.msgChannelId := "c1";
     ThreadFeatureExtractor.msgThreadId := Some "t1";
     ThreadFeatureExtractor.msgParentChannelId := Some "c0";
     ThreadFeatureExtractor.msgAuthorId := "u1";
     ThreadFeatureExtractor.msgAuthorUsername := "maya";
     ThreadFeatureExtractor.msgContent := "The pipeline permit is approved";
     ThreadFeatureExtractor.msgNormalizedContent :=
       "the pipeline permit is approved";
     ThreadFeatureExtractor.msgMatchedKeywords := ["pipeline"; "permit"];
     ThreadFeatureExtractor.msgLinkCount := 1;
     ThreadFeatureExtractor.msgReactionSummary :=
       [ {| ThreadFeatureExtractor.emoji := "tada";
            ThreadFeatureExtractor.count := 2 |} ];
     ThreadFeatureExtractor.msgTimestamp := 10 |}.

Definition second : ThreadFeatureExtractor.IndexedMessage :=
  {| ThreadFeatureExtractor.msgMessageId := "m2";
     ThreadFeatureExtractor.msgGuildId := "g";
     ThreadFeatureExtractor.msgChannelId := "c1";
     ThreadFeatureExtractor.msgThreadId := Some "t1";
     ThreadFeatureExtractor.msgParentChannelId := Some "c0";
     ThreadFeatureExtractor.msgAuthorId := "u1";
     ThreadFeatureExtractor.msgAuthorUsername := "maya";
     ThreadFeatureExtractor.msgContent := "Grid work ships next";
     ThreadFeatureExtractor.msgNormalizedContent := "grid work ships next";
     ThreadFeatureExtractor.msgMatchedKeywords := ["grid"];
     ThreadFeatureExtractor.msgLinkCount := 1;
     ThreadFeatureExtractor.msgReactionSummary := [];
     ThreadFeatureExtractor.msgTimestamp := 20 |}.

Definition elsewhere : ThreadFeatureExtractor.IndexedMessage :=
  {| ThreadFeatureExtractor.msgMessageId := "m3";
     ThreadFeatureExtractor.msgGuildId := "g";
     ThreadFeatureExtractor.msgChannelId := "c2";
     ThreadFeatureExtractor.msgThreadId := None;
     ThreadFeatureExtractor.msgParentChannelId := Some "c2";
     ThreadFeatureExtractor.msgAuthorId := "u2";
     ThreadFeatureExtractor.msgAuthorUsername := "li";
     ThreadFeatureExtractor.msgContent := "A new bill";
     ThreadFeatureExtractor.msgNormalizedContent := "a new bill";
     ThreadFeatureExtractor.msgMatchedKeywords := ["bill"];
     ThreadFeatureExtractor.msgLinkCount := 0;
     ThreadFeatureExtractor.msgReactionSummary := [];
     ThreadFeatureExtractor.msgTimestamp := 15 |}.

Definition docs : list ThreadFeatureExtractor.IndexedMessage :=
  [first; elsewhere; second].

(** The features of [docs] under the default taxonomy. *)
Definition features : list ThreadFeature :=
  match ThreadFeatureExtractor.fetchFeatures "g" TopicService.defaults docs
  with
  | Some fs => fs
  | None => []
  end.

End SampleThread.

(** ** Sentences *)

(** [[^\s]] *)
Definition nonSpace (c : ascii) : bool := negb (Text.isSpace c).

(** Neither the first nor the last character is white space. *)
Definition trimmedChars (l : Text.chars) : Prop :=
  (forall c t, l = c :: t -> Text.isSpace c = false)
  /\ (forall c t, rev l = c :: t -> Text.isSpace c = false).

(** A sentence as [splitSentences] returns it: not empty, trimmed, and
    with no terminator before its last character. *)
Definition goodSentence (s : string) : Prop :=
  s <> ""
  /\ trimmedChars (Text.ofString s)
  /\ Forall (fun c => Summarizer.isTerminator c = false)
            (removelast (Text.ofString s)).



(** ** The digest *)

(** The weight by which [buildThreadEmbed] ranks the topic hits of a
    thread. *)
Definition topicWeight (hit : TopicHitMetric) : R :=
  (keywordHits hit + bigramHits hit * 2) * boost hit.

(** [entry] is the digest entry of the thread [score]: it names a
    heaviest topic hit of the thread as primary topic (the first matched
    keyword, or "discussion", when there is no hit) and lists the three
    heaviest hits, heaviest first, each with twice its ranking weight. *)
Definition entryOf (score : ThreadScore)
           (entry : DigestGenerator.ThreadDigestEntry) : Prop :=
  let f := feature score in
  DigestGenerator.entryChannelId entry = channelId f
  /\ DigestGenerator.entryThreadId entry = threadId f
  /\ DigestGenerator.entryMessageCount entry = messageCount f
  /\ match topicHits f with
     | [] =>
         DigestGenerator.primaryTopic entry
         = hd "discussion" (matchedKeywords f)
     | _ :: _ =>
         exists hit,
           In hit (topicHits f)
           /\ DigestGenerator.primaryTopic entry = slug hit
           /\ forall h, In h (topicHits f) -> topicWeight h <= topicWeight hit
     end
  /\ List.length (DigestGenerator.topics entry)
     = Nat.min 3 (List.length (topicHits f))
  /\ StronglySorted (fun a b => DigestGenerator.weight b
                                <= DigestGenerator.weight a)
                    (DigestGenerator.topics entry)
  /\ Forall (fun t => exists hit,
                        In hit (topicHits f)
                        /\ DigestGenerator.weightSlug t = slug hit
                        /\ DigestGenerator.weight t = 2 * topicWeight hit)
            (DigestGenerator.topics entry).

(** The thread [score] has a hit for the topic [s]. *)
Definition carries (s : string) (score : ThreadScore) : bool :=
  existsb (fun hit => String.eqb (slug hit) s) (topicHits (feature score)).

(* ================================================================== *)
(** * Facts about the prelude *)
(* ================================================================== *)

Section SortFacts.
Context {A : Type} (after : A -> A -> bool).

Lemma insert_perm (x : A) (l : list A) :
  Permutation (Js.insert after x l) (x :: l).
Proof.
  induction l as [|y l IH]; simpl; [reflexivity|].
  destruct (after x y); [|reflexivity].
  rewrite IH. apply perm_swap.
Qed.

Lemma sort_perm (l : list A) : Permutation (Js.sort after l) l.
Proof.
  induction l as [|x l IH]; simpl; [reflexivity|].
  rewrite insert_perm. now constructor.
Qed.

Lemma sort_length (l : list A) : List.length (Js.sort after l) = List.length l.
Proof. apply Permutation_length, sort_perm. Qed.

Lemma sort_in (x : A) (l : list A) : In x (Js.sort after l) <-> In x l.
Proof.
  split; apply Permutation_in; [|symmetry]; apply sort_perm.
Qed.

Lemma sort_Forall (P : A -> Prop) (l : list A) :
  Forall P l -> Forall P (Js.sort after l).
Proof.
  intro H. eapply Permutation_Forall; [symmetry; apply sort_perm|exact H].
Qed.

(** The order the sort establishes, for a comparator that follows a total
    preorder [le]. *)
Section Sorted.
Context (le : A -> A -> Prop).
Hypothesis le_trans : forall x y z, le x y -> le y z -> le x z.
Hypothesis after_false : forall x y, after x y = false -> le x y.
Hypothesis after_true : forall x y, after x y = true -> le y x.

Lemma insert_sorted (x : A) (l : list A) :
  StronglySorted le l -> StronglySorted le (Js.insert after x l).
Proof.
  induction 1 as [|y l Hs IH Hall]; simpl.
  - repeat constructor.
  - destruct (after x y) eqn:E.
    + constructor; [exact IH|].
      eapply Permutation_Forall; [symmetry; apply insert_perm|].
      constructor; [now apply after_true | exact Hall].
    + constructor; [now constructor|].
      constructor; [now apply after_false|].
      eapply Forall_impl; [|exact Hall].
      intros z Hz. eapply le_trans; [apply after_false; exact E | exact Hz].
Qed.

Lemma sort_sorted (l : list A) : StronglySorted le (Js.sort after l).
Proof.
  induction l as [|x l IH]; simpl; [constructor | now apply insert_sorted].
Qed.
End Sorted.

(** Stability: elements that never have to go after one another keep
    their order. *)
Section Stable.
Context (p : A -> bool).
Hypothesis same_class :
  forall x y, p x = true -> p y = true -> after x y = false.

Lemma insert_filter_out (x : A) (l : list A) :
  p x = false -> filter p (Js.insert after x l) = filter p l.
Proof.
  intro Hx. induction l as [|y l IH]; simpl.
  - now rewrite Hx.
  - destruct (after x y); simpl.
    + now rewrite IH.
    + now rewrite Hx.
Qed.

Lemma insert_filter_in (x : A) (l : list A) :
  p x = true -> filter p (Js.insert after x l) = x :: filter p l.
Proof.
  intro Hx. induction l as [|y l IH]; simpl.
  - now rewrite Hx.
  - destruct (after x y) eqn:E; simpl.
    + destruct (p y) eqn:Hy.
      * rewrite (same_class x y Hx Hy) in E. discriminate.
      * exact IH.
    + now rewrite Hx.
Qed.

Lemma sort_stable (l : list A) : filter p (Js.sort after l) = filter p l.
Proof.
  induction l as [|x l IH]; simpl; [reflexivity|].
  destruct (p x) eqn:Hx.
  - rewrite insert_filter_in by exact Hx. now rewrite IH.
  - rewrite insert_filter_out by exact Hx. exact IH.
Qed.
End Stable.

End SortFacts.

Lemma Reqb_true (x v : R) : Js.Reqb x v = true <-> x = v.
Proof. unfold Js.Reqb. destruct (Req_dec_T x v); split; congruence. Qed.

Lemma Rltb_true (x y : R) : Js.Rltb x y = true <-> x < y.
Proof. unfold Js.Rltb. destruct (Rlt_dec x y); split; congruence. Qed.

Lemma Rltb_false (x y : R) : Js.Rltb x y = false <-> y <= x.
Proof.
  unfold Js.Rltb. destruct (Rlt_dec x y); split; try congruence; lra.
Qed.

Lemma Rleb_true (x y : R) : Js.Rleb x y = true <-> x <= y.
Proof. unfold Js.Rleb. destruct (Rle_dec x y); split; congruence. Qed.

Lemma Rleb_false (x y : R) : Js.Rleb x y = false <-> y < x.
Proof.
  unfold Js.Rleb. destruct (Rle_dec x y); split; try congruence; lra.
Qed.

Section SortDescFacts.
Context {A : Type} (key : A -> R).

Lemma sortDescBy_perm (l : list A) : Permutation (Js.sortDescBy key l) l.
Proof. apply sort_perm. Qed.

Lemma sortDescBy_sorted (l : list A) :
  StronglySorted (fun a b => key b <= key a) (Js.sortDescBy key l).
Proof.
  apply sort_sorted.
  - intros x y z Hxy Hyz. lra.
  - intros x y H. apply Rltb_false in H. lra.
  - intros x y H. apply Rltb_true in H. lra.
Qed.

Lemma sortDescBy_stable (v : R) (l : list A) :
  filter (fun a => Js.Reqb (key a) v) (Js.sortDescBy key l)
  = filter (fun a => Js.Reqb (key a) v) l.
Proof.
  apply sort_stable. intros x y Hx Hy.
  apply Reqb_true in Hx. apply Reqb_true in Hy.
  apply Rltb_false. lra.
Qed.
(** Two lists in descending order of [key] whose elements of every key
    are the same, in the same order, are equal. *)
Lemma sorted_stable_unique (l1 : list A) :
  forall l2 : list A,
    StronglySorted (fun a b => key b <= key a) l1 ->
    StronglySorted (fun a b => key b <= key a) l2 ->
    (forall v, filter (fun a => Js.Reqb (key a) v) l1
               = filter (fun a => Js.Reqb (key a) v) l2) ->
    l1 = l2.
Proof.
  induction l1 as [|x t1 IH]; intros l2 H1 H2 Hf.
  - destruct l2 as [|y t2]; [reflexivity|].
    specialize (Hf (key y)). simpl in Hf.
    rewrite (proj2 (Reqb_true (key y) (key y)) eq_refl) in Hf. discriminate.
  - destruct l2 as [|y t2].
    + specialize (Hf (key x)). simpl in Hf.
      rewrite (proj2 (Reqb_true (key x) (key x)) eq_refl) in Hf. discriminate.
    + apply StronglySorted_inv in H1. destruct H1 as [H1 Hx].
      apply StronglySorted_inv in H2. destruct H2 as [H2 Hy].
      rewrite Forall_forall in Hx, Hy.
      assert (Hxy : key x <= key y).
      { assert (Hin : In x (filter (fun a => Js.Reqb (key a) (key x))
                                   (y :: t2))).
        { rewrite <- Hf. simpl.
          rewrite (proj2 (Reqb_true (key x) (key x)) eq_refl). now left. }
        apply filter_In in Hin. destruct Hin as [[<- | Hin] _]; [lra|].
        now apply Hy. }
      assert (Hyx : key y <= key x).
      { assert (Hin : In y (filter (fun a => Js.Reqb (key a) (key y))
                                   (x :: t1))).
        { rewrite Hf. simpl.
          rewrite (proj2 (Reqb_true (key y) (key y)) eq_refl). now left. }
        apply filter_In in Hin. destruct Hin as [[<- | Hin] _]; [lra|].
        now apply Hx. }
      assert (Hk : key x = key y) by lra.
      pose proof (Hf (key x)) as Hv. simpl in Hv.
      rewrite (proj2 (Reqb_true (key x) (key x)) eq_refl) in Hv.
      rewrite (proj2 (Reqb_true (key y) (key x)) (eq_sym Hk)) in Hv.
      injection Hv as -> Hv.
      f_equal. apply IH; [exact H1 | exact H2 |].
      intro v. specialize (Hf v). simpl in Hf.
      destruct (Js.Reqb (key y) v); [now injection Hf | exact Hf].
Qed.

(** [sortDescBy] is the stable sort: any output in descending order that
    keeps the input order among equal keys is the one it returns. *)
Lemma sortDescBy_unique (l out : list A) :
  StronglySorted (fun a b => key b <= key a) out ->
  (forall v, filter (fun a => Js.Reqb (key a) v) out
             = filter (fun a => Js.Reqb (key a) v) l) ->
  out = Js.sortDescBy key l.
Proof.
  intros Hs Hf. apply sorted_stable_unique;
    [exact Hs | apply sortDescBy_sorted |].
  intro v. now rewrite sortDescBy_stable.
Qed.

End SortDescFacts.

(** The order the sort establishes among elements that the comparator
    orders consistently. *)
Section SortedAmong.
Context {A : Type} (after : A -> A -> bool).
Context (good : A -> Prop) (le : A -> A -> Prop).
Hypothesis le_trans : forall x y z, le x y -> le y z -> le x z.
Hypothesis after_false :
  forall x y, good x -> good y -> after x y = false -> le x y.
Hypothesis after_true :
  forall x y, good x -> good y -> after x y = true -> le y x.

Lemma insert_sorted_among (x : A) (l : list A) :
  good x -> Forall good l -> StronglySorted le l ->
  StronglySorted le (Js.insert after x l).
Proof.
  intros Hx Hl Hs. induction Hs as [|y l Hs IH Hall]; simpl.
  - repeat constructor.
  - inversion Hl as [|? ? Hy Hl']; subst.
    destruct (after x y) eqn:E.
    + constructor; [now apply IH|].
      eapply Permutation_Forall; [symmetry; apply insert_perm|].
      constructor; [now apply after_true | exact Hall].
    + constructor; [now constructor|].
      constructor; [now apply after_false|].
      eapply Forall_impl; [|exact Hall].
      intros z Hz. eapply le_trans; [apply after_false; eassumption | exact Hz].
Qed.

Lemma sort_sorted_among (l : list A) :
  Forall good l -> StronglySorted le (Js.sort after l).
Proof.
  induction 1 as [|x l Hx Hl IH]; simpl; [constructor|].
  apply insert_sorted_among; [exact Hx | | exact IH].
  now apply sort_Forall.
Qed.
End SortedAmong.

Section SortNumericFacts.
Context {A : Type} (key : A -> Js.Numeric).

Lemma numLe_trans (x y z : Js.Numeric) :
  Js.numLe x y -> Js.numLe y z -> Js.numLe x z.
Proof. destruct x, y, z; simpl; try tauto. lra. Qed.

Lemma numEqb_true (x : Js.Numeric) (v : R) :
  Js.numEqb x (Js.Number v) = true <-> x = Js.Number v.
Proof.
  destruct x as [r|]; simpl.
  - rewrite Reqb_true. split; [now intros -> | congruence].
  - split; discriminate.
Qed.

Lemma sortDescByNumeric_perm (l : list A) :
  Permutation (Js.sortDescByNumeric key l) l.
Proof. apply sort_perm. Qed.

(** Keys that are numbers come out in descending order. *)
Lemma sortDescByNumeric_sorted (l : list A) :
  Forall (fun a => Js.isNumber (key a) = true) l ->
  StronglySorted (fun a b => Js.numLe (key b) (key a))
                 (Js.sortDescByNumeric key l).
Proof.
  apply sort_sorted_among.
  - intros x y z Hxy Hyz. eapply numLe_trans; eassumption.
  - intros x y Hx Hy. destruct (key x), (key y); try discriminate.
    simpl. intro H. apply Rltb_false in H. lra.
  - intros x y Hx Hy. destruct (key x), (key y); try discriminate.
    simpl. intro H. apply Rltb_true in H. lra.
Qed.

(** Elements whose keys are the same number keep their order. *)
Lemma sortDescByNumeric_stable (v : R) (l : list A) :
  filter (fun a => Js.numEqb (key a) (Js.Number v))
         (Js.sortDescByNumeric key l)
  = filter (fun a => Js.numEqb (key a) (Js.Number v)) l.
Proof.
  apply sort_stable. intros x y Hx Hy.
  apply numEqb_true in Hx. apply numEqb_true in Hy. rewrite Hx, Hy.
  simpl. apply Rltb_false. lra.
Qed.

End SortNumericFacts.

Lemma fold_left_plus {A} (w : A -> R) (l : list A) (acc : R) :
  fold_left (fun total x => total + w x) l acc = acc + sumR (map w l).
Proof.
  revert acc. induction l as [|x l IH]; intro acc; simpl.
  - lra.
  - rewrite IH. unfold sumR. simpl. lra.
Qed.

Lemma has_In (s : list string) (x : string) : Js.has s x = true <-> In x s.
Proof.
  unfold Js.has. rewrite existsb_exists. split.
  - intros [y [Hy E]]. apply String.eqb_eq in E. now subst.
  - intro H. exists x. split; [exact H | apply String.eqb_refl].
Qed.

Lemma has_not_In (s : list string) (x : string) :
  Js.has s x = false <-> ~ In x s.
Proof.
  rewrite <- has_In. destruct (Js.has s x); split; congruence.
Qed.

Section MapFacts.
Context {V : Type}.

Lemma get_set_same (m : Js.JsMap V) (k : string) (v : V) :
  Js.get (Js.set m k v) k = Some v.
Proof.
  induction m as [|[k' v'] m IH]; simpl.
  - now rewrite String.eqb_refl.
  - destruct (String.eqb k' k) eqn:E; simpl; rewrite E; [reflexivity|exact IH].
Qed.

Lemma get_set_other (m : Js.JsMap V) (k k0 : string) (v : V) :
  k <> k0 -> Js.get (Js.set m k v) k0 = Js.get m k0.
Proof.
  intro Hne. induction m as [|[k' v'] m IH]; simpl.
  - destruct (String.eqb k k0) eqn:E; [|reflexivity].
    apply String.eqb_eq in E. contradiction.
  - destruct (String.eqb k' k) eqn:E; simpl.
    + apply String.eqb_eq in E. subst k'.
      destruct (String.eqb k k0) eqn:E0; [|reflexivity].
      apply String.eqb_eq in E0. contradiction.
    + now rewrite IH.
Qed.

Lemma get_In (m : Js.JsMap V) (k : string) (v : V) :
  Js.get m k = Some v -> In (k, v) m.
Proof.
  induction m as [|[k' v'] m IH]; simpl; [discriminate|].
  destruct (String.eqb k' k) eqn:E.
  - apply String.eqb_eq in E. intros [= ->]. left. now subst.
  - intro H. right. now apply IH.
Qed.

Lemma get_None_keys (m : Js.JsMap V) (k : string) :
  Js.get m k = None <-> ~ In k (Js.keys m).
Proof.
  induction m as [|[k' v'] m IH]; simpl.
  - tauto.
  - destruct (String.eqb k' k) eqn:E.
    + apply String.eqb_eq in E. split; [discriminate|]. intro H. tauto.
    + apply String.eqb_neq in E. rewrite IH. tauto.
Qed.

Lemma Forall_set (P : V -> Prop) (m : Js.JsMap V) (k : string) (v : V) :
  Forall (fun kv => P (snd kv)) m -> P v ->
  Forall (fun kv => P (snd kv)) (Js.set m k v).
Proof.
  intros Hm Hv. induction Hm as [|[k' v'] m Hh Ht IH]; simpl.
  - now repeat constructor.
  - destruct (String.eqb k' k); constructor; auto.
Qed.


Lemma Forall_get (P : V -> Prop) (m : Js.JsMap V) (k : string) (v : V) :
  Forall (fun kv => P (snd kv)) m -> Js.get m k = Some v -> P v.
Proof.
  intros Hm Hg. apply get_In in Hg.
  rewrite Forall_forall in Hm. exact (Hm _ Hg).
Qed.

Lemma keys_set (m : Js.JsMap V) (k : string) (v : V) :
  Js.keys (Js.set m k v)
  = if Js.has (Js.keys m) k then Js.keys m else (Js.keys m ++ [k])%list.
Proof.
  unfold Js.keys, Js.has.
  induction m as [|[k' v'] m IH]; simpl; [reflexivity|].
  rewrite (String.eqb_sym k k').
  destruct (String.eqb k' k) eqn:E; simpl; [reflexivity|].
  rewrite IH. now destruct (existsb (String.eqb k) (map fst m)).
Qed.
End MapFacts.


Lemma readOr_plain (table : Js.JsMap R) (name : string) (d : R) :
  Js.get table name = None -> ~ In name Js.prototypeNames ->
  Js.readOr table name d = Js.Number d.
Proof.
  unfold Js.readOr. intros -> H. apply has_not_In in H. now rewrite H.
Qed.


(* ================================================================== *)
(** * Channel multipliers *)
(* ================================================================== *)

Section ConfigFacts.
Import GuildFeatureConfigService.



Lemma sanitizeWeight_in_range (r : R) :
  0 <= r <= 5 -> sanitizeWeight (Js.Finite r) = r.
Proof.
  intros [H0 H5]. unfold sanitizeWeight, Js.Math_max, Js.Math_min. simpl.
  rewrite Rmin_right by lra. now rewrite Rmax_right by lra.
Qed.













End ConfigFacts.



(* ================================================================== *)
(** * Thread scores *)
(* ================================================================== *)

Section ScoringFacts.
Import ThreadScoringService.

Lemma computeTopicHitScore_sum (f : ThreadFeature) :
  computeTopicHitScore f
  = sumR (map (fun hit =>
                 (keywordHits hit * 2 + bigramHits hit * 4) * boost hit)
              (topicHits f)).
Proof.
  unfold computeTopicHitScore. cbv zeta.
  rewrite (fold_left_plus
             (fun hit => (keywordHits hit * 2 + bigramHits hit * 4)
                         * boost hit)).
  lra.
Qed.

Lemma scoreFeature_formula (st : GuildFeatureConfigService.State) (now : R)
      (guild : string) (f : ThreadFeature) :
  scoreFormula st now guild (scoreFeature st now guild f).
Proof.
  unfold scoreFormula, scoreFeature. cbv zeta. simpl.
  rewrite computeTopicHitScore_sum. unfold Js.Math_max.
  repeat split; try reflexivity.
  f_equal. f_equal. field.
Qed.

End ScoringFacts.

(** C1. Every [ThreadScore] returned by [scoreThreads] carries in its
    breakdown the seven terms of the formula (participants
    1.2 x uniqueParticipants, messageCount ln(1 + messageCount), reactions
    0.8 x reactionWeighted, topicHits 1.3 x the sum over the topic hits of
    (keywordHits x 2 + bigramHits x 4) x boost, links 1.1 x (2 if hasLinks
    else 0), decisions 1.4 x decisionVerbHits x 3, timeDecay
    max(0, hoursSinceLastMessage / 72)), and its score is the sum of the
    first six minus timeDecay, times the channel multiplier of the
    feature's channel. *)
Theorem scoreThreads_formula (st : GuildFeatureConfigService.State)
        (now : R) (guild : string) (features : list ThreadFeature) :
  Forall (scoreFormula st now guild)
         (ThreadScoringService.scoreThreads st now guild features).
Proof.
  unfold ThreadScoringService.scoreThreads.
  apply sort_Forall. apply Forall_forall.
  intros ts Hin. apply in_map_iff in Hin. destruct Hin as [f [<- _]].
  apply scoreFeature_formula.
Qed.

(** C7. When no score is [NaN], the list returned by [scoreThreads]
    holds the scores of the input features (a permutation of them), in
    descending order of score, and entries of equal score keep the order
    of their features in the input.  (A score is [NaN] when the reaction
    weight of the feature or the multiplier of its channel is not a
    number; the comparator of the sort then returns [NaN] and the order
    is left to the implementation.) *)
Theorem scoreThreads_sorted_stable (st : GuildFeatureConfigService.State)
        (now : R) (guild : string) (features : list ThreadFeature) :
  let scored :=
    map (ThreadScoringService.scoreFeature st now guild) features in
  let out := ThreadScoringService.scoreThreads st now guild features in
  Forall (fun t => Js.isNumber (score t) = true) scored ->
  StronglySorted (fun a b => Js.numLe (score b) (score a)) out
  /\ Permutation out scored
  /\ forall v : R,
      map feature (filter (fun t => Js.numEqb (score t) (Js.Number v)) out)
      = filter (fun f =>
                  Js.numEqb (score (ThreadScoringService.scoreFeature
                                      st now guild f)) (Js.Number v))
               features.
Proof.
  cbv zeta. unfold ThreadScoringService.scoreThreads. intro Hnum.
  split; [now apply sortDescByNumeric_sorted|].
  split; [apply sortDescByNumeric_perm|].
  intro v. rewrite sortDescByNumeric_stable. clear Hnum.
  induction features as [|f fs IH]; [reflexivity|].
  cbn [map filter].
  destruct (Js.numEqb
              (score (ThreadScoringService.scoreFeature st now guild f))
              (Js.Number v)); cbn [map]; rewrite IH; reflexivity.
Qed.

Lemma scoreThreads_sorted_stable_witness :
  let features := [Sample.lively; Sample.feature0 ["solar"] [];
                   Sample.feature0 [] []] in
  let scored :=
    map (ThreadScoringService.scoreFeature
           GuildFeatureConfigService.emptyState 0 "g1") features in
  let out :=
    ThreadScoringService.scoreThreads
      GuildFeatureConfigService.emptyState 0 "g1" features in
  StronglySorted (fun a b => Js.numLe (score b) (score a)) out
  /\ Permutation out scored
  /\ forall v : R,
      map feature (filter (fun t => Js.numEqb (score t) (Js.Number v)) out)
      = filter (fun f =>
                  Js.numEqb (score (ThreadScoringService.scoreFeature
                                      GuildFeatureConfigService.emptyState
                                      0 "g1" f)) (Js.Number v))
               features.
Proof.
  apply (scoreThreads_sorted_stable GuildFeatureConfigService.emptyState 0
           "g1" [Sample.lively; Sample.feature0 ["solar"] [];
                 Sample.feature0 [] []]).
  repeat constructor.
Defined.

(* ================================================================== *)
(** * Theme clusters: the partition *)
(* ================================================================== *)

Section ClusterFacts.
Import ThemeClusterService.

Lemma hasIndex_In (s : list nat) (i : nat) :
  Js.hasIndex s i = true <-> In i s.
Proof.
  unfold Js.hasIndex. rewrite existsb_exists. split.
  - intros [x [Hx E]]. apply Nat.eqb_eq in E. now subst.
  - intro H. exists i. split; [exact H | apply Nat.eqb_refl].
Qed.

Lemma hasIndex_not_In (s : list nat) (i : nat) :
  Js.hasIndex s i = false <-> ~ In i s.
Proof.
  rewrite <- hasIndex_In. destruct (Js.hasIndex s i); split; congruence.
Qed.

Lemma NoDup_snoc (s : list nat) (i : nat) :
  NoDup s -> ~ In i s -> NoDup (s ++ [i]).
Proof.
  intros Hs Hi. apply NoDup_app; [exact Hs | repeat constructor; auto |].
  intros x Hx [<- | []]. contradiction.
Qed.

(** The inner loop only appends unvisited indices of [js], to both lists. *)
Lemma absorb_spec (seed : Js.JsMap R) (vectors : list (Js.JsMap R))
      (js members visited : list nat) :
  NoDup visited ->
  exists extra,
    absorb seed vectors js members visited
    = ((members ++ extra)%list, (visited ++ extra)%list)
    /\ incl extra js /\ NoDup (visited ++ extra).
Proof.
  revert members visited.
  induction js as [|j js IH]; intros members visited Hnd; simpl.
  - exists []. rewrite !app_nil_r. repeat split; auto. intros x [].
  - destruct (Js.hasIndex visited j) eqn:Hv.
    + destruct (IH members visited Hnd) as (extra & E & Hin & Hn).
      exists extra. repeat split; auto. now apply incl_tl.
    + destruct (Js.Rleb threshold
                  (cosineSimilarity seed (nth j vectors []))).
      * apply hasIndex_not_In in Hv.
        destruct (IH (members ++ [j])%list (visited ++ [j])%list
                     (NoDup_snoc _ _ Hnd Hv)) as (extra & E & Hin & Hn).
        exists (j :: extra). rewrite E.
        rewrite <- !app_assoc. simpl. repeat split.
        -- intros x [<- | Hx]; [now left | right; now apply Hin].
        -- now rewrite <- app_assoc in Hn.
      * destruct (IH members visited Hnd) as (extra & E & Hin & Hn).
        exists extra. repeat split; auto. now apply incl_tl.
Qed.

Lemma clusterLoop_spec (n : nat) (vectors : list (Js.JsMap R))
      (todo : list nat) :
  forall (found : list (nat * list nat)) (visited : list nat),
    NoDup visited ->
    Permutation (List.concat (map snd found)) visited ->
    (forall i, In i visited -> (i < n)%nat) ->
    (forall i, In i todo -> (i < n)%nat) ->
    exists V,
      Permutation
        (List.concat (map snd (clusterLoop n vectors todo found visited))) V
      /\ NoDup V /\ incl visited V /\ incl todo V
      /\ (forall i, In i V -> (i < n)%nat).
Proof.
  induction todo as [|i todo IH]; intros found visited Hnd Hperm Hv Ht; simpl.
  - exists visited. repeat split; auto using incl_refl. intros x [].
  - destruct (Js.hasIndex visited i) eqn:Hi.
    + destruct (IH found visited Hnd Hperm Hv) as (V & HP & HN & HI & HT & HB).
      { intros j Hj. apply Ht. now right. }
      exists V. repeat split; auto.
      intros x [<- | Hx]; [apply HI; now apply hasIndex_In | now apply HT].
    + apply hasIndex_not_In in Hi.
      destruct (absorb_spec (nth i vectors []) vectors
                            (seq (i + 1) (n - (i + 1))) [i]
                            (visited ++ [i])%list (NoDup_snoc _ _ Hnd Hi))
        as (extra & E & Hin & Hn).
      rewrite E.
      destruct (IH (found ++ [(i, ([i] ++ extra)%list)])%list
                   ((visited ++ [i]) ++ extra)%list Hn)
        as (V & HP & HN & HI & HT & HB).
      * rewrite map_app, concat_app. simpl. rewrite app_nil_r.
        rewrite <- app_assoc. now apply Permutation_app_tail.
      * intros j Hj. apply in_app_or in Hj. destruct Hj as [Hj | Hj].
        -- apply in_app_or in Hj. destruct Hj as [Hj | [<- | []]].
           ++ now apply Hv.
           ++ apply Ht. now left.
        -- apply Hin in Hj. apply in_seq in Hj. lia.
      * intros j Hj. apply Ht. now right.
      * exists V. repeat split; auto.
        -- intros x Hx. apply HI. apply in_or_app. left.
           apply in_or_app. now left.
        -- intros x [<- | Hx]; [|now apply HT].
           apply HI. apply in_or_app. left. apply in_or_app. right. now left.
Qed.

Lemma clusterIndices_partition (scores : list ThreadScore) :
  Permutation (List.concat (map snd (clusterIndices scores)))
              (seq 0 (List.length scores)).
Proof.
  unfold clusterIndices.
  destruct (clusterLoop_spec (List.length scores) (map buildVector scores)
                             (seq 0 (List.length scores)) [] [])
    as (V & HP & HN & _ & HT & HB).
  - constructor.
  - reflexivity.
  - intros i [].
  - intros i Hi. apply in_seq in Hi. lia.
  - rewrite HP. apply NoDup_Permutation; [exact HN | apply seq_NoDup|].
    intro x. split.
    + intro Hx. apply in_seq. specialize (HB x Hx). lia.
    + apply HT.
Qed.

Lemma pick_app (scores : list ThreadScore) (l1 l2 : list nat) :
  pick scores (l1 ++ l2) = (pick scores l1 ++ pick scores l2)%list.
Proof. unfold pick. apply flat_map_app. Qed.

Lemma pick_seq (pre l : list ThreadScore) :
  pick (pre ++ l) (seq (List.length pre) (List.length l)) = l.
Proof.
  revert pre. induction l as [|x l IH]; intro pre; simpl; [reflexivity|].
  rewrite nth_error_app2 by lia. rewrite Nat.sub_diag. simpl. f_equal.
  specialize (IH (pre ++ [x])%list).
  rewrite <- app_assoc in IH. simpl in IH.
  rewrite length_app in IH. simpl in IH.
  now rewrite Nat.add_1_r in IH.
Qed.

Lemma pick_membersAt (scores : list ThreadScore) (idx : list nat) :
  (forall i, In i idx -> (i < List.length scores)%nat) ->
  membersAt scores idx (pick scores idx).
Proof.
  unfold membersAt. induction idx as [|i idx IH]; intro H; simpl.
  - constructor.
  - destruct (nth_error scores i) as [s|] eqn:E.
    + simpl. constructor; [exact E|]. apply IH. intros j Hj. apply H. now right.
    + apply nth_error_None in E. specialize (H i (or_introl eq_refl)). lia.
Qed.

Lemma pick_concat (scores : list ThreadScore) (parts : list (list nat)) :
  flat_map (pick scores) parts = pick scores (List.concat parts).
Proof.
  induction parts as [|p parts IH]; simpl; [reflexivity|].
  now rewrite pick_app, IH.
Qed.

Lemma analyze_clusters (scores : list ThreadScore) :
  clusters (analyze scores)
  = map (makeCluster scores (map buildVector scores)) (clusterIndices scores).
Proof. destruct scores; reflexivity. Qed.

End ClusterFacts.

(** C2. The clusters of [analyze] partition the input: there are index
    lists, one per cluster and in the order of the clusters, whose
    concatenation is a permutation of the positions [0 .. n-1] of the
    input (every position in exactly one cluster, exactly once), each
    cluster's members being the input elements at its positions; and the
    members of all clusters together are a permutation of the input. *)
Theorem analyze_partition (scores : list ThreadScore) :
  exists parts : list (list nat),
    Permutation (List.concat parts) (seq 0 (List.length scores))
    /\ Forall2 (fun c part =>
                  membersAt scores part (ThemeClusterService.members c))
               (ThemeClusterService.clusters
                  (ThemeClusterService.analyze scores))
               parts
    /\ Permutation
         (flat_map ThemeClusterService.members
                   (ThemeClusterService.clusters
                      (ThemeClusterService.analyze scores)))
         scores.
Proof.
  exists (map snd (ThemeClusterService.clusterIndices scores)).
  pose proof (clusterIndices_partition scores) as HP.
  rewrite analyze_clusters.
  split; [exact HP|]. split.
  - assert (Hlt : forall part,
               In part (map snd (ThemeClusterService.clusterIndices scores)) ->
               forall i, In i part -> (i < List.length scores)%nat).
    { intros part Hpart i Hi.
      assert (Hc : In i (List.concat (map snd (ThemeClusterService.clusterIndices
                                            scores)))).
      { apply in_concat. exists part. now split. }
      eapply Permutation_in in Hc; [|exact HP]. apply in_seq in Hc. lia. }
    revert Hlt.
    generalize (ThemeClusterService.clusterIndices scores) as cs.
    induction cs as [|c cs IH]; intro Hlt; simpl; constructor.
    + simpl. apply pick_membersAt. apply Hlt. now left.
    + apply IH. intros part Hpart. apply Hlt. now right.
  - rewrite flat_map_concat_map, map_map. simpl.
    rewrite <- (map_map snd (ThemeClusterService.pick scores)).
    rewrite <- flat_map_concat_map, pick_concat.
    transitivity (ThemeClusterService.pick scores
                    (seq 0 (List.length scores))).
    + unfold ThemeClusterService.pick. now apply Permutation_flat_map.
    + pose proof (pick_seq [] scores) as H. simpl in H. now rewrite H.
Qed.

(* ================================================================== *)
(** * Cosine similarity *)
(* ================================================================== *)

Section SetFacts.

Lemma add_In (s : list string) (x y : string) :
  In y (Js.add s x) <-> In y s \/ y = x.
Proof.
  unfold Js.add. destruct (Js.has s x) eqn:E.
  - apply has_In in E. split; [tauto|]. intros [H | ->]; assumption.
  - rewrite in_app_iff. simpl. intuition congruence.
Qed.

Lemma add_NoDup (s : list string) (x : string) :
  NoDup s -> NoDup (Js.add s x).
Proof.
  intro H. unfold Js.add. destruct (Js.has s x) eqn:E; [exact H|].
  apply has_not_In in E.
  apply NoDup_app; [exact H | repeat constructor; auto |].
  intros z Hz [<- | []]. contradiction.
Qed.

Lemma fold_add_In (l acc : list string) (y : string) :
  In y (fold_left Js.add l acc) <-> In y acc \/ In y l.
Proof.
  revert acc. induction l as [|x l IH]; intro acc; simpl; [tauto|].
  rewrite IH, add_In. intuition congruence.
Qed.

Lemma fold_add_NoDup (l acc : list string) :
  NoDup acc -> NoDup (fold_left Js.add l acc).
Proof.
  revert acc. induction l as [|x l IH]; intros acc H; simpl; [exact H|].
  apply IH. now apply add_NoDup.
Qed.

Lemma newSet_In (l : list string) (y : string) :
  In y (Js.newSet l) <-> In y l.
Proof. unfold Js.newSet. rewrite fold_add_In. simpl. tauto. Qed.

Lemma newSet_NoDup (l : list string) : NoDup (Js.newSet l).
Proof. apply fold_add_NoDup. constructor. Qed.


End SetFacts.

Lemma sumR_perm (l l' : list R) : Permutation l l' -> sumR l = sumR l'.
Proof.
  induction 1; unfold sumR in *; simpl; lra.
Qed.

Lemma sumR_nonneg (l : list R) : Forall (fun v => 0 <= v) l -> 0 <= sumR l.
Proof.
  induction 1; unfold sumR in *; simpl; lra.
Qed.



Section CosineFacts.
Import ThemeClusterService.

Lemma accumulate_from (a b : Js.JsMap R) (shared : list string)
      (d na nb : R) :
  fold_left (fun '(dot, normA, normB) token =>
               let valueA := Js.getOr a token 0 in
               let valueB := Js.getOr b token 0 in
               (dot + valueA * valueB,
                normA + valueA * valueA,
                normB + valueB * valueB))
            shared (d, na, nb)
  = (d + sumR (map (fun t => Js.getOr a t 0 * Js.getOr b t 0) shared),
     na + sumR (map (fun t => Js.getOr a t 0 * Js.getOr a t 0) shared),
     nb + sumR (map (fun t => Js.getOr b t 0 * Js.getOr b t 0) shared)).
Proof.
  revert d na nb. induction shared as [|t l IH]; intros d na nb; simpl.
  - f_equal; [f_equal|]; unfold sumR; simpl; lra.
  - rewrite IH. unfold sumR. simpl. f_equal; [f_equal|]; lra.
Qed.

Lemma accumulate_sums (a b : Js.JsMap R) (shared : list string) :
  accumulate a b shared
  = (sumR (map (fun t => Js.getOr a t 0 * Js.getOr b t 0) shared),
     sumR (map (fun t => Js.getOr a t 0 * Js.getOr a t 0) shared),
     sumR (map (fun t => Js.getOr b t 0 * Js.getOr b t 0) shared)).
Proof.
  unfold accumulate. rewrite accumulate_from. f_equal; [f_equal|]; lra.
Qed.



Lemma getOr_nonneg (a : Js.JsMap R) (t : string) :
  Forall (fun kv => 0 < snd kv) a -> 0 <= Js.getOr a t 0.
Proof.
  intro H. unfold Js.getOr. destruct (Js.get a t) as [v|] eqn:E; [|lra].
  pose proof (Forall_get (fun v => 0 < v) _ _ _ H E). simpl in *. lra.
Qed.







Lemma buildVector_positive (s : ThreadScore) :
  Forall (fun kv => 0 < snd kv) (buildVector s).
Proof.
  unfold buildVector. cbv zeta.
  assert (Hstep : forall (l : list string) (v : Js.JsMap R),
             Forall (fun kv => 0 < snd kv) v ->
             Forall (fun kv => 0 < snd kv)
                    (fold_left (fun vector keyword =>
                                  Js.set vector keyword
                                         (Js.getOr vector keyword 0 + 1))
                               l v)).
  { induction l as [|k l IH]; intros v Hv; simpl; [exact Hv|].
    apply IH. apply (Forall_set (fun w => 0 < w)); [exact Hv|].
    pose proof (getOr_nonneg v k Hv). lra. }
  apply Hstep.
  generalize (@nil (string * R)) (Forall_nil (fun kv : string * R => 0 < snd kv)).
  induction (topicHits (feature s)) as [|hit hits IH]; intros v Hv; simpl;
    [exact Hv|].
  apply IH.
  destruct (Js.Rleb ((keywordHits hit * 2 + bigramHits hit * 4) * boost hit) 0)
    eqn:E; [exact Hv|].
  apply Rleb_false in E.
  apply (Forall_set (fun w => 0 < w)); [exact Hv|].
  pose proof (getOr_nonneg v (slug hit) Hv). lra.
Qed.

End CosineFacts.

(** The norm accumulated for an empty vector is 0, in binary64 too. *)
Section Binary64Facts.
Import ThemeClusterService.Binary64.





End Binary64Facts.




(* ================================================================== *)
(** * Cluster labels *)
(* ================================================================== *)

Section AccumulateFacts.
Context {A : Type} (kf : A -> string) (wf : A -> R).

(** The accumulation loop shared by the label, the vectors and the totals:
    [m.set(k, (m.get(k) ?? 0) + w)] for every item. *)
Lemma accum_keys (l : list A) (m : Js.JsMap R) :
  Js.keys (fold_left (fun m x =>
                        Js.set m (kf x) (Js.getOr m (kf x) 0 + wf x)) l m)
  = fold_left Js.add (map kf l) (Js.keys m).
Proof.
  revert m. induction l as [|x l IH]; intro m; simpl; [reflexivity|].
  rewrite IH. rewrite keys_set. reflexivity.
Qed.

Lemma accum_getOr (l : list A) (m : Js.JsMap R) (t : string) :
  Js.getOr (fold_left (fun m x =>
                         Js.set m (kf x) (Js.getOr m (kf x) 0 + wf x)) l m)
           t 0
  = Js.getOr m t 0
    + sumR (map wf (filter (fun x => String.eqb (kf x) t) l)).
Proof.
  revert m. induction l as [|x l IH]; intro m; cbn [fold_left filter map].
  - unfold sumR. simpl. lra.
  - rewrite IH.
    assert (Hstep : Js.getOr (Js.set m (kf x) (Js.getOr m (kf x) 0 + wf x))
                             t 0
                    = Js.getOr m t 0
                      + (if String.eqb (kf x) t then wf x else 0)).
    { unfold Js.getOr.
      destruct (String.eqb (kf x) t) eqn:E.
      - apply String.eqb_eq in E. subst t. now rewrite get_set_same.
      - apply String.eqb_neq in E. rewrite get_set_other by exact E.
        destruct (Js.get m t); lra. }
    rewrite Hstep.
    destruct (String.eqb (kf x) t); unfold sumR; simpl; lra.
Qed.

End AccumulateFacts.

Lemma NoDup_keys_get {V} (m : Js.JsMap V) (k : string) (v : V) :
  NoDup (Js.keys m) -> In (k, v) m -> Js.get m k = Some v.
Proof.
  induction m as [|[k' v'] m IH]; simpl; intros Hnd Hin; [contradiction|].
  inversion Hnd as [|? ? Hk Hnd']; subst.
  destruct Hin as [[= -> ->] | Hin].
  - now rewrite String.eqb_refl.
  - destruct (String.eqb k' k) eqn:E.
    + apply String.eqb_eq in E. subst k'. exfalso. apply Hk.
      unfold Js.keys. apply in_map_iff. now exists (k, v).
    + now apply IH.
Qed.

Section LabelFacts.
Import ThemeClusterService.

Lemma fold_left_flat_map {A B C} (f : C -> B -> C) (g : A -> list B)
      (l : list A) (acc : C) :
  fold_left (fun acc x => fold_left f (g x) acc) l acc
  = fold_left f (flat_map g l) acc.
Proof.
  revert acc. induction l as [|x l IH]; intro acc; simpl; [reflexivity|].
  now rewrite fold_left_app, IH.
Qed.

Lemma labelTokens_flat (ms : list ThreadScore) :
  labelTokens ms
  = fold_left (fun m hit =>
                 Js.set m (slug hit)
                        (Js.getOr m (slug hit) 0
                         + (keywordHits hit + bigramHits hit * 2)))
              (memberHits ms) [].
Proof.
  unfold labelTokens, memberHits. cbv zeta.
  apply (fold_left_flat_map
           (fun m hit => Js.set m (slug hit)
                                (Js.getOr m (slug hit) 0
                                 + (keywordHits hit + bigramHits hit * 2)))
           (fun s => topicHits (feature s))).
Qed.

Lemma labelTokens_keys (ms : list ThreadScore) :
  Js.keys (labelTokens ms) = labelSlugs ms.
Proof.
  rewrite labelTokens_flat.
  rewrite (accum_keys slug (fun hit => keywordHits hit + bigramHits hit * 2)).
  reflexivity.
Qed.

Lemma labelTokens_weight (ms : list ThreadScore) (t : string) (v : R) :
  In (t, v) (labelTokens ms) -> v = labelWeight ms t.
Proof.
  intro Hin.
  assert (Hnd : NoDup (Js.keys (labelTokens ms))).
  { rewrite labelTokens_keys. apply newSet_NoDup. }
  pose proof (NoDup_keys_get _ _ _ Hnd Hin) as Hg.
  assert (Hor : Js.getOr (labelTokens ms) t 0 = v).
  { unfold Js.getOr. now rewrite Hg. }
  rewrite labelTokens_flat in Hor.
  rewrite (accum_getOr slug (fun hit => keywordHits hit + bigramHits hit * 2))
    in Hor.
  unfold labelWeight. unfold Js.getOr in Hor. simpl in Hor. lra.
Qed.

Lemma buildLabel_ranking (ms : list ThreadScore) :
  buildLabel ms = labelOf (map fst (Js.sortDescBy snd (labelTokens ms))).
Proof.
  unfold buildLabel, labelOf. destruct ms as [|s ms]; [reflexivity|].
  cbv zeta. destruct (Js.sortDescBy snd (labelTokens (s :: ms)))
    as [|a [|b rest]]; reflexivity.
Qed.

Lemma buildLabel_spec (ms : list ThreadScore) : labelSpec ms (buildLabel ms).
Proof.
  rewrite buildLabel_ranking. unfold labelSpec.
  pose proof (sortDescBy_perm snd (labelTokens ms)) as HP.
  pose proof (sortDescBy_sorted snd (labelTokens ms)) as HS.
  assert (Hkeys : Permutation (map fst (Js.sortDescBy snd (labelTokens ms)))
                              (labelSlugs ms)).
  { rewrite <- labelTokens_keys. unfold Js.keys. now apply Permutation_map. }
  assert (Hw : forall t v, In (t, v) (Js.sortDescBy snd (labelTokens ms)) ->
                           v = labelWeight ms t).
  { intros t v Hin. apply labelTokens_weight.
    eapply Permutation_in; [exact HP | exact Hin]. }
  destruct (Js.sortDescBy snd (labelTokens ms)) as [|[t1 v1] [|[t2 v2] rest]].
  - left. simpl in *. split; [|reflexivity].
    now apply Permutation_nil in Hkeys.
  - right; left. exists t1. simpl in *. split; [|reflexivity].
    now apply Permutation_length_1_inv in Hkeys.
  - right; right. exists t1, t2. simpl.
    assert (Hnd : NoDup (t1 :: t2 :: map fst rest)).
    { eapply Permutation_NoDup; [symmetry; exact Hkeys | apply newSet_NoDup]. }
    pose proof (Hw t1 v1 (or_introl eq_refl)) as E1.
    pose proof (Hw t2 v2 (or_intror (or_introl eq_refl))) as E2.
    apply StronglySorted_inv in HS. destruct HS as [HS' Hall1].
    apply StronglySorted_inv in HS'. destruct HS' as [_ Hall2].
    apply Forall_inv in Hall1. simpl in Hall1.
    split; [reflexivity|]. split; [|split; [|split; [|split]]].
    + eapply Permutation_in; [exact Hkeys | now left].
    + eapply Permutation_in; [exact Hkeys | right; now left].
    + inversion Hnd as [|? ? Hn _]; subst. intro E. apply Hn. now left.
    + rewrite <- E1, <- E2. exact Hall1.
    + intros t Ht Hne.
      eapply Permutation_in in Ht; [|symmetry; exact Hkeys].
      simpl in Ht.
      destruct Ht as [E | [E | Ht]]; [congruence | subst t; lra |].
      apply in_map_iff in Ht. destruct Ht as [[t' v] [Et Hin]].
      simpl in Et. subst t'.
      rewrite Forall_forall in Hall2. specialize (Hall2 _ Hin). simpl in Hall2.
      rewrite <- (Hw t v) by (right; right; exact Hin).
      rewrite <- E2. exact Hall2.
Qed.

End LabelFacts.

(** C8 (as amended). The label of every cluster is made of the topic slugs
    of its members' topic hits, a slug weighing the sum of
    [keywordHits + 2 x bigramHits] over the members' hits for it (no boost,
    and the matched keywords, which do enter the vectors and [topTokens],
    are not counted): it is the two highest-weighted slugs joined by the
    separator, the single slug when there is only one, and "general" when
    no member has a topic hit. *)
Theorem analyze_label (scores : list ThreadScore) :
  Forall (fun c => labelSpec (ThemeClusterService.members c)
                             (ThemeClusterService.label c))
         (ThemeClusterService.clusters (ThemeClusterService.analyze scores)).
Proof.
  rewrite analyze_clusters. apply Forall_forall. intros c Hc.
  apply in_map_iff in Hc. destruct Hc as [ix [<- _]]. simpl.
  apply buildLabel_spec.
Qed.

(** C8 as stated fails: a cluster whose only member matched the keyword
    [solar] and no topic has the top token [solar], yet its label is
    "general", not that token. *)
Lemma label_differs_from_top_tokens :
  ~ (forall scores : list ThreadScore,
        Forall (fun c => ThemeClusterService.label c
                         = labelOf (ThemeClusterService.topTokens c))
               (ThemeClusterService.clusters
                  (ThemeClusterService.analyze scores))).
Proof.
  intro H. specialize (H [Sample.solar]).
  apply Forall_inv in H. simpl in H. discriminate H.
Qed.

(* ================================================================== *)
(** * Summarizer: determinism *)
(* ================================================================== *)

Section SummarizerState.
Import Summarizer.

(** [DECISION_REGEX] is not global: [test] neither reads nor writes its
    [lastIndex]. *)
Lemma DECISION_REGEX_test_stateless (lastIndex : nat) (s : string) :
  DECISION_REGEX_test lastIndex s
  = (fst (DECISION_REGEX_test 0%nat s), lastIndex).
Proof. reflexivity. Qed.

Lemma computeSentenceScore_stateless (lastIndex : nat) (doc : SentenceDoc)
      (docFreq : Js.JsMap nat) (totalDocs : nat) (topicTokens : list string)
      (index total : nat) :
  computeSentenceScore lastIndex doc docFreq totalDocs topicTokens index total
  = (fst (computeSentenceScore 0%nat doc docFreq totalDocs topicTokens index
                               total),
     lastIndex).
Proof.
  unfold computeSentenceScore.
  rewrite (DECISION_REGEX_test_stateless lastIndex).
  rewrite (DECISION_REGEX_test_stateless 0%nat).
  reflexivity.
Qed.

Lemma scoreSentences_stateless (docs : list SentenceDoc) :
  forall (lastIndex : nat) (docFreq : Js.JsMap nat) (totalDocs : nat)
         (topicTokens : list string) (index : nat),
    scoreSentences lastIndex docFreq totalDocs topicTokens index docs
    = (fst (scoreSentences 0%nat docFreq totalDocs topicTokens index docs),
       lastIndex).
Proof.
  induction docs as [|doc docs IH]; intros; cbn [scoreSentences];
    [reflexivity|].
  rewrite (computeSentenceScore_stateless lastIndex).
  rewrite (computeSentenceScore_stateless 0%nat).
  rewrite (IH lastIndex), (IH 0%nat). reflexivity.
Qed.

Lemma scoreSentences_length (docs : list SentenceDoc) :
  forall (lastIndex : nat) (docFreq : Js.JsMap nat) (totalDocs : nat)
         (topicTokens : list string) (index : nat),
    List.length
      (fst (scoreSentences lastIndex docFreq totalDocs topicTokens index docs))
    = List.length docs.
Proof.
  induction docs as [|doc docs IH]; intros; cbn [scoreSentences];
    [reflexivity|].
  destruct (computeSentenceScore lastIndex doc docFreq totalDocs topicTokens
                                 index totalDocs) as [s l1].
  specialize (IH l1 docFreq totalDocs topicTokens (S index)).
  destruct (scoreSentences l1 docFreq totalDocs topicTokens (S index) docs).
  simpl in *. now rewrite IH.
Qed.

Lemma run_stateless (topics : Js.JsMap Topic) (lastIndex : nat)
      (messages : list MessageForSummary) (topic : string) :
  run topics lastIndex messages topic
  = (fst (run topics 0%nat messages topic), lastIndex).
Proof.
  unfold run. destruct messages as [|m ms]; [reflexivity|].
  destruct (buildSentenceDocs (m :: ms)) as [|d ds]; [reflexivity|].
  cbv zeta.
  rewrite (scoreSentences_stateless (d :: ds) lastIndex).
  rewrite (scoreSentences_stateless (d :: ds) 0%nat).
  destruct (selectByMMR _ _ 4); reflexivity.
Qed.

End SummarizerState.

(** C3. [summarize] is deterministic: its result is a function of the
    taxonomy, the message list and the topic label alone.  Whatever the
    state of the module-level [DECISION_REGEX] object the two runs start
    in, they return the same summary and the same [selectedIds]; and a run
    leaves that state as it found it. *)
Theorem summarize_deterministic (topics : Js.JsMap Topic)
        (messages : list MessageForSummary) (topic : string)
        (lastIndex1 lastIndex2 : nat) :
  let r1 := Summarizer.summarize topics lastIndex1 messages topic in
  let r2 := Summarizer.summarize topics lastIndex2 messages topic in
  Summarizer.summary r1 = Summarizer.summary r2
  /\ Summarizer.selectedIds r1 = Summarizer.selectedIds r2
  /\ snd (Summarizer.run topics lastIndex1 messages topic) = lastIndex1.
Proof.
  cbv zeta. unfold Summarizer.summarize.
  rewrite (run_stateless topics lastIndex1), (run_stateless topics lastIndex2).
  simpl. repeat split.
Qed.

(* ================================================================== *)
(** * Summarizer: selection *)
(* ================================================================== *)

Section IndexFacts.

Lemma sortIndices_perm (l : list nat) : Permutation (Js.sortIndices l) l.
Proof. apply sort_perm. Qed.

Lemma sortIndices_sorted (l : list nat) :
  StronglySorted le (Js.sortIndices l).
Proof.
  apply sort_sorted.
  - intros x y z. apply Nat.le_trans.
  - intros x y H. apply Nat.ltb_ge in H. exact H.
  - intros x y H. apply Nat.ltb_lt in H. lia.
Qed.

Lemma sorted_le_NoDup_lt (l : list nat) :
  StronglySorted le l -> NoDup l -> StronglySorted lt l.
Proof.
  induction 1 as [|x l Hs IH Hall]; intro Hnd; constructor.
  - apply IH. now inversion Hnd.
  - inversion Hnd as [|? ? Hx _]; subst.
    apply Forall_forall. intros y Hy.
    rewrite Forall_forall in Hall. specialize (Hall y Hy).
    assert (x <> y) by (intro; subst; contradiction). lia.
Qed.

Lemma sorted_perm_unique (l l' : list nat) :
  StronglySorted le l -> StronglySorted le l' -> Permutation l l' -> l = l'.
Proof.
  intros Hl. revert l'.
  induction Hl as [|x l Hs IH Hall]; intros l' Hl' HP.
  - apply Permutation_nil in HP. now subst.
  - destruct l' as [|y l'].
    + symmetry in HP. now apply Permutation_nil in HP.
    + assert (x = y).
      { apply StronglySorted_inv in Hl'. destruct Hl' as [_ Hall'].
        rewrite Forall_forall in Hall, Hall'.
        assert (Hy : In y (x :: l))
          by (eapply Permutation_in; [symmetry; exact HP | now left]).
        assert (Hx : In x (y :: l'))
          by (eapply Permutation_in; [exact HP | now left]).
        destruct Hy as [E | Hy]; [exact E|].
        destruct Hx as [E | Hx]; [now symmetry|].
        specialize (Hall y Hy). specialize (Hall' x Hx). lia. }
      subst y. f_equal. apply IH.
      * now apply StronglySorted_inv in Hl'.
      * now apply Permutation_cons_inv in HP.
Qed.

Lemma seq_sorted (start n : nat) : StronglySorted le (seq start n).
Proof.
  revert start. induction n as [|n IH]; intro start; simpl; constructor.
  - apply IH.
  - apply Forall_forall. intros y Hy. apply in_seq in Hy. lia.
Qed.

Lemma fst_combine_seq {B} (l : list B) (start : nat) :
  map fst (combine (seq start (List.length l)) l) = seq start (List.length l).
Proof.
  revert start. induction l as [|x l IH]; intro start; simpl; [reflexivity|].
  now rewrite IH.
Qed.

End IndexFacts.

Section SelectionFacts.
Import Summarizer.

Lemma pickBest_In (docs : list SentenceDoc) (scores : list R)
      (selected candidates : list nat) (first : nat) :
  In (pickBest docs scores selected candidates first) (first :: candidates).
Proof.
  unfold pickBest.
  assert (Hgen : forall (cs : list nat) (acc : nat * option R) (L : list nat),
             In (fst acc) L -> incl cs L ->
             In (fst (fold_left
                        (fun '(bestIndex, bestScore) candidate =>
                           let relevance := nth candidate scores 0 in
                           let redundancy :=
                             maxSimilarity
                               (nth candidate docs undefinedDoc)
                               (map (fun idx => nth idx docs undefinedDoc)
                                    selected) in
                           let mmr := lambda * relevance
                                      - (1 - lambda) * redundancy in
                           let better := match bestScore with
                                         | None => true
                                         | Some b => Js.Rltb b mmr
                                         end in
                           if better then (candidate, Some mmr)
                           else (bestIndex, bestScore))
                        cs acc)) L).
  { induction cs as [|c cs IH]; intros [b bs] L Hb Hcs; simpl; [exact Hb|].
    apply IH.
    - destruct (match bs with None => true | Some b0 => Js.Rltb b0 _ end);
        simpl; [apply Hcs; now left | exact Hb].
    - intros x Hx. apply Hcs. now right. }
  apply Hgen; [now left | now apply incl_tl, incl_refl].
Qed.

Lemma removeFirst_perm (x : nat) (l : list nat) :
  In x l -> Permutation l (x :: removeFirst x l).
Proof.
  induction l as [|y l IH]; simpl; intro H; [contradiction|].
  destruct (Nat.eqb y x) eqn:E.
  - apply Nat.eqb_eq in E. now subst.
  - apply Nat.eqb_neq in E. destruct H as [H | H]; [contradiction|].
    rewrite (IH H) at 1. apply perm_swap.
Qed.

(** The loop moves [min room (length candidates)] candidates, one per
    round, to the end of [selected]. *)
Lemma mmrLoop_spec (docs : list SentenceDoc) (scores : list R) (room : nat) :
  forall candidates selected,
  exists picked rest,
    mmrLoop docs scores room candidates selected = (selected ++ picked)%list
    /\ Permutation candidates (picked ++ rest)
    /\ List.length picked = Nat.min room (List.length candidates).
Proof.
  induction room as [|room IH]; intros candidates selected.
  - exists [], candidates. simpl. rewrite app_nil_r.
    destruct candidates; repeat split; reflexivity.
  - destruct candidates as [|first cs].
    + exists [], []. simpl. rewrite app_nil_r. repeat split; reflexivity.
    + cbn [mmrLoop].
      set (best := pickBest docs scores selected (first :: cs) first).
      assert (Hbest : In best (first :: cs)).
      { pose proof (pickBest_In docs scores selected (first :: cs) first) as H.
        destruct H as [H | H]; [left; exact H | exact H]. }
      destruct (IH (removeFirst best (first :: cs)) (selected ++ [best])%list)
        as (picked & rest & E & HP & HL).
      exists (best :: picked), rest.
      pose proof (removeFirst_perm best (first :: cs) Hbest) as HR.
      split; [|split].
      * rewrite E. now rewrite <- app_assoc.
      * rewrite HR. simpl. now constructor.
      * simpl. rewrite HL.
        apply Permutation_length in HR. simpl in HR.
        simpl. f_equal. lia.
Qed.

Lemma selectByMMR_spec (docs : list SentenceDoc) (scores : list R)
      (maxItems : nat) :
  let sel := selectByMMR docs scores maxItems in
  StronglySorted lt sel
  /\ (forall i, In i sel -> (i < List.length scores)%nat)
  /\ List.length sel = Nat.min maxItems (List.length scores)
  /\ ((List.length scores <= maxItems)%nat ->
      sel = seq 0 (List.length scores)).
Proof.
  cbv zeta. unfold selectByMMR.
  set (cands := map fst (Js.sortDescBy snd
                           (combine (seq 0 (List.length scores)) scores))).
  assert (Hc : Permutation cands (seq 0 (List.length scores))).
  { unfold cands. rewrite <- (fst_combine_seq scores 0) at 2.
    apply Permutation_map, sortDescBy_perm. }
  destruct (mmrLoop_spec docs scores maxItems cands [])
    as (picked & rest & E & HP & HL).
  rewrite E. simpl.
  assert (Hlen : List.length cands = List.length scores).
  { rewrite (Permutation_length Hc). apply length_seq. }
  assert (Hnd : NoDup (picked ++ rest)).
  { eapply Permutation_NoDup; [exact HP|].
    eapply Permutation_NoDup; [symmetry; exact Hc | apply seq_NoDup]. }
  assert (Hin : forall i, In i picked -> (i < List.length scores)%nat).
  { intros i Hi.
    assert (H : In i (seq 0 (List.length scores))).
    { eapply Permutation_in; [exact Hc|].
      eapply Permutation_in; [symmetry; exact HP|].
      apply in_or_app. now left. }
    apply in_seq in H. lia. }
  pose proof (sortIndices_perm picked) as HS.
  split; [|split; [|split]].
  - apply sorted_le_NoDup_lt; [apply sortIndices_sorted|].
    eapply Permutation_NoDup; [symmetry; exact HS|].
    now apply NoDup_app_remove_r in Hnd.
  - intros i Hi. apply Hin. eapply Permutation_in; [exact HS | exact Hi].
  - rewrite (Permutation_length HS), HL, Hlen. reflexivity.
  - intro Hle. apply sorted_perm_unique;
      [apply sortIndices_sorted | apply seq_sorted |].
    rewrite HS.
    assert (Hrest : rest = []).
    { apply Permutation_length in HP. rewrite length_app in HP.
      rewrite HL, Hlen in HP. rewrite Nat.min_r in HP by exact Hle.
      destruct rest; [reflexivity | simpl in HP; lia]. }
    subst rest. rewrite app_nil_r in HP.
    now rewrite <- HP.
Qed.

(** The loop of [enforceCharacterLimit] keeps a prefix of the selection,
    within the bounds. *)
Lemma enforceLoop_spec (docs : list SentenceDoc) (limit : nat)
      (selected : list nat) :
  forall (chosen : list SentenceDoc) (total : nat),
    total = totalChars chosen ->
    (List.length chosen <= 4)%nat ->
    ((totalChars chosen <= limit)%nat \/ (List.length chosen <= 1)%nat) ->
    let result := enforceLoop docs limit selected chosen total in
    (exists k, result
               = (chosen
                  ++ map (fun i => nth i docs undefinedDoc)
                         (firstn k selected))%list)
    /\ (List.length result <= 4)%nat
    /\ ((totalChars result <= limit)%nat \/ (List.length result <= 1)%nat)
    /\ (chosen = [] -> selected <> [] -> result <> []).
Proof.
  induction selected as [|index rest IH]; intros chosen total Ht Hlen Hb;
    cbv zeta; cbn [enforceLoop].
  - split; [exists 0%nat; simpl; now rewrite app_nil_r|].
    repeat split; auto; try (intros _ H; now contradiction H).
  - destruct (4 <=? List.length chosen)%nat eqn:E4.
    { apply Nat.leb_le in E4.
      split; [exists 0%nat; simpl; now rewrite app_nil_r|].
      repeat split; auto; try (intros -> _; simpl in E4; lia). }
    apply Nat.leb_gt in E4.
    destruct ((limit <? total
                         + Text.lengthOf
                             (original (nth index docs undefinedDoc)))%nat
              && (0 <? List.length chosen)%nat) eqn:El.
    { apply andb_true_iff in El. destruct El as [_ El].
      apply Nat.ltb_lt in El.
      split; [exists 0%nat; simpl; now rewrite app_nil_r|].
      repeat split; auto; try (intros -> _; simpl in El; lia). }
    set (candidate := nth index docs undefinedDoc) in *.
    assert (Htot : totalChars (chosen ++ [candidate])
                   = (total + Text.lengthOf (original candidate))%nat).
    { unfold totalChars. rewrite map_app, list_sum_app. simpl.
      unfold totalChars in Ht. lia. }
    destruct (IH (chosen ++ [candidate])%list
                 (total + Text.lengthOf (original candidate))%nat)
      as ((k & Hk) & Hl4 & Hlim & _).
    + now rewrite Htot.
    + rewrite length_app. simpl. lia.
    + rewrite length_app, Htot. simpl.
      apply andb_false_iff in El. destruct El as [El | El].
      * apply Nat.ltb_ge in El. now left.
      * apply Nat.ltb_ge in El. right. lia.
    + split; [|split; [|split]]; auto.
      * exists (S k). rewrite Hk. rewrite <- app_assoc. reflexivity.
      * intros _ _. rewrite Hk. destruct chosen; discriminate.
Qed.

End SelectionFacts.

(* ================================================================== *)
(** * Summarizer: sentence documents and the shape of a run *)
(* ================================================================== *)

Section DocFacts.
Import Summarizer.

Lemma sentenceDoc_fields (m : MessageForSummary) (pos : nat) (s : string)
      (d : SentenceDoc) :
  sentenceDoc m pos s = Some d ->
  position d = pos /\ docId d = id m /\ author d = authorUsername m.
Proof.
  unfold sentenceDoc. cbv zeta.
  destruct (normalize s); [discriminate|].
  match goal with
  | |- context [match ?c with [] => None | _ :: _ => _ end] => destruct c
  end; [discriminate|].
  intros [= <-]. simpl. repeat split.
Qed.

Lemma sentences_loop (messages : list MessageForSummary)
      (m : MessageForSummary) (sentences : list string) :
  In m messages ->
  forall st, docsInv messages st ->
    let st' := fold_left (fun '(docs, position) sentence =>
                            match sentenceDoc m position sentence with
                            | None => (docs, position)
                            | Some doc => ((docs ++ [doc])%list, S position)
                            end) sentences st in
    docsInv messages st'
    /\ exists k, map docId (fst st')
                 = (map docId (fst st) ++ repeat (id m) k)%list.
Proof.
  intro Hm. induction sentences as [|s ss IH]; intros [docs pos] Hinv;
    cbv zeta; cbn [fold_left].
  - split; [exact Hinv|]. exists 0%nat. simpl. now rewrite app_nil_r.
  - destruct (sentenceDoc m pos s) as [d|] eqn:E.
    + apply sentenceDoc_fields in E. destruct E as (Ep & Ei & Ea).
      destruct Hinv as (H1 & H2 & H3). simpl in *.
      destruct (IH ((docs ++ [d])%list, S pos)) as (Hinv' & k & Hk).
      * unfold docsInv. simpl. rewrite length_app, map_app. simpl.
        split; [lia|]. split.
        -- rewrite Nat.add_1_r, seq_S, H2. simpl. now rewrite Ep, H1.
        -- apply Forall_app. split; [exact H3|].
           constructor; [|constructor]. now exists m.
      * split; [exact Hinv'|]. exists (S k).
        cbv zeta in Hk. rewrite Hk. simpl fst. rewrite map_app. simpl.
        rewrite <- app_assoc. simpl. now rewrite Ei.
    + apply IH. exact Hinv.
Qed.

Lemma messages_loop (messages : list MessageForSummary)
      (todo : list MessageForSummary) :
  incl todo messages ->
  forall st, docsInv messages st ->
    let st' := fold_left
                 (fun '(docs, position) message =>
                    let sanitized := stripFormatting (content message) in
                    let originalSentences := splitSentences sanitized in
                    fold_left (fun '(docs, position) sentence =>
                                 match sentenceDoc message position sentence
                                 with
                                 | None => (docs, position)
                                 | Some doc =>
                                     ((docs ++ [doc])%list, S position)
                                 end)
                              originalSentences (docs, position))
                 todo st in
    docsInv messages st'
    /\ exists counts,
        List.length counts = List.length todo
        /\ map docId (fst st')
           = (map docId (fst st)
              ++ flat_map (fun mk => repeat (id (fst mk)) (snd mk))
                          (combine todo counts))%list.
Proof.
  induction todo as [|m ms IH]; intros Hincl [docs pos] Hinv;
    cbv zeta; cbn [fold_left].
  - split; [exact Hinv|]. exists []. simpl. now rewrite app_nil_r.
  - destruct (sentences_loop messages m
                (splitSentences (stripFormatting (content m)))
                (Hincl m (or_introl eq_refl)) (docs, pos) Hinv)
      as (Hinv1 & k & Hk).
    cbv zeta in Hinv1, Hk.
    destruct (IH (fun x Hx => Hincl x (or_intror Hx)) _ Hinv1)
      as (Hinv2 & counts & Hlen & Hc).
    cbv zeta in Hinv2, Hc.
    split; [exact Hinv2|].
    exists (k :: counts). split; [simpl; now rewrite Hlen|].
    rewrite Hc, Hk. simpl. now rewrite <- app_assoc.
Qed.

Lemma buildSentenceDocs_spec (messages : list MessageForSummary) :
  let docs := buildSentenceDocs messages in
  map position docs = seq 0 (List.length docs)
  /\ Forall (fun d => exists m, In m messages /\ docId d = id m
                                /\ author d = authorUsername m) docs
  /\ inMessageOrder messages docs.
Proof.
  cbv zeta. unfold buildSentenceDocs.
  destruct (messages_loop messages messages (incl_refl _) ([], 0%nat))
    as ((_ & H2 & H3) & counts & Hlen & Hc).
  - unfold docsInv. simpl. repeat split. constructor.
  - cbv zeta in H2, H3, Hc. split; [exact H2|]. split; [exact H3|].
    exists counts. split; [exact Hlen | exact Hc].
Qed.

Lemma position_nth (messages : list MessageForSummary) (i : nat) :
  (i < List.length (buildSentenceDocs messages))%nat ->
  position (nth i (buildSentenceDocs messages) undefinedDoc) = i.
Proof.
  intro Hi. destruct (buildSentenceDocs_spec messages) as (Hpos & _).
  cbv zeta in Hpos.
  rewrite <- (map_nth position). rewrite Hpos.
  rewrite (nth_indep _ _ 0%nat) by (rewrite length_seq; exact Hi).
  now rewrite seq_nth.
Qed.

Lemma formatBullet_nonempty (s a : string) : formatBullet s a <> "".
Proof. unfold formatBullet, bullet. cbv zeta. simpl. discriminate. Qed.

Lemma join_nonempty (sep b : string) (bs : list string) :
  b <> "" -> Js.join sep (b :: bs) <> "".
Proof.
  intro Hb. destruct b as [|c b]; [congruence|].
  destruct bs; simpl; discriminate.
Qed.

Lemma formatSummary_summary (chosen : list SentenceDoc) :
  summary (formatSummary chosen)
  = match chosen with
    | [] => noNotable
    | _ => Js.join newline (bulletsOf chosen)
    end.
Proof.
  unfold formatSummary, bulletsOf. simpl.
  destruct chosen as [|d ds]; [reflexivity|].
  cbn [map].
  pose proof (join_nonempty newline _
                (map (fun d0 => formatBullet (original d0) (author d0)) ds)
                (formatBullet_nonempty (original d) (author d))) as H.
  unfold orElse.
  destruct (Js.join newline _); [congruence | reflexivity].
Qed.

(** A run on messages without a surviving sentence. *)
Lemma run_empty (topics : Js.JsMap Topic) (lastIndex : nat)
      (messages : list MessageForSummary) (topic : string) :
  buildSentenceDocs messages = [] ->
  run topics lastIndex messages topic
  = (emptyResult, PathEmpty, [], lastIndex).
Proof.
  intro H. unfold run. destruct messages; [reflexivity|]. now rewrite H.
Qed.

(** A run on messages with surviving sentences returns through the
    selection: the fallback is never reached. *)
Lemma run_selection (topics : Js.JsMap Topic) (lastIndex : nat)
      (messages : list MessageForSummary) (topic : string) :
  buildSentenceDocs messages <> [] ->
  exists (selected : list nat) (k : nat),
    let docs := buildSentenceDocs messages in
    let chosen := map (fun i => nth i docs undefinedDoc) (firstn k selected) in
    run topics lastIndex messages topic
    = (formatSummary chosen, PathSelection, chosen, lastIndex)
    /\ chosen = enforceCharacterLimit docs selected 380
    /\ StronglySorted lt selected
    /\ (forall i, In i selected -> (i < List.length docs)%nat)
    /\ ((List.length docs <= 4)%nat -> selected = seq 0 (List.length docs))
    /\ chosen <> []
    /\ (List.length chosen <= 4)%nat
    /\ ((totalChars chosen <= 380)%nat \/ (List.length chosen <= 1)%nat).
Proof.
  intro Hne. rewrite run_stateless. unfold run.
  destruct messages as [|m ms]; [now contradiction Hne|].
  set (docs := buildSentenceDocs (m :: ms)) in *.
  destruct docs as [|d ds] eqn:Ed; [now contradiction Hne|].
  rewrite <- Ed in *. clear Hne.
  cbv zeta.
  set (topicTokens := buildTopicTokens _ _ topic).
  pose proof (scoreSentences_length docs 0%nat (buildDocumentFrequency docs)
                (List.length docs) topicTokens 0%nat) as Hlen.
  destruct (scoreSentences 0%nat (buildDocumentFrequency docs)
                           (List.length docs) topicTokens 0%nat docs)
    as [scores li] eqn:Es.
  simpl in Hlen.
  destruct (selectByMMR_spec docs scores 4) as (Hsorted & Hrange & Hsel & Hall).
  cbv zeta in *.
  set (selected := selectByMMR docs scores 4) in *.
  assert (Hsne : selected <> []).
  { intro E. rewrite E in Hsel. simpl in Hsel. rewrite Hlen, Ed in Hsel.
    simpl in Hsel. lia. }
  destruct (enforceLoop_spec docs 380 selected [] 0%nat)
    as ((k & Hk) & Hl4 & Hlim & Hnonempty);
    [reflexivity | simpl; lia | left; exact (Nat.le_0_l _) |].
  cbv zeta in *. simpl in Hk.
  exists selected, k.
  fold (enforceCharacterLimit docs selected 380) in *.
  rewrite <- Hk.
  refine (conj _ (conj eq_refl (conj Hsorted (conj _ (conj _ (conj _
            (conj Hl4 Hlim))))))).
  - clear Hk Hl4 Hlim Hnonempty Hsorted Hrange Hsel Hall.
    destruct selected; [now contradiction Hsne | reflexivity].
  - intros j Hj. rewrite <- Hlen. now apply Hrange.
  - intro H. rewrite <- Hlen. apply Hall. now rewrite Hlen.
  - apply Hnonempty; [reflexivity | exact Hsne].
Qed.

End DocFacts.

Lemma In_firstn {A} (k : nat) (l : list A) (x : A) :
  In x (firstn k l) -> In x l.
Proof.
  intro H. rewrite <- (firstn_skipn k l). apply in_or_app. now left.
Qed.

Lemma StronglySorted_firstn {A} (R : A -> A -> Prop) (k : nat) (l : list A) :
  StronglySorted R l -> StronglySorted R (firstn k l).
Proof.
  intro H. revert k. induction H as [|x l Hs IH Hall]; intro k.
  - rewrite firstn_nil. constructor.
  - destruct k; simpl; constructor; [apply IH|].
    apply Forall_forall. intros y Hy. rewrite Forall_forall in Hall.
    apply Hall. eapply In_firstn. exact Hy.
Qed.

(* ================================================================== *)
(** * Summarizer: the lines of a summary *)
(* ================================================================== *)

Section BulletFacts.
Import Summarizer.

Lemma lineBreaks_app (a b : string) :
  lineBreaks (a ++ b) = (lineBreaks a + lineBreaks b)%nat.
Proof.
  induction a as [|c a IH]; simpl; [reflexivity|]. rewrite IH. lia.
Qed.

Lemma lineBreaks_toString (l : Text.chars) :
  Forall (fun c => Ascii.eqb c (ascii_of_nat 10) = false) l ->
  lineBreaks (Text.toString l) = 0%nat.
Proof.
  induction 1 as [|c l Hc Hl IH]; simpl; [reflexivity|].
  now rewrite Hc, IH.
Qed.

(** The characters of a replacement result are those of the replacement
    text and the characters at which no match starts. *)
Lemma replaceFrom_Forall (P : ascii -> Prop)
      (matchAt : option ascii -> Text.chars -> option nat)
      (rep : Text.chars) :
  Forall P rep ->
  (forall prev c t, matchAt prev (c :: t) = None
                    \/ matchAt prev (c :: t) = Some 0%nat -> P c) ->
  forall s prev skip, Forall P (Text.replaceFrom matchAt rep prev skip s).
Proof.
  intros Hrep Hkeep. induction s as [|c t IH]; intros prev skip; simpl.
  - constructor.
  - destruct skip as [|k]; [|apply IH].
    destruct (matchAt prev (c :: t)) as [[|m]|] eqn:E.
    + constructor; [apply (Hkeep prev c t); now right | apply IH].
    + apply Forall_app. split; [exact Hrep | apply IH].
    + constructor; [apply (Hkeep prev c t); now left | apply IH].
Qed.

Lemma collapseSpaces_no_linefeed (s : Text.chars) :
  Forall (fun c => Ascii.eqb c (ascii_of_nat 10) = false)
         (Text.collapseSpaces s).
Proof.
  unfold Text.collapseSpaces, Text.replaceAll.
  apply replaceFrom_Forall.
  - repeat constructor.
  - intros prev c t H. unfold Text.matchSpaces in H. simpl in H.
    destruct (Text.isSpace c) eqn:Es.
    + simpl in H. destruct H as [H | H]; discriminate.
    + destruct (Ascii.eqb c (ascii_of_nat 10)) eqn:E; [|reflexivity].
      apply Ascii.eqb_eq in E. subst c. discriminate.
Qed.

Lemma dropWhile_incl (f : ascii -> bool) (l : Text.chars) (c : ascii) :
  In c (Text.dropWhile f l) -> In c l.
Proof.
  induction l as [|x l IH]; simpl; [tauto|].
  destruct (f x); [intro H; right; now apply IH | tauto].
Qed.

Lemma trim_Forall (P : ascii -> Prop) (l : Text.chars) :
  Forall P l -> Forall P (Text.trim l).
Proof.
  intro H. rewrite Forall_forall in *. intros c Hc. apply H.
  unfold Text.trim in Hc. apply in_rev in Hc.
  apply dropWhile_incl in Hc. apply in_rev in Hc.
  now apply dropWhile_incl in Hc.
Qed.

(** A bullet has the line feeds of its author only: the sentence is shown
    with its white space collapsed. *)
Lemma high_byte_no_linefeed (k : N) :
  (128 <= k < 256)%N -> Ascii.eqb (ascii_of_N k) (ascii_of_nat 10) = false.
Proof.
  intro Hk. apply Ascii.eqb_neq. intro E.
  apply (f_equal N_of_ascii) in E.
  rewrite N_ascii_embedding in E by lia.
  change (N_of_ascii (ascii_of_nat 10)) with 10%N in E. lia.
Qed.

(** A slice holds bytes of the string and, where it ends inside a
    surrogate pair, the bytes of the high surrogate, all above 127. *)
Lemma slice_Forall (P : ascii -> Prop) (n : nat) (s : Text.chars) :
  (forall k, (128 <= k < 256)%N -> P (ascii_of_N k)) ->
  Forall P s -> Forall P (Text.slice n s).
Proof.
  intros Hhigh Hs. revert n.
  induction Hs as [|c s Hc Hs IH]; intro n; cbn [Text.slice];
    [constructor|].
  destruct (Text.unitsOf c) as [|[|u]].
  - constructor; [exact Hc|apply IH].
  - destruct n; [constructor|]. constructor; [exact Hc|apply IH].
  - destruct n as [|[|n]]; [constructor| |constructor; [exact Hc|apply IH]].
    unfold Text.highSurrogate. cbv zeta.
    assert (Hrange : forall a : N, (128 <= 128 + a mod 64 < 256)%N).
    { intro a.
      assert (H : (a mod 64 < 64)%N)
        by (apply N.mod_upper_bound; discriminate).
      revert H. generalize (a mod 64)%N. intros b H. lia. }
    repeat constructor; apply Hhigh; [lia | apply Hrange | apply Hrange].
Qed.

Lemma formatBullet_lineBreaks (sentence author : string) :
  lineBreaks (formatBullet sentence author) = lineBreaks author.
Proof.
  unfold formatBullet. cbv zeta.
  pose proof (trim_Forall _ _ (collapseSpaces_no_linefeed
                                 (Text.ofString sentence))) as Ht.
  set (trimmed := Text.trim (Text.collapseSpaces (Text.ofString sentence)))
    in *.
  rewrite !lineBreaks_app.
  assert (Hp : lineBreaks
                 (if (180 <? Text.units trimmed)%nat
                  then Text.toString (Text.slice 177 trimmed) ++ ellipsis
                  else Text.toString trimmed) = 0%nat).
  { destruct (180 <? Text.units trimmed)%nat.
    - rewrite lineBreaks_app, lineBreaks_toString; [reflexivity|].
      apply slice_Forall; [apply high_byte_no_linefeed|exact Ht].
    - now apply lineBreaks_toString. }
  rewrite Hp. simpl. lia.
Qed.

Lemma join_lineBreaks (bs : list string) :
  Forall (fun b => lineBreaks b = 0%nat) bs ->
  lineBreaks (Js.join newline bs) = (List.length bs - 1)%nat.
Proof.
  induction 1 as [|b bs Hb Hbs IH]; [reflexivity|].
  destruct bs as [|b' bs']; [simpl; exact Hb|].
  change (Js.join newline (b :: b' :: bs'))
    with (b ++ newline ++ Js.join newline (b' :: bs')).
  rewrite !lineBreaks_app, Hb, IH. simpl. lia.
Qed.

End BulletFacts.

(** C4. The summary has at most 4 bullets, one per kept sentence, and the
    accumulated length of the original text of the kept sentences, counted
    in UTF-16 code units as the code counts it, is at most 380 unless a
    single sentence is kept: the first accepted sentence is never rejected
    for length, so that a sentence is kept as soon as one survives the
    filters, and it alone may exceed 380.  The kept sentences are sentences
    of the input; without any, the summary is the fixed sentence.  When no
    author name contains a line feed the summary has at most 4 lines. *)
Theorem summarize_bounded (topics : Js.JsMap Topic) (lastIndex : nat)
        (messages : list MessageForSummary) (topic : string) :
  let r := Summarizer.summarize topics lastIndex messages topic in
  exists chosen : list Summarizer.SentenceDoc,
    Summarizer.selectedIds r = map Summarizer.docId chosen
    /\ Summarizer.summary r
       = match chosen with
         | [] => Summarizer.noNotable
         | _ => Js.join Summarizer.newline (bulletsOf chosen)
         end
    /\ Forall (fun d => In d (Summarizer.buildSentenceDocs messages)) chosen
    /\ (Summarizer.buildSentenceDocs messages <> [] -> chosen <> [])
    /\ (List.length (bulletsOf chosen) <= 4)%nat
    /\ ((totalChars chosen <= 380)%nat \/ (List.length chosen <= 1)%nat)
    /\ (Forall (fun m => lineBreaks (authorUsername m) = 0%nat) messages ->
        (lineBreaks (Summarizer.summary r) <= 3)%nat).
Proof.
  cbv zeta. unfold Summarizer.summarize.
  destruct (Summarizer.buildSentenceDocs messages) as [|d ds] eqn:Ed.
  - rewrite run_empty by exact Ed. exists []. simpl.
    repeat split; auto.
  - destruct (run_selection topics lastIndex messages topic)
      as (selected & k & Hrun & _ & _ & Hrange & _ & Hne & Hl4 & Hlim).
    { rewrite Ed. discriminate. }
    cbv zeta in *. rewrite Hrun. cbn [fst].
    set (chosen := map (fun i => nth i (Summarizer.buildSentenceDocs messages)
                                     Summarizer.undefinedDoc)
                       (firstn k selected)) in *.
    assert (Hin : Forall (fun d => In d (Summarizer.buildSentenceDocs messages))
                         chosen).
    { apply Forall_forall. intros x Hx. apply in_map_iff in Hx.
      destruct Hx as [i [<- Hi]]. apply nth_In.
      apply Hrange. eapply In_firstn. exact Hi. }
    exists chosen. split; [reflexivity|].
    split; [apply formatSummary_summary|].
    split; [rewrite <- Ed; exact Hin|].
    split; [intros _; exact Hne|].
    split; [unfold bulletsOf; now rewrite length_map|].
    split; [exact Hlim|].
    intro Hauthors. rewrite formatSummary_summary.
    destruct chosen as [|c cs] eqn:Ec; [now contradiction Hne|].
    rewrite <- Ec in *.
    rewrite join_lineBreaks.
    + unfold bulletsOf. rewrite length_map. lia.
    + unfold bulletsOf. apply Forall_forall. intros b Hb.
      apply in_map_iff in Hb. destruct Hb as [x [<- Hx]].
      rewrite formatBullet_lineBreaks.
      rewrite Forall_forall in Hin. specialize (Hin x Hx).
      destruct (buildSentenceDocs_spec messages) as (_ & Hids & _).
      cbv zeta in Hids. rewrite Forall_forall in Hids.
      destruct (Hids x Hin) as (m & Hm & _ & Ea).
      rewrite Ea. rewrite Forall_forall in Hauthors. now apply Hauthors.
Qed.

Lemma summarize_bounded_witness :
  (Forall (fun m => lineBreaks (authorUsername m) = 0%nat)
          Sample.twoSentences
   /\ (lineBreaks
         (Summarizer.summary
            (Summarizer.summarize [] 0 Sample.twoSentences "energy"))
       <= 3)%nat)
  /\ (Summarizer.buildSentenceDocs Sample.longSentence <> []
      /\ exists chosen,
          Summarizer.selectedIds
            (Summarizer.summarize [] 0 Sample.longSentence "energy")
          = map Summarizer.docId chosen
          /\ List.length chosen = 1%nat
          /\ (380 < totalChars chosen)%nat).
Proof.
  split.
  - assert (H : Forall (fun m => lineBreaks (authorUsername m) = 0%nat)
                       Sample.twoSentences)
      by (repeat constructor).
    split; [exact H|].
    destruct (summarize_bounded [] 0%nat Sample.twoSentences "energy")
      as (chosen & _ & _ & _ & _ & _ & _ & Hlines).
    exact (Hlines H).
  - assert (Hdocs : Summarizer.buildSentenceDocs Sample.longSentence <> [])
      by (vm_compute; discriminate).
    split; [exact Hdocs|].
    destruct (summarize_bounded [] 0%nat Sample.longSentence "energy")
      as (chosen & Hids & _ & Hin & Hne & _ & Hlim & _).
    exists chosen. split; [exact Hids|].
    assert (Hlong : forallb (fun d => (380 <? Text.lengthOf
                                                (Summarizer.original d))%nat)
                            (Summarizer.buildSentenceDocs
                               Sample.longSentence) = true)
      by (vm_compute; reflexivity).
    rewrite forallb_forall in Hlong. rewrite Forall_forall in Hin.
    specialize (Hne Hdocs).
    destruct chosen as [|c cs]; [now contradiction Hne|].
    assert (Hc : (380 < Text.lengthOf (Summarizer.original c))%nat).
    { apply Nat.ltb_lt. apply Hlong. apply Hin. now left. }
    assert (Ht : (Text.lengthOf (Summarizer.original c)
                  <= totalChars (c :: cs))%nat).
    { unfold totalChars. cbn [map list_sum fold_right]. lia. }
    destruct Hlim as [Hlim|Hlim]; [lia|].
    split; [|lia].
    destruct cs; [reflexivity|]. cbn [List.length] in Hlim. lia.
Defined.

(** C5 (what the code does). On a message list without a surviving
    sentence [summarize] returns the fixed sentence and no selected id, not
    the first raw messages: the guard on an empty sentence list returns
    before the fallback, and with a surviving sentence the selection is
    never empty, so that no run reaches the fallback.
    [Sample.onlyStopword] is a non-empty list without a surviving
    sentence; its fallback would be the bullet of its message, with the
    id [m1]. *)
Theorem summarize_without_sentences :
  (forall topics lastIndex messages topic,
      let path :=
        snd (fst (fst (Summarizer.run topics lastIndex messages topic))) in
      match Summarizer.buildSentenceDocs messages with
      | [] => Summarizer.summarize topics lastIndex messages topic
              = Summarizer.emptyResult
              /\ path = Summarizer.PathEmpty
      | _ :: _ => path = Summarizer.PathSelection
      end)
  /\ Sample.onlyStopword <> []
  /\ Summarizer.buildSentenceDocs Sample.onlyStopword = []
  /\ (forall topics lastIndex topic,
      Summarizer.selectedIds
        (Summarizer.summarize topics lastIndex Sample.onlyStopword topic)
      = []
      /\ Summarizer.summary
           (Summarizer.summarize topics lastIndex Sample.onlyStopword topic)
         = "No notable discussion captured in this window.")
  /\ Summarizer.selectedIds (Summarizer.fallback Sample.onlyStopword)
     = ["m1"]
  /\ Summarizer.summary (Summarizer.fallback Sample.onlyStopword)
     = "• maya: AI!".
Proof.
  split; [|split; [|split; [|split; [|split]]]].
  - intros topics lastIndex messages topic. cbv zeta.
    destruct (Summarizer.buildSentenceDocs messages) as [|d ds] eqn:Ed.
    + unfold Summarizer.summarize. rewrite run_empty by exact Ed.
      split; reflexivity.
    + destruct (run_selection topics lastIndex messages topic)
        as (selected & k & Hrun & _).
      { rewrite Ed. discriminate. }
      cbv zeta in Hrun. rewrite Hrun. reflexivity.
  - discriminate.
  - vm_compute. reflexivity.
  - intros topics lastIndex topic.
    unfold Summarizer.summarize.
    rewrite run_empty by (vm_compute; reflexivity).
    split; reflexivity.
  - vm_compute. reflexivity.
  - vm_compute. reflexivity.
Qed.

(** C10. When [summarize] returns through the sentence selection, its
    [selectedIds] are the ids of the kept sentences: each is the id of an
    input message; the kept sentences are listed by strictly increasing
    sentence position, the position of a sentence being its index in the
    documents built from the input, which follow the order of the
    messages.  A message id is listed once per kept sentence of that
    message: for [Sample.twoSentences] the result lists [m2] twice. *)
Theorem selectedIds_in_sentence_order :
  (forall topics lastIndex messages topic,
      let docs := Summarizer.buildSentenceDocs messages in
      let r := Summarizer.summarize topics lastIndex messages topic in
      docs <> [] ->
      exists chosen : list Summarizer.SentenceDoc,
        snd (fst (fst (Summarizer.run topics lastIndex messages topic)))
        = Summarizer.PathSelection
        /\ Summarizer.selectedIds r = map Summarizer.docId chosen
        /\ Forall (fun i => In i (map id messages)) (Summarizer.selectedIds r)
        /\ StronglySorted lt (map Summarizer.position chosen)
        /\ Forall (fun d => nth_error docs (Summarizer.position d) = Some d)
                  chosen
        /\ inMessageOrder messages docs)
  /\ (forall topics lastIndex topic,
         Summarizer.selectedIds
           (Summarizer.summarize topics lastIndex Sample.twoSentences topic)
         = ["m2"; "m2"]).
Proof.
  split.
  - intros topics lastIndex messages topic docs r Hne. subst docs r.
    destruct (run_selection topics lastIndex messages topic Hne)
      as (selected & k & Hrun & _ & Hsorted & Hrange & _).
    cbv zeta in *.
    destruct (buildSentenceDocs_spec messages) as (Hpos & Hids & Horder).
    cbv zeta in *.
    unfold Summarizer.summarize. rewrite Hrun. cbn [fst snd].
    set (docs := Summarizer.buildSentenceDocs messages) in *.
    assert (Hk : forall i, In i (firstn k selected) ->
                           (i < List.length docs)%nat).
    { intros i Hi. apply Hrange. eapply In_firstn. exact Hi. }
    exists (map (fun i => nth i docs Summarizer.undefinedDoc)
                (firstn k selected)).
    split; [reflexivity|]. split; [reflexivity|].
    split; [|split; [|split]].
    + simpl. rewrite map_map. apply Forall_forall. intros x Hx.
      apply in_map_iff in Hx. destruct Hx as [i [<- Hi]].
      rewrite Forall_forall in Hids.
      destruct (Hids (nth i docs Summarizer.undefinedDoc)) as (m & Hm & E & _).
      { apply nth_In. now apply Hk. }
      rewrite E. now apply in_map.
    + rewrite map_map.
      rewrite (map_ext_in _ (fun i => i)).
      * rewrite map_id. now apply StronglySorted_firstn.
      * intros i Hi. apply position_nth. now apply Hk.
    + apply Forall_forall. intros d Hd. apply in_map_iff in Hd.
      destruct Hd as [i [<- Hi]].
      unfold docs. rewrite position_nth by (now apply Hk).
      apply nth_error_nth'. now apply Hk.
    + exact Horder.
  - intros topics lastIndex topic.
    destruct (run_selection topics lastIndex Sample.twoSentences topic)
      as (selected & k & Hrun & Hchosen & _ & _ & Hall & _).
    { vm_compute. discriminate. }
    cbv zeta in *.
    unfold Summarizer.summarize. rewrite Hrun. cbn [fst].
    rewrite Hchosen. rewrite Hall by (vm_compute; lia).
    vm_compute. reflexivity.
Qed.

Lemma selectedIds_in_sentence_order_witness :
  Summarizer.buildSentenceDocs Sample.twoSentences <> []
  /\ exists chosen : list Summarizer.SentenceDoc,
      Summarizer.selectedIds
        (Summarizer.summarize [] 0 Sample.twoSentences "energy")
      = map Summarizer.docId chosen
      /\ StronglySorted lt (map Summarizer.position chosen).
Proof.
  assert (Hne : Summarizer.buildSentenceDocs Sample.twoSentences <> [])
    by (vm_compute; discriminate).
  split; [exact Hne|].
  destruct (proj1 selectedIds_in_sentence_order [] 0%nat Sample.twoSentences
                  "energy" Hne) as (chosen & _ & Hids & _ & Hsorted & _).
  exists chosen. split; [exact Hids | exact Hsorted].
Defined.

(* ================================================================== *)
(** * Rankings: the first entries of a map sorted by weight *)
(* ================================================================== *)

Lemma StronglySorted_app_inv {A} (R : A -> A -> Prop) (l1 l2 : list A) :
  StronglySorted R (l1 ++ l2) ->
  StronglySorted R l1 /\ forall a b, In a l1 -> In b l2 -> R a b.
Proof.
  induction l1 as [|x l1 IH]; simpl; intro H.
  - split; [constructor | intros a b []].
  - apply StronglySorted_inv in H. destruct H as [Hs Hall].
    destruct (IH Hs) as [Hs1 Hcross]. split.
    + constructor; [exact Hs1|].
      apply Forall_forall. intros y Hy. rewrite Forall_forall in Hall.
      apply Hall. apply in_or_app. now left.
    + intros a b [<- | Ha] Hb.
      * rewrite Forall_forall in Hall. apply Hall. apply in_or_app. now right.
      * now apply Hcross.
Qed.

(** [Array.from(m.entries()).sort(by weight, descending).slice(0, k)] of a
    map: [min k size] entries of the map with distinct keys, in descending
    order of weight, no entry left out weighing more than one of them. *)
Lemma top_entries (m : Js.JsMap R) (k : nat) :
  NoDup (Js.keys m) ->
  let out := firstn k (Js.sortDescBy snd m) in
  List.length out = Nat.min k (List.length m)
  /\ NoDup (map fst out)
  /\ StronglySorted (fun a b => snd b <= snd a) out
  /\ incl out m
  /\ (forall e o, In e m -> ~ In (fst e) (map fst out) -> In o out ->
                  snd e <= snd o).
Proof.
  intro Hnd. cbv zeta.
  pose proof (sortDescBy_perm snd m) as HP.
  pose proof (sortDescBy_sorted snd m) as HS.
  set (sorted := Js.sortDescBy snd m) in *.
  rewrite <- (firstn_skipn k sorted) in HS.
  apply StronglySorted_app_inv in HS. destruct HS as [HS Hcross].
  assert (Hnds : NoDup (map fst sorted)).
  { eapply Permutation_NoDup; [|exact Hnd].
    unfold Js.keys. apply Permutation_map. now symmetry. }
  split; [|split; [|split; [|split]]].
  - rewrite length_firstn. now rewrite (Permutation_length HP).
  - rewrite <- (firstn_skipn k sorted), map_app in Hnds.
    now apply NoDup_app_remove_r in Hnds.
  - exact HS.
  - intros e He. eapply Permutation_in; [exact HP|].
    eapply In_firstn. exact He.
  - intros e o He Hout Ho.
    assert (Hs : In e sorted)
      by (eapply Permutation_in; [symmetry; exact HP | exact He]).
    rewrite <- (firstn_skipn k sorted) in Hs. apply in_app_or in Hs.
    destruct Hs as [Hs | Hs].
    + exfalso. apply Hout. now apply in_map.
    + now apply Hcross.
Qed.

Section CounterFacts.
Import ThemeClusterService.

Lemma labelTokens_NoDup (ms : list ThreadScore) :
  NoDup (Js.keys (labelTokens ms)).
Proof. rewrite labelTokens_keys. apply newSet_NoDup. Qed.

Lemma labelTokens_slug (ms : list ThreadScore) (t : string) :
  In t (labelSlugs ms) -> In (t, labelWeight ms t) (labelTokens ms).
Proof.
  intro H. rewrite <- labelTokens_keys in H. unfold Js.keys in H.
  apply in_map_iff in H. destruct H as [[t' v] [E Hin]]. simpl in E. subst t'.
  now rewrite <- (labelTokens_weight ms t v Hin).
Qed.

End CounterFacts.

(** X1. [TopicCounterService.count] lists the (at most) three heaviest topic
    slugs of the scored units: [min 3 n] entries for [n] distinct slugs,
    with distinct slugs, in descending order of count; the count of a slug
    is the sum of [keywordHits + 2 x bigramHits] over all hits for it, and
    no slug left out has a larger count than a listed one. *)
Theorem count_top_three (scores : list ThreadScore) :
  let out := TopicCounterService.count scores in
  List.length out = Nat.min 3 (List.length (labelSlugs scores))
  /\ NoDup (map fst out)
  /\ StronglySorted (fun a b => snd b <= snd a) out
  /\ Forall (fun e => In (fst e) (labelSlugs scores)
                      /\ snd e = labelWeight scores (fst e)) out
  /\ (forall t o, In t (labelSlugs scores) -> ~ In t (map fst out) ->
                  In o out -> labelWeight scores t <= snd o).
Proof.
  cbv zeta. unfold TopicCounterService.count. cbv zeta.
  change (fold_left _ scores []) with (ThemeClusterService.labelTokens scores).
  destruct (top_entries (ThemeClusterService.labelTokens scores) 3
                        (labelTokens_NoDup scores))
    as (Hlen & Hnd & Hs & Hincl & Hmax).
  split; [|split; [|split; [|split]]]; auto.
  - rewrite Hlen. f_equal. rewrite <- labelTokens_keys.
    unfold Js.keys. now rewrite length_map.
  - apply Forall_forall. intros [t v] He. simpl.
    specialize (Hincl _ He). split.
    + rewrite <- labelTokens_keys. unfold Js.keys.
      apply in_map_iff. now exists (t, v).
    + now apply labelTokens_weight.
  - intros t o Ht Hout Ho.
    exact (Hmax (t, labelWeight scores t) o (labelTokens_slug scores t Ht)
                Hout Ho).
Qed.

(* ================================================================== *)
(** * Theme clusters: seeds, members and the greedy pass *)
(* ================================================================== *)

Section GreedyFacts.
Import ThemeClusterService.

(** What the inner loop does with every index it scans. *)
Lemma absorb_full (seed : Js.JsMap R) (vectors : list (Js.JsMap R))
      (js : list nat) :
  forall members visited,
  exists extra,
    absorb seed vectors js members visited
    = ((members ++ extra)%list, (visited ++ extra)%list)
    /\ Forall (fun j => In j js /\ ~ In j visited
                        /\ threshold <= cosineSimilarity seed
                                          (nth j vectors [])) extra
    /\ (StronglySorted lt js -> StronglySorted lt extra)
    /\ (forall j, In j js -> ~ In j (visited ++ extra) ->
                  cosineSimilarity seed (nth j vectors []) < threshold).
Proof.
  induction js as [|j js IH]; intros members visited; simpl.
  - exists []. rewrite !app_nil_r.
    split; [reflexivity|]. split; [constructor|].
    split; [intros _; constructor | intros j []].
  - destruct (Js.hasIndex visited j) eqn:Hv.
    + destruct (IH members visited) as (extra & E & Hall & Hs & Hrej).
      exists extra. split; [exact E|]. split; [|split].
      * eapply Forall_impl; [|exact Hall]. intros x (H1 & H2 & H3).
        repeat split; auto.
      * intro H. apply Hs. now apply StronglySorted_inv in H.
      * intros x [<- | Hx] Hn; [|now apply Hrej].
        exfalso. apply Hn. apply in_or_app. left. now apply hasIndex_In.
    + apply hasIndex_not_In in Hv.
      destruct (Js.Rleb threshold (cosineSimilarity seed (nth j vectors [])))
        eqn:Hsim.
      * apply Rleb_true in Hsim.
        destruct (IH (members ++ [j])%list (visited ++ [j])%list)
          as (extra & E & Hall & Hs & Hrej).
        exists (j :: extra). rewrite E, <- !app_assoc. simpl.
        split; [reflexivity|]. split; [|split].
        -- constructor; [repeat split; auto|].
           eapply Forall_impl; [|exact Hall]. intros x (H1 & H2 & H3).
           repeat split; auto. intro Hx. apply H2. apply in_or_app. now left.
        -- intro H. apply StronglySorted_inv in H. destruct H as [H Hlt].
           constructor; [now apply Hs|].
           rewrite Forall_forall in *. intros x Hx.
           apply Hlt. exact (proj1 (Hall x Hx)).
        -- intros x Hx Hn.
           assert (Hn' : ~ In x ((visited ++ [j]) ++ extra))
             by now rewrite <- app_assoc.
           destruct Hx as [<- | Hx]; [|now apply Hrej].
           exfalso. apply Hn. apply in_or_app. right. now left.
      * apply Rleb_false in Hsim.
        destruct (IH members visited) as (extra & E & Hall & Hs & Hrej).
        exists extra. split; [exact E|]. split; [|split].
        -- eapply Forall_impl; [|exact Hall]. intros x (H1 & H2 & H3).
           repeat split; auto.
        -- intro H. apply Hs. now apply StronglySorted_inv in H.
        -- intros x [<- | Hx] Hn; [exact Hsim | now apply Hrej].
Qed.

End GreedyFacts.

Lemma ForallOrdPairs_snoc {A} (R : A -> A -> Prop) (l : list A) (x : A) :
  ForallOrdPairs R l -> Forall (fun a => R a x) l ->
  ForallOrdPairs R (l ++ [x]).
Proof.
  induction 1 as [|a l Ha Hl IH]; intro Hx; simpl.
  - repeat constructor.
  - apply Forall_cons_iff in Hx. destruct Hx as [Hax Hx].
    constructor; [|now apply IH].
    apply Forall_app. split; [exact Ha | now repeat constructor].
Qed.

Lemma StronglySorted_snoc {A} (R : A -> A -> Prop) (l : list A) (x : A) :
  StronglySorted R l -> Forall (fun a => R a x) l ->
  StronglySorted R (l ++ [x]).
Proof.
  induction 1 as [|a l Hl IH Ha]; intro Hx; simpl.
  - repeat constructor.
  - apply Forall_cons_iff in Hx. destruct Hx as [Hax Hx].
    constructor; [now apply IH|].
    apply Forall_app. split; [exact Ha | now repeat constructor].
Qed.

Lemma seq_sorted_lt (start n : nat) : StronglySorted lt (seq start n).
Proof.
  revert start. induction n as [|n IH]; intro start; simpl; constructor.
  - apply IH.
  - apply Forall_forall. intros y Hy. apply in_seq in Hy. lia.
Qed.

Section GreedyLoop.
Import ThemeClusterService.

Lemma clusterLoop_greedy (scores : list ThreadScore) (todo : list nat) :
  forall found visited,
    StronglySorted lt todo ->
    (forall t, In t todo -> (t < List.length scores)%nat) ->
    greedyInv scores todo found visited ->
    exists visited',
      greedyInv scores []
                (clusterLoop (List.length scores) (map buildVector scores)
                             todo found visited)
                visited'.
Proof.
  induction todo as [|i todo IH]; intros found visited Hs Hn Hinv;
    cbn [clusterLoop].
  - now exists visited.
  - destruct Hinv as (H1 & H2 & H3 & H4 & H5 & H6).
    apply StronglySorted_inv in Hs. destruct Hs as [Hs Hlt].
    rewrite Forall_forall in Hlt.
    assert (Hi : (i < List.length scores)%nat) by (apply Hn; now left).
    assert (Hn' : forall t, In t todo -> (t < List.length scores)%nat)
      by (intros t Ht; apply Hn; now right).
    destruct (Js.hasIndex visited i) eqn:Hv.
    + apply (IH found visited Hs Hn').
      repeat split; auto. intros p t Hp Ht. apply H4; [exact Hp | now right].
    + apply hasIndex_not_In in Hv.
      destruct (absorb_full (nth i (map buildVector scores) [])
                            (map buildVector scores)
                            (seq (i + 1) (List.length scores - (i + 1)))
                            [i] (visited ++ [i])%list)
        as (extra & E & Hall & Hsorted & Hrej).
      rewrite E. specialize (Hsorted (seq_sorted_lt _ _)).
      rewrite Forall_forall in Hall.
      apply (IH _ _ Hs Hn').
      assert (Hbefore : forall p, In p found -> (fst p < i)%nat)
        by (intros p Hp; apply (H4 p i Hp); now left).
      split; [|split; [|split; [|split; [|split]]]].
      * apply Forall_app. split; [exact H1|]. constructor; [|constructor].
        exists extra. simpl. split; [reflexivity|]. split.
        -- constructor; [exact Hsorted|]. apply Forall_forall. intros j Hj.
           destruct (Hall j Hj) as (Hseq & _). apply in_seq in Hseq. lia.
        -- apply Forall_forall. intros j Hj.
           destruct (Hall j Hj) as (Hseq & _ & Hsim). apply in_seq in Hseq.
           split; [lia | exact Hsim].
      * rewrite map_app. simpl. apply StronglySorted_snoc; [exact H2|].
        apply Forall_forall. intros a Ha. apply in_map_iff in Ha.
        destruct Ha as [p [<- Hp]]. now apply Hbefore.
      * apply ForallOrdPairs_snoc; [exact H3|].
        apply Forall_forall. intros p Hp. unfold separated. simpl.
        apply Forall_forall. intros j [<- | Hj].
        -- apply H5; [exact Hp | | exact Hv].
           specialize (Hbefore p Hp). lia.
        -- destruct (Hall j Hj) as (Hseq & Hnv & _). apply in_seq in Hseq.
           apply H5; [exact Hp | specialize (Hbefore p Hp); lia |].
           intro Hin. apply Hnv. apply in_or_app. now left.
      * intros p t Hp Ht. apply in_app_or in Hp.
        destruct Hp as [Hp | [<- | []]]; [apply H4; [exact Hp | now right]|].
        simpl. now apply Hlt.
      * intros p j Hp Hj Hnv. apply in_app_or in Hp.
        destruct Hp as [Hp | [<- | []]].
        -- apply H5; [exact Hp | exact Hj |].
           intro Hin. apply Hnv. apply in_or_app. left.
           apply in_or_app. now left.
        -- simpl in *. apply Hrej; [|exact Hnv]. apply in_seq. lia.
      * intros p j Hp Hj. apply in_app_or in Hp.
        destruct Hp as [Hp | [<- | []]].
        -- apply in_or_app. left. apply in_or_app. left.
           exact (H6 p j Hp Hj).
        -- simpl in Hj. destruct Hj as [<- | Hj].
           ++ apply in_or_app. left. apply in_or_app. right. now left.
           ++ apply in_or_app. now right.
Qed.

Lemma clusterIndices_greedy (scores : list ThreadScore) :
  Forall (seededPart scores) (clusterIndices scores)
  /\ StronglySorted lt (map fst (clusterIndices scores))
  /\ ForallOrdPairs (separated scores) (clusterIndices scores).
Proof.
  unfold clusterIndices.
  destruct (clusterLoop_greedy scores (seq 0 (List.length scores)) [] [])
    as (visited' & H1 & H2 & H3 & _).
  - apply seq_sorted_lt.
  - intros t Ht. apply in_seq in Ht. lia.
  - repeat split; try constructor; try (intros p t []); try (intros p j []).
  - repeat split; assumption.
Qed.

Lemma analyze_clustersOf (scores : list ThreadScore) :
  clustersOf scores (clusters (analyze scores)) (clusterIndices scores).
Proof.
  rewrite analyze_clusters. unfold clustersOf.
  pose proof (clusterIndices_partition scores) as HP.
  assert (Hlt : forall p, In p (clusterIndices scores) ->
                          forall i, In i (snd p) ->
                                    (i < List.length scores)%nat).
  { intros p Hp i Hi.
    assert (Hc : In i (List.concat (map snd (clusterIndices scores)))).
    { apply in_concat. exists (snd p). split; [now apply in_map | exact Hi]. }
    eapply Permutation_in in Hc; [|exact HP]. apply in_seq in Hc. lia. }
  revert Hlt. generalize (clusterIndices scores) as cs.
  induction cs as [|c cs IH]; intro Hlt; simpl; constructor.
  - split; [reflexivity|]. simpl. apply pick_membersAt. apply Hlt. now left.
  - apply IH. intros p Hp. apply Hlt. now right.
Qed.

End GreedyLoop.

Lemma NoDup_map_injective {A B} (f : A -> B) (l : list A) :
  (forall a b, f a = f b -> a = b) -> NoDup l -> NoDup (map f l).
Proof.
  intros Hf. induction 1 as [|x l Hx Hl IH]; simpl; constructor; [|exact IH].
  intro Hin. apply in_map_iff in Hin. destruct Hin as [y [E Hy]].
  apply Hf in E. now subst.
Qed.

Lemma clustersOf_ids (scores : list ThreadScore)
      (cs : list ThemeClusterService.ThreadCluster)
      (parts : list (nat * list nat)) :
  clustersOf scores cs parts ->
  map ThemeClusterService.clusterId cs
  = map (fun i => "cluster-" ++ NilEmpty.string_of_uint (Nat.to_uint i))
        (map fst parts).
Proof.
  unfold clustersOf. induction 1 as [|c p cs ps [Hid _] _ IH];
    cbn [map]; [reflexivity|]. rewrite Hid, IH. reflexivity.
Qed.

(** X2. Every cluster of [analyze] is built around a seed: its id is
    [cluster-i] for the position [i] of its seed in the input, the seed is
    its first member, its members are listed by increasing position, and
    every other member has a cosine similarity of at least 0.2 with the
    seed.  The seeds of successive clusters are at increasing positions,
    so that the ids are distinct. *)
Theorem analyze_seeded_clusters (scores : list ThreadScore) :
  exists parts : list (nat * list nat),
    clustersOf scores
               (ThemeClusterService.clusters
                  (ThemeClusterService.analyze scores)) parts
    /\ Forall (seededPart scores) parts
    /\ StronglySorted lt (map fst parts)
    /\ NoDup (map ThemeClusterService.clusterId
                  (ThemeClusterService.clusters
                     (ThemeClusterService.analyze scores))).
Proof.
  exists (ThemeClusterService.clusterIndices scores).
  destruct (clusterIndices_greedy scores) as (H1 & H2 & _).
  pose proof (analyze_clustersOf scores) as Hc.
  split; [exact Hc|]. split; [exact H1|]. split; [exact H2|].
  rewrite (clustersOf_ids _ _ _ Hc). apply NoDup_map_injective.
  - intros a b E. injection E as E.
    apply (f_equal NilEmpty.uint_of_string) in E.
    rewrite !NilEmpty.usu in E. injection E as E.
    now apply DecimalNat.Unsigned.to_uint_inj.
  - assert (Hlt : StronglySorted lt
                    (map fst (ThemeClusterService.clusterIndices scores)))
      by exact H2.
    revert Hlt. generalize (map fst (ThemeClusterService.clusterIndices
                                       scores)).
    induction l as [|a l IH]; intro Hs; constructor.
    + apply StronglySorted_inv in Hs. destruct Hs as [_ Hall].
      rewrite Forall_forall in Hall. intro Hin. specialize (Hall a Hin). lia.
    + apply IH. now apply StronglySorted_inv in Hs.
Qed.

(** X3. The pass is greedy: a unit belongs to the first cluster whose seed
    it is similar to.  For two clusters of [analyze], no member of the
    later one has a cosine similarity of 0.2 or more with the seed of the
    earlier one. *)
Theorem analyze_greedy_separation (scores : list ThreadScore) :
  exists parts : list (nat * list nat),
    clustersOf scores
               (ThemeClusterService.clusters
                  (ThemeClusterService.analyze scores)) parts
    /\ ForallOrdPairs (separated scores) parts.
Proof.
  exists (ThemeClusterService.clusterIndices scores).
  split; [apply analyze_clustersOf|].
  now destruct (clusterIndices_greedy scores) as (_ & _ & H).
Qed.

Lemma sumR_positive (l : list R) (x : R) :
  Forall (fun v => 0 <= v) l -> In x l -> 0 < x -> 0 < sumR l.
Proof.
  induction 1 as [|v l Hv Hl IH]; intros Hin Hx; [contradiction|].
  unfold sumR in *. simpl. pose proof (sumR_nonneg l Hl) as Hs.
  unfold sumR in Hs. destruct Hin as [-> | Hin]; [lra|].
  specialize (IH Hin Hx). lra.
Qed.

Section SelfSimilarity.
Import ThemeClusterService.

(** A non-empty vector of positive weights has similarity 1 with itself. *)
Lemma cosineSimilarity_self (v : Js.JsMap R) :
  Forall (fun kv => 0 < snd kv) v -> v <> [] -> cosineSimilarity v v = 1.
Proof.
  intros Hpos Hne. unfold cosineSimilarity. rewrite accumulate_sums.
  set (l := Js.newSet (Js.keys v ++ Js.keys v)).
  assert (HA : 0 < sumR (map (fun t => Js.getOr v t 0 * Js.getOr v t 0) l)).
  { destruct v as [|[k x] rest]; [now contradiction Hne|].
    apply Forall_inv in Hpos. simpl in Hpos.
    apply (sumR_positive _ (x * x)).
    - apply Forall_forall. intros y Hy. apply in_map_iff in Hy.
      destruct Hy as [t [<- _]]. nra.
    - apply in_map_iff. exists k. split.
      + unfold Js.getOr. simpl. now rewrite String.eqb_refl.
      + unfold l. apply newSet_In. simpl. now left.
    - nra. }
  set (A := sumR (map (fun t => Js.getOr v t 0 * Js.getOr v t 0) l)) in *.
  assert (E : Js.Reqb A 0 = false).
  { destruct (Js.Reqb A 0) eqn:E; [|reflexivity].
    apply Reqb_true in E. lra. }
  rewrite E. simpl. rewrite sqrt_sqrt by lra. field. lra.
Qed.

Lemma vectorAt_nth_error (scores : list ThreadScore) (i : nat)
      (a : ThreadScore) :
  nth_error scores i = Some a -> vectorAt scores i = buildVector a.
Proof.
  intro H. unfold vectorAt.
  apply nth_error_nth. now apply map_nth_error.
Qed.

Lemma threshold_lt_1 : threshold < 1.
Proof. unfold threshold. lra. Qed.

End SelfSimilarity.

(** X4. Units with the same non-empty token-weight vector are never split:
    two positions of the input whose units build equal vectors, with at
    least one token, are members of the same cluster. *)
Theorem same_vector_same_cluster (scores : list ThreadScore) (i j : nat)
        (a b : ThreadScore) :
  nth_error scores i = Some a ->
  nth_error scores j = Some b ->
  ThemeClusterService.buildVector a = ThemeClusterService.buildVector b ->
  ThemeClusterService.buildVector a <> [] ->
  exists parts : list (nat * list nat),
    clustersOf scores
               (ThemeClusterService.clusters
                  (ThemeClusterService.analyze scores)) parts
    /\ exists p, In p parts /\ In i (snd p) /\ In j (snd p).
Proof.
  intros Hi Hj Heq Hne.
  exists (ThemeClusterService.clusterIndices scores).
  split; [apply analyze_clustersOf|].
  destruct (clusterIndices_greedy scores) as (Hseed & _ & Hsep).
  pose proof (clusterIndices_partition scores) as HP.
  assert (Hmem : forall k, (k < List.length scores)%nat ->
                           exists p, In p (ThemeClusterService.clusterIndices
                                             scores) /\ In k (snd p)).
  { intros k Hk.
    assert (Hin : In k (List.concat
                          (map snd (ThemeClusterService.clusterIndices
                                      scores)))).
    { eapply Permutation_in; [symmetry; exact HP|]. apply in_seq. lia. }
    apply in_concat in Hin. destruct Hin as [part [Hpart Hkp]].
    apply in_map_iff in Hpart. destruct Hpart as [p [<- Hp]]. now exists p. }
  destruct (Hmem i) as (pi & Hpi & Hipi);
    [apply nth_error_Some; congruence|].
  destruct (Hmem j) as (pj & Hpj & Hjpj);
    [apply nth_error_Some; congruence|].
  pose proof (vectorAt_nth_error _ _ _ Hi) as Evi.
  pose proof (vectorAt_nth_error _ _ _ Hj) as Evj.
  assert (Hvij : vectorAt scores i = vectorAt scores j) by congruence.
  assert (Hself : ThemeClusterService.cosineSimilarity
                    (vectorAt scores i) (vectorAt scores i) = 1).
  { rewrite Evi. apply cosineSimilarity_self;
      [apply buildVector_positive | exact Hne]. }
  pose proof threshold_lt_1 as Hthr.
  (* a member of [p] is similar to the seed of [p], or is the seed *)
  assert (Hclose : forall p k,
             In p (ThemeClusterService.clusterIndices scores) ->
             In k (snd p) ->
             vectorAt scores k = vectorAt scores i ->
             ThemeClusterService.threshold
             <= ThemeClusterService.cosineSimilarity
                  (vectorAt scores (fst p)) (vectorAt scores i)).
  { intros p k Hp Hk Ek. rewrite Forall_forall in Hseed.
    destruct (Hseed p Hp) as (extra & Esnd & _ & Hall).
    rewrite Esnd in Hk. destruct Hk as [<- | Hk].
    - rewrite Ek, Hself. lra.
    - rewrite Forall_forall in Hall. rewrite <- Ek. exact (proj2 (Hall k Hk)). }
  destruct (ForallOrdPairs_In Hsep pi pj Hpi Hpj) as [E | [Hs | Hs]].
  - subst pj. now exists pi.
  - exfalso. unfold separated in Hs. rewrite Forall_forall in Hs.
    specialize (Hs j Hjpj). rewrite <- Hvij in Hs.
    pose proof (Hclose pi i Hpi Hipi eq_refl). lra.
  - exfalso. unfold separated in Hs. rewrite Forall_forall in Hs.
    specialize (Hs i Hipi).
    pose proof (Hclose pj j Hpj Hjpj (eq_sym Hvij)). lra.
Qed.

Lemma same_vector_same_cluster_witness :
  nth_error [Sample.solar; Sample.quiet; Sample.solar] 0 = Some Sample.solar
  /\ nth_error [Sample.solar; Sample.quiet; Sample.solar] 2
     = Some Sample.solar
  /\ ThemeClusterService.buildVector Sample.solar <> []
  /\ exists parts : list (nat * list nat),
      clustersOf [Sample.solar; Sample.quiet; Sample.solar]
                 (ThemeClusterService.clusters
                    (ThemeClusterService.analyze
                       [Sample.solar; Sample.quiet; Sample.solar])) parts
      /\ exists p, In p parts /\ In 0%nat (snd p) /\ In 2%nat (snd p).
Proof.
  assert (Hne : ThemeClusterService.buildVector Sample.solar <> [])
    by (simpl; discriminate).
  split; [reflexivity|]. split; [reflexivity|]. split; [exact Hne|].
  exact (same_vector_same_cluster
           [Sample.solar; Sample.quiet; Sample.solar] 0 2
           Sample.solar Sample.solar eq_refl eq_refl eq_refl Hne).
Defined.

(* ================================================================== *)
(** * Token vectors and token rankings *)
(* ================================================================== *)

Lemma fold_left_filter {A B} (f : B -> A -> B) (keep : A -> bool)
      (l : list A) (acc : B) :
  fold_left (fun acc x => if keep x then f acc x else acc) l acc
  = fold_left f (filter keep l) acc.
Proof.
  revert acc. induction l as [|x l IH]; intro acc; simpl; [reflexivity|].
  destruct (keep x); simpl; apply IH.
Qed.

Lemma fold_left_pointwise {A B} (f g : B -> A -> B) (l : list A) (acc : B) :
  (forall b a, f b a = g b a) -> fold_left f l acc = fold_left g l acc.
Proof.
  intro H. revert acc. induction l as [|x l IH]; intro acc; simpl;
    [reflexivity|]. now rewrite H, IH.
Qed.

Lemma fold_left_map {A B C} (f : C -> B -> C) (g : A -> B) (l : list A)
      (acc : C) :
  fold_left (fun acc x => f acc (g x)) l acc = fold_left f (map g l) acc.
Proof.
  revert acc. induction l as [|x l IH]; intro acc; simpl; [reflexivity|].
  apply IH.
Qed.

Lemma sumR_app (l1 l2 : list R) : sumR (l1 ++ l2) = sumR l1 + sumR l2.
Proof.
  induction l1 as [|x l1 IH]; unfold sumR in *; simpl; [lra|].
  rewrite IH. lra.
Qed.

Lemma sumR_ones {A} (l : list A) :
  sumR (map (fun _ => 1) l) = INR (List.length l).
Proof.
  induction l as [|x l IH]; [reflexivity|].
  change (sumR (map (fun _ => 1) (x :: l)))
    with (1 + sumR (map (fun _ : A => 1) l)).
  rewrite IH. cbn [List.length]. rewrite S_INR. lra.
Qed.

(** In a map, the entries for a key sum up to the value looked up. *)
Lemma entries_sum_getOr (v : Js.JsMap R) (t : string) :
  NoDup (Js.keys v) ->
  sumR (map snd (filter (fun e => String.eqb (fst e) t) v))
  = Js.getOr v t 0.
Proof.
  unfold Js.getOr.
  induction v as [|[k x] v IH]; simpl; intro Hnd; [reflexivity|].
  inversion Hnd as [|? ? Hk Hnd']; subst.
  destruct (String.eqb k t) eqn:E; simpl.
  - apply String.eqb_eq in E. subst k.
    assert (Hnone : filter (fun e => String.eqb (fst e) t) v = []).
    { clear IH Hnd Hnd'. induction v as [|[k' x'] v IHv]; [reflexivity|].
      simpl in *. destruct (String.eqb k' t) eqn:E'.
      - apply String.eqb_eq in E'. subst. exfalso. apply Hk. now left.
      - apply IHv. intro H. apply Hk. now right. }
    rewrite Hnone. unfold sumR. simpl. lra.
  - now apply IH.
Qed.

Section VectorFacts.
Import ThemeClusterService.

Lemma buildVector_folds (s : ThreadScore) :
  buildVector s
  = fold_left (fun m (k : string) => Js.set m k (Js.getOr m k 0 + 1))
              (matchedKeywords (feature s))
              (fold_left (fun m hit =>
                            Js.set m (slug hit)
                                   (Js.getOr m (slug hit) 0 + hitWeight hit))
                         (filter (fun hit => negb (Js.Rleb (hitWeight hit) 0))
                                 (topicHits (feature s)))
                         []).
Proof.
  unfold buildVector. cbv zeta. f_equal.
  rewrite <- (fold_left_filter
                (fun m hit => Js.set m (slug hit)
                                     (Js.getOr m (slug hit) 0 + hitWeight hit))
                (fun hit => negb (Js.Rleb (hitWeight hit) 0))).
  apply fold_left_pointwise. intros m hit. unfold hitWeight.
  now destruct (Js.Rleb _ 0).
Qed.

Lemma buildVector_NoDup (s : ThreadScore) : NoDup (Js.keys (buildVector s)).
Proof.
  rewrite buildVector_folds.
  rewrite (accum_keys (fun k : string => k) (fun _ => 1)).
  apply fold_add_NoDup.
  rewrite (accum_keys slug hitWeight). apply fold_add_NoDup. constructor.
Qed.

End VectorFacts.

(** X7. The token-weight vector of a unit has one entry per distinct token,
    the tokens being the slugs of its topic hits of positive weight
    [(keywordHits x 2 + bigramHits x 4) x boost] and its matched keywords;
    the weight of a token is the sum of the positive hit weights for that
    slug plus the number of times it is listed as a matched keyword. *)
Theorem buildVector_content (s : ThreadScore) (t : string) :
  let v := ThemeClusterService.buildVector s in
  let hits :=
    filter (fun hit => String.eqb (slug hit) t && Js.Rltb 0 (hitWeight hit))
           (topicHits (feature s)) in
  let listed := filter (String.eqb t) (matchedKeywords (feature s)) in
  NoDup (Js.keys v)
  /\ Js.getOr v t 0 = sumR (map hitWeight hits) + INR (List.length listed)
  /\ (In t (Js.keys v) <-> hits <> [] \/ listed <> []).
Proof.
  cbv zeta. split; [apply buildVector_NoDup|].
  assert (Hfilter :
            filter (fun hit => String.eqb (slug hit) t)
                   (filter (fun hit => negb (Js.Rleb (hitWeight hit) 0))
                           (topicHits (feature s)))
            = filter (fun hit => String.eqb (slug hit) t
                                 && Js.Rltb 0 (hitWeight hit))
                     (topicHits (feature s))).
  { induction (topicHits (feature s)) as [|h hs IH]; [reflexivity|].
    cbn [filter].
    assert (E : negb (Js.Rleb (hitWeight h) 0) = Js.Rltb 0 (hitWeight h)).
    { unfold Js.Rleb, Js.Rltb.
      destruct (Rle_dec (hitWeight h) 0), (Rlt_dec 0 (hitWeight h));
        simpl; try reflexivity; lra. }
    rewrite E. destruct (Js.Rltb 0 (hitWeight h)); cbn [filter];
      destruct (String.eqb (slug h) t); simpl; now rewrite IH. }
  assert (Hlisted :
            filter (fun k => String.eqb k t) (matchedKeywords (feature s))
            = filter (String.eqb t) (matchedKeywords (feature s))).
  { apply filter_ext. intro k. apply String.eqb_sym. }
  split.
  - rewrite buildVector_folds.
    rewrite (accum_getOr (fun k : string => k) (fun _ => 1)).
    rewrite (accum_getOr slug hitWeight).
    rewrite Hfilter, Hlisted, sumR_ones. unfold Js.getOr. simpl. lra.
  - rewrite buildVector_folds.
    rewrite (accum_keys (fun k : string => k) (fun _ => 1)).
    rewrite (accum_keys slug hitWeight).
    rewrite fold_add_In, fold_add_In. simpl. rewrite map_id.
    rewrite <- Hfilter. split.
    + intros [[[] | H] | H].
      * left. apply in_map_iff in H. destruct H as [h [E Hh]].
        intro Hnil.
        assert (Hin : In h (filter (fun hit => String.eqb (slug hit) t)
                                   (filter (fun hit =>
                                              negb (Js.Rleb (hitWeight hit) 0))
                                           (topicHits (feature s))))).
        { apply filter_In. split; [exact Hh | now apply String.eqb_eq]. }
        rewrite Hnil in Hin. contradiction.
      * right. intro Hnil.
        assert (Hin : In t (filter (String.eqb t)
                                   (matchedKeywords (feature s)))).
        { apply filter_In. split; [exact H | apply String.eqb_refl]. }
        rewrite Hnil in Hin. contradiction.
    + intros [H | H].
      * left. right.
        destruct (filter (fun hit => String.eqb (slug hit) t) _)
          as [|h hs] eqn:E; [now contradiction H|].
        assert (Hin : In h (h :: hs)) by now left.
        rewrite <- E in Hin. apply filter_In in Hin.
        destruct Hin as [Hh Es]. apply String.eqb_eq in Es.
        apply in_map_iff. now exists h.
      * right.
        destruct (filter (String.eqb t) _) as [|k ks] eqn:E;
          [now contradiction H|].
        assert (Hin : In k (k :: ks)) by now left.
        rewrite <- E in Hin. apply filter_In in Hin.
        destruct Hin as [Hk Ek]. apply String.eqb_eq in Ek. now subst.
Qed.

Section RankingFacts.
Import ThemeClusterService.

Lemma addVector_fold (vs : list (Js.JsMap R)) :
  fold_left addVector vs []
  = fold_left (fun m (e : string * R) =>
                 Js.set m (fst e) (Js.getOr m (fst e) 0 + snd e))
              (flat_map (fun v => v) vs) [].
Proof.
  rewrite <- (fold_left_flat_map
                (fun m (e : string * R) =>
                   Js.set m (fst e) (Js.getOr m (fst e) 0 + snd e))
                (fun v : Js.JsMap R => v)).
  apply fold_left_pointwise. intros m v. unfold addVector.
  apply fold_left_pointwise. intros m' [k w]. reflexivity.
Qed.

Lemma totals_keys (vs : list (Js.JsMap R)) :
  Js.keys (fold_left addVector vs []) = tokensOf vs.
Proof.
  rewrite addVector_fold, (accum_keys fst snd). unfold tokensOf, Js.newSet.
  f_equal. unfold Js.keys.
  induction vs as [|v vs IH]; simpl; [reflexivity|].
  now rewrite map_app, IH.
Qed.

Lemma totals_weight (vs : list (Js.JsMap R)) (t : string) :
  Forall (fun v => NoDup (Js.keys v)) vs ->
  Js.getOr (fold_left addVector vs []) t 0 = summedWeight vs t.
Proof.
  intro Hnd. rewrite addVector_fold, (accum_getOr fst snd).
  unfold Js.getOr at 1. simpl. rewrite Rplus_0_l. unfold summedWeight.
  induction Hnd as [|v vs Hv Hvs IH]; [reflexivity|].
  cbn [flat_map map]. rewrite filter_app, map_app, sumR_app, IH.
  rewrite (entries_sum_getOr v t Hv). unfold sumR. simpl. lra.
Qed.

(** The first [k] entries of the totals of [vs], sorted by weight, rank
    the tokens of [vs]. *)
Lemma totals_ranking (vs : list (Js.JsMap R)) (k : nat) :
  Forall (fun v => NoDup (Js.keys v)) vs ->
  isRanking vs k (firstn k (Js.sortDescBy snd (fold_left addVector vs []))).
Proof.
  intro Hnd. set (m := fold_left addVector vs []).
  assert (Hk : NoDup (Js.keys m)).
  { unfold m. rewrite totals_keys. apply newSet_NoDup. }
  assert (Hw : forall t v, In (t, v) m -> v = summedWeight vs t).
  { intros t v Hin. rewrite <- (totals_weight vs t Hnd). fold m.
    unfold Js.getOr. now rewrite (NoDup_keys_get m t v Hk Hin). }
  destruct (top_entries m k Hk) as (Hlen & Hnd' & Hs & Hincl & Hmax).
  unfold isRanking. split; [|split; [|split; [|split]]]; auto.
  - rewrite Hlen. f_equal. rewrite <- totals_keys. fold m.
    unfold Js.keys. now rewrite length_map.
  - apply Forall_forall. intros [t v] He. simpl.
    specialize (Hincl _ He). split; [|now apply Hw].
    rewrite <- totals_keys. fold m. unfold Js.keys.
    apply in_map_iff. now exists (t, v).
  - intros t o Ht Hout Ho.
    rewrite <- totals_keys in Ht. fold m in Ht. unfold Js.keys in Ht.
    apply in_map_iff in Ht. destruct Ht as [[t' v] [E Hin]].
    simpl in E. subst t'. rewrite <- (Hw t v Hin).
    exact (Hmax (t, v) o Hin Hout Ho).
Qed.

Lemma vectors_NoDup (scores : list ThreadScore) :
  Forall (fun v => NoDup (Js.keys v)) (map buildVector scores).
Proof.
  apply Forall_forall. intros v Hv. apply in_map_iff in Hv.
  destruct Hv as [s [<- _]]. apply buildVector_NoDup.
Qed.

Lemma vectorAt_NoDup (scores : list ThreadScore) (j : nat) :
  NoDup (Js.keys (vectorAt scores j)).
Proof.
  unfold vectorAt.
  destruct (nth_in_or_default j (map buildVector scores) []) as [H | ->].
  - pose proof (vectors_NoDup scores) as Hall.
    rewrite Forall_forall in Hall. now apply Hall.
  - constructor.
Qed.

End RankingFacts.

(** X5. The global top tokens of [analyze] rank the tokens of all units:
    the (at most) ten heaviest distinct tokens, each with the sum of its
    weights over the vectors of all units, in descending order, no token
    left out weighing more than a listed one. *)
Theorem analyze_global_top_tokens (scores : list ThreadScore) :
  isRanking (map ThemeClusterService.buildVector scores) 10
            (ThemeClusterService.globalTopTokens
               (ThemeClusterService.analyze scores)).
Proof.
  destruct scores as [|s scores].
  - unfold isRanking. simpl.
    split; [reflexivity|]. split; [constructor|]. split; [constructor|].
    split; [constructor|]. intros tok o [].
  - cbn [ThemeClusterService.analyze ThemeClusterService.globalTopTokens].
    apply totals_ranking, vectors_NoDup.
Qed.

(** X6. The top tokens of a cluster rank the tokens of its members: they
    are the tokens of the (at most) two heaviest entries of the summed
    member vectors, distinct, in descending order of summed weight, no
    token of a member left out weighing more than a listed one. *)
Theorem analyze_top_tokens (scores : list ThreadScore) :
  exists parts : list (nat * list nat),
    clustersOf scores
               (ThemeClusterService.clusters
                  (ThemeClusterService.analyze scores)) parts
    /\ Forall2 (fun c p =>
                  exists out,
                    ThemeClusterService.topTokens c = map fst out
                    /\ isRanking (map (vectorAt scores) (snd p)) 2 out)
               (ThemeClusterService.clusters
                  (ThemeClusterService.analyze scores)) parts.
Proof.
  exists (ThemeClusterService.clusterIndices scores).
  split; [apply analyze_clustersOf|].
  rewrite analyze_clusters.
  induction (ThemeClusterService.clusterIndices scores) as [|p ps IH];
    cbn [map]; constructor; [|exact IH].
  cbn [ThemeClusterService.makeCluster ThemeClusterService.topTokens].
  unfold ThemeClusterService.topTokensForCluster.
  eexists. split; [reflexivity|].
  rewrite (fold_left_map ThemeClusterService.addVector
                         (fun index => nth index
                                           (map ThemeClusterService.buildVector
                                                scores) [])).
  apply (totals_ranking (map (vectorAt scores) (snd p)) 2).
  apply Forall_forall. intros v Hv. apply in_map_iff in Hv.
  destruct Hv as [j [<- _]]. apply vectorAt_NoDup.
Qed.

(* ================================================================== *)
(** * The configuration service: cache, collection and multipliers *)
(* ================================================================== *)

Section CacheFacts.
Import GuildFeatureConfigService.

Lemma get_delete_same {V} (m : Js.JsMap V) (k : string) :
  NoDup (Js.keys m) -> Js.get (Js.delete m k) k = None.
Proof.
  induction m as [|[k' v'] m IH]; simpl; intro Hnd; [reflexivity|].
  inversion Hnd as [|? ? Hk Hnd']; subst.
  destruct (String.eqb k' k) eqn:E.
  - apply String.eqb_eq in E. subst k'. now apply get_None_keys.
  - simpl. rewrite E. now apply IH.
Qed.

Lemma get_delete_other {V} (m : Js.JsMap V) (k k0 : string) :
  k <> k0 -> Js.get (Js.delete m k) k0 = Js.get m k0.
Proof.
  intro Hne. induction m as [|[k' v'] m IH]; simpl; [reflexivity|].
  destruct (String.eqb k' k) eqn:E.
  - apply String.eqb_eq in E. subst k'.
    destruct (String.eqb k k0) eqn:E0; [|reflexivity].
    apply String.eqb_eq in E0. contradiction.
  - simpl. destruct (String.eqb k' k0); [reflexivity|exact IH].
Qed.

Lemma keys_delete_NoDup {V} (m : Js.JsMap V) (k : string) :
  NoDup (Js.keys m) -> NoDup (Js.keys (Js.delete m k)).
Proof.
  induction m as [|[k' v'] m IH]; simpl; intro Hnd; [constructor|].
  inversion Hnd as [|? ? Hk Hnd']; subst.
  destruct (String.eqb k' k); [exact Hnd'|].
  simpl. constructor; [|now apply IH].
  intro Hin. apply Hk. clear - Hin.
  induction m as [|[k1 v1] m IH]; simpl in *; [contradiction|].
  destruct (String.eqb k1 k); simpl in *; tauto.
Qed.

Lemma keys_set_NoDup {V} (m : Js.JsMap V) (k : string) (v : V) :
  NoDup (Js.keys m) -> NoDup (Js.keys (Js.set m k v)).
Proof.
  intro Hnd. rewrite keys_set. now apply add_NoDup.
Qed.

Lemma merged_get (extra acc : Js.JsMap R) (c : string) :
  NoDup (Js.keys extra) ->
  Js.get (fold_left (fun acc '(k, v) => Js.set acc k v) extra acc) c
  = match Js.get extra c with
    | Some v => Some v
    | None => Js.get acc c
    end.
Proof.
  revert acc. induction extra as [|[k v] extra IH]; intros acc Hnd;
    [reflexivity|].
  inversion Hnd as [|? ? Hk Hnd']; subst.
  cbn [fold_left Js.get]. rewrite (IH _ Hnd').
  destruct (String.eqb k c) eqn:E.
  - apply String.eqb_eq in E. subst k.
    apply get_None_keys in Hk. rewrite Hk. apply get_set_same.
  - destruct (Js.get extra c); [reflexivity|].
    apply get_set_other. intros ->. now rewrite String.eqb_refl in E.
Qed.

Lemma sanitized_keys (ms : Js.JsMap Js.JsNumber) (acc : Js.JsMap R) :
  NoDup (Js.keys acc) ->
  NoDup (Js.keys (fold_left (fun acc '(channel, weight) =>
                               if String.eqb channel "" then acc
                               else Js.assign acc channel (sanitizeWeight weight))
                            ms acc)).
Proof.
  revert acc. induction ms as [|[k w] ms IH]; intros acc Hnd; [exact Hnd|].
  cbn [fold_left]. apply IH.
  destruct (String.eqb k ""); [exact Hnd|].
  unfold Js.assign. destruct (String.eqb k "__proto__"); [exact Hnd|].
  now apply keys_set_NoDup.
Qed.

Lemma get_app {V} (m1 m2 : Js.JsMap V) (k : string) :
  Js.get (m1 ++ m2)%list k
  = match Js.get m1 k with Some v => Some v | None => Js.get m2 k end.
Proof.
  induction m1 as [|[k' v'] m1 IH]; simpl; [reflexivity|].
  destruct (String.eqb k' k); [reflexivity|exact IH].
Qed.

Lemma sanitized_get (ms : Js.JsMap Js.JsNumber) (c : string) :
  Js.get (fold_left (fun acc '(channel, weight) =>
                       if String.eqb channel "" then acc
                       else Js.assign acc channel (sanitizeWeight weight))
                    ms []) c
  = option_map sanitizeWeight (requested ms c).
Proof.
  unfold requested.
  induction ms as [|[k w] ms IH] using rev_ind.
  - simpl. now destruct (String.eqb c "" || String.eqb c "__proto__").
  - rewrite fold_left_app, rev_app_distr. cbn [fold_left rev app Js.get].
    unfold Js.assign.
    destruct (String.eqb k c) eqn:E.
    + apply String.eqb_eq in E. subst k.
      destruct (String.eqb c "") eqn:E0; [exact IH|].
      destruct (String.eqb c "__proto__") eqn:E1; [exact IH|].
      simpl. apply get_set_same.
    + assert (Hne : k <> c) by (intros ->; now rewrite String.eqb_refl in E).
      destruct (String.eqb k ""); [exact IH|].
      destruct (String.eqb k "__proto__"); [exact IH|].
      rewrite get_set_other by exact Hne. exact IH.
Qed.





Lemma update_unfold (st : State) (g : string) (ms : Js.JsMap Js.JsNumber) :
  updateChannelMultipliers st g ms
  = upsert (snd (listChannelMultipliers st g)) g
      (fun doc =>
         withMultipliers doc
           (Some (fold_left (fun acc '(k, v) => Js.set acc k v)
                    (fold_left (fun acc '(channel, weight) =>
                                  if String.eqb channel "" then acc
                                  else Js.assign acc channel
                                         (sanitizeWeight weight))
                               ms [])
                    (fst (listChannelMultipliers st g))))).
Proof.
  unfold updateChannelMultipliers.
  now destruct (listChannelMultipliers st g).
Qed.


Lemma wellKeyed_set (st : State) (g : string) (d : GuildFeatureConfig) :
  wellKeyed st ->
  match channelMultipliers d with
  | Some m => NoDup (Js.keys m)
  | None => True
  end ->
  Forall (fun gd => match channelMultipliers (snd gd) with
                    | Some m => NoDup (Js.keys m)
                    | None => True
                    end) (Js.set (db st) g d).
Proof.
  intros Hw Hd.
  exact (Forall_set (fun d => match channelMultipliers d with
                              | Some m => NoDup (Js.keys m)
                              | None => True
                              end) (db st) g d Hw Hd).
Qed.



(** A read that finds no property of its own gives the same with and
    without a map, unless the name is one that objects inherit. *)
Lemma readOr_default (m : option (Js.JsMap R)) (c : string) :
  ~ In c Js.prototypeNames ->
  Js.readOr (match m with Some m => m | None => [] end) c 1
  = match m with Some m => Js.readOr m c 1 | None => Js.Number 1 end.
Proof.
  intro Hplain. destruct m as [m|]; [reflexivity|].
  now apply readOr_plain.
Qed.



End CacheFacts.







(** X11. [updateChannelMultipliers] merges.  When the cache entry of the
    guild agrees with the collection, a bulk update makes every channel
    listed in the request under a non-empty key read the sanitised value of
    the weight listed last for it, and leaves the multiplier of every other
    channel, and of every other guild, as it was.  The one exception is a
    name that objects inherit and that the update does not write, read for
    a guild that had no multiplier map: it read the default 1, and it reads
    the inherited member, which is not a number, once the update has
    stored the map. *)
Theorem updateChannelMultipliers_merges
        (st : GuildFeatureConfigService.State) (g : string)
        (ms : Js.JsMap Js.JsNumber) (g' c' : string) :
  synced st g ->
  GuildFeatureConfigService.getChannelMultiplier
    (GuildFeatureConfigService.updateChannelMultipliers st g ms) g' c'
  = match (if String.eqb g' g then requested ms c' else None) with
    | Some w => Js.Number (GuildFeatureConfigService.sanitizeWeight w)
    | None =>
        if (String.eqb g' g && inheritedOnceMapped st g c')%bool
        then Js.NotANumber
        else GuildFeatureConfigService.getChannelMultiplier st g' c'
    end.
Proof.
  intro Hs. rewrite update_unfold.
  unfold GuildFeatureConfigService.getChannelMultiplier at 1.
  unfold GuildFeatureConfigService.upsert.
  cbn [GuildFeatureConfigService.cache].
  destruct (String.eqb_spec g' g) as [->|Hg].
  - rewrite get_set_same.
    cbn [GuildFeatureConfigService.channelMultipliers
           GuildFeatureConfigService.withMultipliers andb].
    unfold Js.readOr at 1.
    rewrite merged_get by (apply sanitized_keys; constructor).
    rewrite sanitized_get.
    destruct (requested ms c') as [w|]; [reflexivity|]. cbn [option_map].
    unfold inheritedOnceMapped, hasMultiplierMap,
      GuildFeatureConfigService.listChannelMultipliers,
      GuildFeatureConfigService.getChannelMultiplier. cbn [fst].
    destruct (Js.get (GuildFeatureConfigService.cache st) g) as [d|] eqn:C.
    + rewrite C.
      destruct (GuildFeatureConfigService.channelMultipliers d) as [m|];
        cbn [negb].
      * rewrite andb_false_r. reflexivity.
      * rewrite andb_true_r. cbn [Js.get].
        now destruct (Js.has Js.prototypeNames c').
    + unfold GuildFeatureConfigService.refresh.
      rewrite <- Hs, C. cbn [GuildFeatureConfigService.cache].
      rewrite get_set_same.
      cbn [GuildFeatureConfigService.channelMultipliers
             GuildFeatureConfigService.created Js.get negb].
      rewrite andb_true_r.
      now destruct (Js.has Js.prototypeNames c').
  - cbn [andb].
    rewrite get_set_other by (intro; apply Hg; congruence).
    unfold GuildFeatureConfigService.listChannelMultipliers. cbn [snd].
    unfold GuildFeatureConfigService.getChannelMultiplier.
    destruct (Js.get (GuildFeatureConfigService.cache st) g) eqn:C;
      [reflexivity|].
    unfold GuildFeatureConfigService.refresh.
    destruct (Js.get (GuildFeatureConfigService.db st) g);
      cbn [GuildFeatureConfigService.cache];
      now rewrite get_set_other by (intro; apply Hg; congruence).
Qed.

Lemma updateChannelMultipliers_merges_witness :
  GuildFeatureConfigService.getChannelMultiplier
    (GuildFeatureConfigService.updateChannelMultipliers
       GuildFeatureConfigService.emptyState "g"
       [("a", Js.Finite 9); ("", Js.Finite 2)]) "g" "a"
  = Js.Number (GuildFeatureConfigService.sanitizeWeight (Js.Finite 9)).
Proof.
  apply (updateChannelMultipliers_merges
           GuildFeatureConfigService.emptyState "g"
           [("a", Js.Finite 9); ("", Js.Finite 2)] "g" "a").
  reflexivity.
Defined.

(* ================================================================== *)
(** * The topic taxonomy: create, find, remove, initialize *)
(* ================================================================== *)

Section TopicFacts.
Import TopicService.

Lemma toLowerChar_idem (c : ascii) :
  Text.toLowerChar (Text.toLowerChar c) = Text.toLowerChar c.
Proof. destruct c as [[] [] [] [] [] [] [] []]; reflexivity. Qed.

Lemma normalized_idem (s : string) : normalized (normalized s) = normalized s.
Proof.
  unfold normalized, Text.toString, Text.ofString, Text.toLowerCase.
  rewrite list_ascii_of_string_of_list_ascii, map_map.
  f_equal. apply map_ext. intro c. apply toLowerChar_idem.
Qed.

Lemma find_normalized (c : Js.JsMap Topic) (s : string) :
  find c s = Js.get c (normalized s).
Proof. reflexivity. Qed.

Lemma Forall_set_entry {V} (P : string * V -> Prop) (m : Js.JsMap V)
      (k : string) (v : V) :
  Forall P m -> P (k, v) -> Forall P (Js.set m k v).
Proof.
  intros Hm Hv. induction Hm as [|[k' v'] m Hh Ht IH]; simpl.
  - now constructor.
  - destruct (String.eqb k' k) eqn:E.
    + apply String.eqb_eq in E. subst k'. now constructor.
    + now constructor.
Qed.

Lemma Forall_delete_entry {V} (P : string * V -> Prop) (m : Js.JsMap V)
      (k : string) :
  Forall P m -> Forall P (Js.delete m k).
Proof.
  intros Hm. induction Hm as [|[k' v'] m Hh Ht IH]; simpl.
  - constructor.
  - destruct (String.eqb k' k); [exact Ht|now constructor].
Qed.

Lemma In_values_set {V} (m : Js.JsMap V) (k : string) (v : V) :
  In v (Js.values (Js.set m k v)).
Proof.
  unfold Js.values. apply in_map_iff. exists (k, v).
  split; [reflexivity|]. apply get_In. apply get_set_same.
Qed.

Lemma keyed_empty : keyedBySlug [].
Proof. split; constructor. Qed.

Lemma keyed_set (m : Js.JsMap Topic) (k : string) (t : Topic) :
  keyedBySlug m -> topicSlug t = k -> normalized k = k ->
  keyedBySlug (Js.set m k t).
Proof.
  intros [Hnd Hf] Hs Hn. split.
  - now apply keys_set_NoDup.
  - apply Forall_set_entry; [exact Hf|]. now split.
Qed.

Lemma keyed_delete (m : Js.JsMap Topic) (k : string) :
  keyedBySlug m -> keyedBySlug (Js.delete m k).
Proof.
  intros [Hnd Hf]. split.
  - now apply keys_delete_NoDup.
  - now apply Forall_delete_entry.
Qed.

Lemma keyed_In (m : Js.JsMap Topic) (k : string) (t : Topic) :
  keyedBySlug m -> In (k, t) m ->
  topicSlug t = k /\ normalized k = k.
Proof.
  intros [_ Hf] Hin. rewrite Forall_forall in Hf. exact (Hf _ Hin).
Qed.

Lemma keyed_values (m : Js.JsMap Topic) (t : Topic) :
  keyedBySlug m -> In t (Js.values m) ->
  In (topicSlug t, t) m /\ normalized (topicSlug t) = topicSlug t.
Proof.
  intros Hk Hin. unfold Js.values in Hin. apply in_map_iff in Hin.
  destruct Hin as ([k t'] & Ht & Hin). simpl in Ht. subst t'.
  destruct (keyed_In m k t Hk Hin) as [Hs Hn]. rewrite Hs. now split.
Qed.

Lemma keyed_load (all : list Topic) (c : Js.JsMap Topic) :
  keyedBySlug c ->
  Forall (fun t => normalized (topicSlug t) = topicSlug t) all ->
  keyedBySlug (fold_left (fun c t => Js.set c (topicSlug t) t) all c).
Proof.
  revert c. induction all as [|t all IH]; intros c Hc Hall; [exact Hc|].
  cbn [fold_left]. apply IH.
  - apply keyed_set; [exact Hc|reflexivity|]. exact (Forall_inv Hall).
  - exact (Forall_inv_tail Hall).
Qed.

Lemma seedDefaults_keyed (failed : string -> bool) (st : State) :
  keyedBySlug (db st) -> keyedBySlug (cache st) ->
  keyedBySlug (db (seedDefaults failed st))
  /\ keyedBySlug (cache (seedDefaults failed st)).
Proof.
  intros Hd Hc. unfold seedDefaults, defaults.
  cbn [fold_left db cache topicSlug].
  destruct (failed "policy"), (failed "energy"), (failed "builder-mp");
    cbn [db cache];
    split; repeat (apply keyed_set; [|reflexivity|reflexivity]); assumption.
Qed.

Lemma reachable_keyed (st : State) :
  reachable st -> keyedBySlug (db st) /\ keyedBySlug (cache st).
Proof.
  induction 1 as [|st failed H [Hd Hc]|st topic H [Hd Hc]|st slug H [Hd Hc]
                  |st slug H [Hd Hc]].
  - split; apply keyed_empty.
  - unfold initialize.
    assert (Hload : keyedBySlug
              (fold_left (fun c t => Js.set c (topicSlug t) t)
                         (firstn 500 (Js.values (db st))) (cache st))).
    { apply keyed_load; [exact Hc|]. apply Forall_forall. intros t Ht.
      apply In_firstn in Ht. now apply (keyed_values (db st)). }
    destruct (Nat.eqb _ 0).
    + apply seedDefaults_keyed; assumption.
    + split; assumption.
  - cbn [create snd db cache topicSlug].
    split; (apply keyed_set; [assumption|reflexivity|apply normalized_idem]).
  - unfold remove. destruct (Js.get (db st) (normalized slug));
      cbn [snd db cache]; [|now split].
    split; now apply keyed_delete.
  - unfold refresh.
    destruct (Js.get (db st) (normalized slug)) as [doc|] eqn:E;
      cbn [snd db cache]; [|now split].
    split; [exact Hd|].
    apply get_In in E. destruct (keyed_In _ _ _ Hd E) as [Hs Hn].
    now apply keyed_set.
Qed.

Lemma keys_by_slug (m : Js.JsMap Topic) :
  keyedBySlug m -> map topicSlug (Js.values m) = Js.keys m.
Proof.
  intros [_ Hf]. unfold Js.values, Js.keys. rewrite map_map.
  apply map_ext_in. intros kv Hin. rewrite Forall_forall in Hf.
  exact (proj1 (Hf kv Hin)).
Qed.

Lemma set_not_nil {V} (m : Js.JsMap V) (k : string) (v : V) :
  Js.set m k v <> [].
Proof.
  destruct m as [|[k' v'] m]; simpl; [discriminate|].
  destruct (String.eqb k' k); discriminate.
Qed.

Lemma load_not_nil (all : list Topic) (c : Js.JsMap Topic) :
  all <> [] \/ c <> [] ->
  fold_left (fun c t => Js.set c (topicSlug t) t) all c <> [].
Proof.
  revert c. induction all as [|t all IH]; intros c H; cbn [fold_left].
  - destruct H as [H|H]; [contradiction|exact H].
  - apply IH. right. apply set_not_nil.
Qed.

End TopicFacts.

(** X12. Round trip of [create] and [find].  After [create], [find]
    returns the created topic for every spelling of its slug that differs
    only in letter case, [list] contains it, and [find] answers as before
    for every other slug. *)
Theorem create_then_find (st : TopicService.State)
        (topic : TopicService.TopicInput) (s : string) :
  TopicService.find
    (TopicService.cache (snd (TopicService.create st topic))) s
  = (if String.eqb (TopicService.normalized s)
                   (TopicService.normalized (TopicService.inSlug topic))
     then Some (fst (TopicService.create st topic))
     else TopicService.find (TopicService.cache st) s)
  /\ In (fst (TopicService.create st topic))
        (TopicService.listTopics (snd (TopicService.create st topic))).
Proof.
  rewrite !find_normalized.
  cbn [TopicService.create snd fst TopicService.cache topicSlug].
  split.
  - destruct (String.eqb_spec (TopicService.normalized s)
                (TopicService.normalized (TopicService.inSlug topic)))
      as [->|Hne].
    + apply get_set_same.
    + apply get_set_other. congruence.
  - unfold TopicService.listTopics. cbn [TopicService.cache].
    apply In_values_set.
Qed.

(** X13. [remove] forgets.  [remove] succeeds exactly when the collection
    holds a topic under the lower-cased slug; after a successful [remove]
    (the cache holding each slug once) [find] returns nothing for every
    spelling of the slug that differs only in letter case and answers as
    before for every other slug; an unsuccessful [remove] changes
    nothing. *)
Theorem remove_then_find (st : TopicService.State) (slug s : string) :
  NoDup (Js.keys (TopicService.cache st)) ->
  (fst (TopicService.remove st slug) = true
   <-> Js.get (TopicService.db st) (TopicService.normalized slug) <> None)
  /\ (if fst (TopicService.remove st slug)
      then TopicService.find
             (TopicService.cache (snd (TopicService.remove st slug))) s
           = (if String.eqb (TopicService.normalized s)
                            (TopicService.normalized slug)
              then None
              else TopicService.find (TopicService.cache st) s)
      else snd (TopicService.remove st slug) = st).
Proof.
  intro Hnd. unfold TopicService.remove.
  destruct (Js.get (TopicService.db st) (TopicService.normalized slug));
    cbn [fst snd TopicService.cache].
  - split; [split; [discriminate|reflexivity]|].
    rewrite !find_normalized.
    destruct (String.eqb_spec (TopicService.normalized s)
                (TopicService.normalized slug)) as [->|Hne].
    + now apply get_delete_same.
    + apply get_delete_other. congruence.
  - split; [|reflexivity]. split; [discriminate|congruence].
Qed.

Lemma remove_then_find_witness :
  TopicService.find
    (TopicService.cache
       (snd (TopicService.remove
               (TopicService.initialize TopicService.noFailure
                                        TopicService.emptyState)
               "Energy")))
    "ENERGY" = None.
Proof.
  pose proof (remove_then_find
                (TopicService.initialize TopicService.noFailure
                                         TopicService.emptyState)
                "Energy" "ENERGY") as H.
  assert (Hnd : NoDup (Js.keys (TopicService.cache
                                  (TopicService.initialize
                                     TopicService.noFailure
                                     TopicService.emptyState)))).
  { repeat constructor; simpl; intuition discriminate. }
  exact (proj2 (H Hnd)).
Defined.

(** X14. [list] and [find] agree.  In every state the service reaches from
    an empty collection through [initialize], [create], [remove] and
    [refresh], the topics returned by [list] have pairwise distinct slugs
    and [find] returns each of them for its own slug. *)
Theorem listed_topics_are_found (st : TopicService.State) :
  TopicService.reachable st ->
  NoDup (map topicSlug (TopicService.listTopics st))
  /\ forall t, In t (TopicService.listTopics st) ->
               TopicService.find (TopicService.cache st) (topicSlug t)
               = Some t.
Proof.
  intro Hr. destruct (reachable_keyed st Hr) as [_ Hc].
  unfold TopicService.listTopics. split.
  - rewrite keys_by_slug by exact Hc. exact (proj1 Hc).
  - intros t Ht. destruct (keyed_values _ t Hc Ht) as [Hin Hn].
    rewrite find_normalized, Hn.
    apply NoDup_keys_get; [exact (proj1 Hc)|exact Hin].
Qed.

Lemma listed_topics_are_found_witness :
  NoDup (map topicSlug
           (TopicService.listTopics
              (TopicService.initialize TopicService.noFailure
                                       TopicService.emptyState)))
  /\ forall t,
       In t (TopicService.listTopics
               (TopicService.initialize TopicService.noFailure
                                        TopicService.emptyState)) ->
       TopicService.find
         (TopicService.cache
            (TopicService.initialize TopicService.noFailure
                                     TopicService.emptyState))
         (topicSlug t) = Some t.
Proof.
  apply listed_topics_are_found. apply TopicService.reach_initialize.
  apply TopicService.reach_empty.
Defined.

(** X15. [initialize] seeds the defaults only when both the collection
    and the cache are empty, and then the taxonomy holds the defaults whose
    upsert did not fail, in their order; otherwise the collection is left
    as it was and the cache keeps the slugs it had.  The taxonomy is empty
    after [initialize] only when the collection and the cache were empty
    and the upserts of all three defaults failed. *)
Theorem initialize_seeds_defaults (failed : string -> bool)
        (st : TopicService.State) :
  (TopicService.listTopics (TopicService.initialize failed st) = []
   <-> TopicService.db st = [] /\ TopicService.cache st = []
       /\ forallb (fun def => failed (topicSlug def)) TopicService.defaults
          = true)
  /\ (TopicService.db st = [] /\ TopicService.cache st = [] ->
      TopicService.listTopics (TopicService.initialize failed st)
      = filter (fun def => negb (failed (topicSlug def)))
               TopicService.defaults)
  /\ (TopicService.db st <> [] \/ TopicService.cache st <> [] ->
      TopicService.db (TopicService.initialize failed st)
      = TopicService.db st
      /\ TopicService.cache (TopicService.initialize failed st)
         = fold_left (fun c t => Js.set c (topicSlug t) t)
                     (firstn 500 (Js.values (TopicService.db st)))
                     (TopicService.cache st)).
Proof.
  assert (Hload : TopicService.db st <> [] \/ TopicService.cache st <> [] ->
                  fold_left (fun c t => Js.set c (topicSlug t) t)
                            (firstn 500 (Js.values (TopicService.db st)))
                            (TopicService.cache st) <> []).
  { intro H. apply load_not_nil. destruct H as [H|H]; [left|now right].
    destruct (TopicService.db st); [contradiction|discriminate]. }
  assert (Hseed : TopicService.db st = [] /\ TopicService.cache st = [] ->
                  TopicService.listTopics (TopicService.initialize failed st)
                  = filter (fun def => negb (failed (topicSlug def)))
                           TopicService.defaults).
  { intros [Hd Hc]. unfold TopicService.initialize. rewrite Hd, Hc.
    cbn [Js.values map firstn fold_left TopicService.cache List.length
           Nat.eqb].
    unfold TopicService.seedDefaults, TopicService.defaults,
      TopicService.listTopics.
    cbn [fold_left filter topicSlug].
    destruct (failed "policy"), (failed "energy"), (failed "builder-mp");
      reflexivity. }
  assert (Hkept : TopicService.db st <> [] \/ TopicService.cache st <> [] ->
                  TopicService.listTopics (TopicService.initialize failed st)
                  <> []).
  { intro H. specialize (Hload H).
    unfold TopicService.initialize, TopicService.listTopics.
    cbn [TopicService.cache].
    destruct (fold_left _ _ (TopicService.cache st)) as [|e l];
      [contradiction|].
    cbn [List.length Nat.eqb TopicService.cache Js.values map].
    discriminate. }
  split; [|split; [exact Hseed|]].
  - split.
    + intro Hnil.
      assert (Hd : TopicService.db st = []).
      { destruct (TopicService.db st) as [|d ds]; [reflexivity|].
        exfalso. apply Hkept; [left; discriminate|exact Hnil]. }
      assert (Hc : TopicService.cache st = []).
      { destruct (TopicService.cache st) as [|c cs]; [reflexivity|].
        exfalso. apply Hkept; [right; discriminate|exact Hnil]. }
      split; [exact Hd|]. split; [exact Hc|].
      rewrite (Hseed (conj Hd Hc)) in Hnil.
      unfold TopicService.defaults in *.
      cbn [filter forallb topicSlug] in *.
      destruct (failed "policy"), (failed "energy"), (failed "builder-mp");
        try discriminate; reflexivity.
    + intros (Hd & Hc & Hall). rewrite (Hseed (conj Hd Hc)).
      unfold TopicService.defaults in *.
      cbn [filter forallb topicSlug] in *.
      destruct (failed "policy"), (failed "energy"), (failed "builder-mp");
        try discriminate; reflexivity.
  - intro H. specialize (Hload H). unfold TopicService.initialize.
    cbn [TopicService.cache].
    destruct (fold_left _ _ (TopicService.cache st)); [contradiction|].
    now split.
Qed.

Lemma initialize_seeds_defaults_witness :
  TopicService.listTopics
    (TopicService.initialize (String.eqb "energy") TopicService.emptyState)
  = filter (fun def => negb (String.eqb "energy" (topicSlug def)))
           TopicService.defaults
  /\ map topicSlug
         (TopicService.listTopics
            (TopicService.initialize (String.eqb "energy")
                                     TopicService.emptyState))
     = ["policy"; "builder-mp"].
Proof.
  destruct (initialize_seeds_defaults (String.eqb "energy")
              TopicService.emptyState) as (_ & H & _).
  split; [apply H; split; reflexivity|].
  rewrite (H (conj eq_refl eq_refl)). reflexivity.
Defined.

(* ================================================================== *)
(** * The summarizer: stems, tokens and sentence documents *)
(* ================================================================== *)

Section StringFacts.

Lemma toString_app (a b : Text.chars) :
  Text.toString (a ++ b)%list = Text.toString a ++ Text.toString b.
Proof.
  unfold Text.toString. induction a as [|c a IH]; simpl; [reflexivity|].
  now rewrite IH.
Qed.

Lemma toString_ofString (s : string) : Text.toString (Text.ofString s) = s.
Proof. apply string_of_list_ascii_of_string. Qed.

Lemma ofString_toString (l : Text.chars) :
  Text.ofString (Text.toString l) = l.
Proof. apply list_ascii_of_string_of_list_ascii. Qed.

Lemma length_ofString (s : string) :
  List.length (Text.ofString s) = String.length s.
Proof.
  unfold Text.ofString. induction s as [|c s IH]; simpl; [reflexivity|].
  now rewrite IH.
Qed.

Lemma length_toString (l : Text.chars) :
  String.length (Text.toString l) = List.length l.
Proof. now rewrite <- length_ofString, ofString_toString. Qed.

Lemma startsWith_app (p s : Text.chars) :
  Text.startsWith p s = true -> exists r, s = (p ++ r)%list.
Proof.
  revert s. induction p as [|a p IH]; intros s H.
  - now exists s.
  - destruct s as [|b s]; [discriminate|]. simpl in H.
    apply andb_prop in H. destruct H as [Hab Hp].
    apply Ascii.eqb_eq in Hab. subst b.
    destruct (IH s Hp) as [r ->]. now exists r.
Qed.

Lemma endsWith_split (p t : Text.chars) :
  Text.endsWith p t = true ->
  t = (Summarizer.dropLast (List.length p) t ++ p)%list.
Proof.
  unfold Text.endsWith. intro H.
  destruct (startsWith_app _ _ H) as [r Hr].
  assert (Ht : t = (rev r ++ p)%list).
  { rewrite <- (rev_involutive t), Hr, rev_app_distr.
    now rewrite rev_involutive. }
  unfold Summarizer.dropLast. rewrite Ht at 2 3.
  rewrite length_app, Nat.add_sub.
  rewrite firstn_app, Nat.sub_diag, firstn_all. simpl.
  now rewrite app_nil_r.
Qed.

End StringFacts.

Section StemFacts.
Import Summarizer.

Lemma stem_cut (k : nat) (p : string) (token : string) :
  Text.endsWith (Text.ofString p) (Text.ofString token) = true ->
  String.length p = k ->
  token = Text.toString (dropLast k (Text.ofString token)) ++ p
  /\ String.length (Text.toString (dropLast k (Text.ofString token)))
     = (String.length token - k)%nat.
Proof.
  intros H Hk. split.
  - apply endsWith_split in H. rewrite length_ofString, Hk in H.
    rewrite <- (toString_ofString token) at 1. rewrite H at 1.
    now rewrite toString_app, toString_ofString.
  - rewrite length_toString. unfold dropLast.
    rewrite length_firstn, length_ofString. lia.
Qed.

End StemFacts.

(** X16. [stem] removes at most one suffix.  The stem of a token is the
    token without one of the endings [ing], [ers], [ed], [es], [s], or the
    token itself; tokens of at most 4 characters are never changed, and the
    stem of a longer token keeps at least 2 characters. *)
Theorem stem_removes_one_suffix (token : string) :
  (exists suffix,
      In suffix [""; "ing"; "ers"; "ed"; "es"; "s"]
      /\ token = Summarizer.stem token ++ suffix)
  /\ ((String.length token <= 4)%nat -> Summarizer.stem token = token)
  /\ ((4 < String.length token)%nat ->
      (2 <= String.length (Summarizer.stem token))%nat).
Proof.
  assert (Hnil : forall s : string, s = s ++ "").
  { induction s as [|c s IH]; simpl; [reflexivity|]. now rewrite <- IH. }
  unfold Summarizer.stem. rewrite length_ofString.
  destruct (String.length token <=? 4)%nat eqn:E4.
  - apply Nat.leb_le in E4.
    split; [exists ""; split; [now left|apply Hnil]|].
    split; [reflexivity|lia].
  - apply Nat.leb_gt in E4.
    destruct (Text.endsWith (Text.ofString "ing") (Text.ofString token))
      eqn:Eing.
    { destruct (stem_cut 3 "ing" token Eing eq_refl) as [Hs Hl].
      cbn [orb]. split; [exists "ing"; split; [simpl; tauto|exact Hs]|].
      split; lia. }
    destruct (Text.endsWith (Text.ofString "ers") (Text.ofString token))
      eqn:Eers.
    { destruct (stem_cut 3 "ers" token Eers eq_refl) as [Hs Hl].
      cbn [orb]. split; [exists "ers"; split; [simpl; tauto|exact Hs]|].
      split; lia. }
    cbn [orb].
    destruct (Text.endsWith (Text.ofString "ed") (Text.ofString token))
      eqn:Eed.
    { destruct (stem_cut 2 "ed" token Eed eq_refl) as [Hs Hl].
      cbn [orb]. split; [exists "ed"; split; [simpl; tauto|exact Hs]|].
      split; lia. }
    destruct (Text.endsWith (Text.ofString "es") (Text.ofString token))
      eqn:Ees.
    { destruct (stem_cut 2 "es" token Ees eq_refl) as [Hs Hl].
      cbn [orb]. split; [exists "es"; split; [simpl; tauto|exact Hs]|].
      split; lia. }
    cbn [orb].
    destruct (Text.endsWith (Text.ofString "s") (Text.ofString token))
      eqn:Es.
    { assert (H3 : (3 <? String.length token)%nat = true)
        by (apply Nat.ltb_lt; lia).
      rewrite H3. cbn [andb].
      destruct (stem_cut 1 "s" token Es eq_refl) as [Hs Hl].
      split; [exists "s"; split; [simpl; tauto|exact Hs]|].
      split; lia. }
    cbn [andb].
    split; [exists ""; split; [now left|apply Hnil]|].
    split; lia.
Qed.

Section TokenFacts.
Import Summarizer.

Lemma tokenRuns_spec (s : Text.chars) :
  forall cur,
    forallb isTokenChar cur = true ->
    Forall (fun r => r <> [] /\ forallb isTokenChar r = true)
           (tokenRuns cur s)
    /\ List.concat (tokenRuns cur s) = (cur ++ filter isTokenChar s)%list.
Proof.
  induction s as [|c s IH]; intros cur Hcur; cbn [tokenRuns filter].
  - destruct cur as [|a cur].
    + split; [constructor|reflexivity].
    + split; [constructor; [split; [discriminate|exact Hcur]|constructor]|].
      simpl. now rewrite !app_nil_r.
  - destruct (isTokenChar c) eqn:Ec.
    + destruct (IH (cur ++ [c])%list) as [HF HC].
      { rewrite forallb_app, Hcur. simpl. now rewrite Ec. }
      split; [exact HF|]. rewrite HC. now rewrite <- app_assoc.
    + destruct (IH [] eq_refl) as [HF HC].
      destruct cur as [|a cur].
      * split; [exact HF|]. exact HC.
      * split; [constructor; [split; [discriminate|exact Hcur]|exact HF]|].
        cbn [List.concat]. rewrite HC. reflexivity.
Qed.

End TokenFacts.

(** X17. [tokenize] loses nothing and adds nothing.  Every token is
    non-empty and consists of the characters [a-z0-9[]] only, and the
    tokens, read one after the other, are exactly the characters of that
    class of the text, in order. *)
Theorem tokenize_tokens (text : string) :
  Forall (fun t => t <> ""
                   /\ forallb Summarizer.isTokenChar (Text.ofString t) = true)
         (Summarizer.tokenize text)
  /\ List.concat (map Text.ofString (Summarizer.tokenize text))
     = filter Summarizer.isTokenChar (Text.ofString text).
Proof.
  unfold Summarizer.tokenize.
  destruct (tokenRuns_spec (Text.ofString text) [] eq_refl) as [HF HC].
  split.
  - apply Forall_map. eapply Forall_impl; [|exact HF].
    intros r [Hne Hall]. rewrite ofString_toString. split; [|exact Hall].
    destruct r; [contradiction|discriminate].
  - rewrite map_map.
    rewrite (map_ext _ (fun r => r)) by (intro r; apply ofString_toString).
    rewrite map_id. exact HC.
Qed.

Section DocumentFacts.
Import Summarizer.

Lemma bigrams_length (ts : list string) :
  List.length (bigrams ts) = (List.length ts - 1)%nat.
Proof.
  induction ts as [|a [|b ts] IH]; try reflexivity.
  change (bigrams (a :: b :: ts)) with ((a ++ "_" ++ b) :: bigrams (b :: ts)).
  cbn [List.length] in *. rewrite IH. lia.
Qed.

Lemma trigrams_length (ts : list string) :
  List.length (trigrams ts) = (List.length ts - 2)%nat.
Proof.
  induction ts as [|a [|b [|c ts]] IH]; try reflexivity.
  change (trigrams (a :: b :: c :: ts))
    with ((a ++ "_" ++ b ++ "_" ++ c) :: trigrams (b :: c :: ts)).
  cbn [List.length] in *. rewrite IH. lia.
Qed.

Lemma countTokens_keys (l : list string) (m : Js.JsMap nat) :
  Js.keys (fold_left (fun tf token =>
                        Js.set tf token (Js.getOr tf token 0 + 1)%nat) l m)
  = fold_left Js.add l (Js.keys m).
Proof.
  revert m. induction l as [|x l IH]; intro m; cbn [fold_left];
    [reflexivity|].
  rewrite IH, keys_set. reflexivity.
Qed.

Lemma countTokens_get (l : list string) (t : string) :
  forall m : Js.JsMap nat,
    Js.getOr (fold_left (fun tf token =>
                           Js.set tf token (Js.getOr tf token 0 + 1)%nat) l m)
             t 0%nat
    = (Js.getOr m t 0 + count_occ string_dec l t)%nat.
Proof.
  induction l as [|x l IH]; intro m; cbn [fold_left count_occ]; [lia|].
  rewrite IH. unfold Js.getOr at 1.
  destruct (string_dec x t) as [->|Hne].
  - rewrite get_set_same. lia.
  - rewrite get_set_other by exact Hne. fold (Js.getOr m t 0%nat). lia.
Qed.

Lemma sentenceDoc_wellFormed (m : MessageForSummary) (pos : nat)
      (s : string) (d : SentenceDoc) :
  sentenceDoc m pos s = Some d -> wellFormedDoc d.
Proof.
  unfold sentenceDoc. destruct (normalize s) as [|c0 s0]; [discriminate|].
  set (filtered := filter _ (map stem (tokenize (String c0 s0)))).
  destruct (filtered ++ buildNgrams filtered)%list as [|x l] eqn:E;
    [discriminate|].
  intros [= <-]. unfold wellFormedDoc. cbn [tokens ngrams docLength
    uniqueTokens tf]. rewrite <- E.
  split; [|split; [|split; [|split; [|split; [|split; [|split]]]]]].
  - intro H. rewrite H in E. discriminate.
  - apply Forall_forall. intros t Ht. unfold filtered in Ht.
    apply filter_In in Ht. destruct Ht as [_ Ht].
    apply andb_prop in Ht. destruct Ht as [Ht Hs].
    apply andb_prop in Ht. destruct Ht as [H2 H24].
    apply Nat.leb_le in H2. apply Nat.leb_le in H24.
    split; [lia|]. apply has_not_In.
    now destruct (Js.has stopwords t).
  - unfold buildNgrams. rewrite length_app, bigrams_length, trigrams_length.
    reflexivity.
  - change (S (List.length l)) with (List.length (x :: l)). rewrite <- E.
    unfold buildNgrams.
    rewrite !length_app, bigrams_length, trigrams_length. lia.
  - apply newSet_NoDup.
  - intro t. apply newSet_In.
  - unfold countTokens. rewrite countTokens_keys. reflexivity.
  - intro t. unfold countTokens. rewrite countTokens_get. reflexivity.
Qed.

Lemma sentences_loop_Forall (P : SentenceDoc -> Prop)
      (m : MessageForSummary) (sentences : list string) :
  (forall pos s d, sentenceDoc m pos s = Some d -> P d) ->
  forall st : list SentenceDoc * nat,
    Forall P (fst st) ->
    Forall P (fst (fold_left
                     (fun '(docs, position) sentence =>
                        match sentenceDoc m position sentence with
                        | None => (docs, position)
                        | Some doc => ((docs ++ [doc])%list, S position)
                        end) sentences st)).
Proof.
  intro HP. induction sentences as [|s sentences IH]; intros [docs pos] H;
    cbn [fold_left]; [exact H|].
  apply IH. destruct (sentenceDoc m pos s) as [d|] eqn:E; [|exact H].
  cbn [fst] in *. apply Forall_app. split; [exact H|].
  constructor; [|constructor]. exact (HP _ _ _ E).
Qed.

Lemma buildSentenceDocs_Forall (P : SentenceDoc -> Prop)
      (messages : list MessageForSummary) :
  (forall m pos s d, sentenceDoc m pos s = Some d -> P d) ->
  Forall P (buildSentenceDocs messages).
Proof.
  intro HP. unfold buildSentenceDocs.
  assert (H : forall st : list SentenceDoc * nat,
             Forall P (fst st) ->
             Forall P (fst (fold_left
               (fun '(docs, position) message =>
                  let sanitized := stripFormatting (content message) in
                  let originalSentences := splitSentences sanitized in
                  fold_left (fun '(docs, position) sentence =>
                               match sentenceDoc message position sentence
                               with
                               | None => (docs, position)
                               | Some doc =>
                                   ((docs ++ [doc])%list, S position)
                               end)
                            originalSentences (docs, position))
               messages st))).
  { induction messages as [|m messages IH]; intros [docs pos] H;
      cbn [fold_left]; [exact H|].
    apply IH. apply sentences_loop_Forall; [apply HP|exact H]. }
  apply H. constructor.
Qed.

End DocumentFacts.

(** X18. Sentence documents are well formed.  Every document that
    [buildSentenceDocs] returns has at least one token; its tokens have 2
    to 24 characters and are no stopwords; it has one bigram per adjacent
    pair and one trigram per adjacent triple of tokens; its length is the
    number of tokens and n-grams; its unique tokens are these, once each,
    and are the keys of its term frequencies, which count occurrences. *)
Theorem sentence_docs_well_formed (messages : list MessageForSummary) :
  Forall wellFormedDoc (Summarizer.buildSentenceDocs messages).
Proof.
  apply buildSentenceDocs_Forall.
  intros m pos s d H. exact (sentenceDoc_wellFormed m pos s d H).
Qed.

(* ================================================================== *)
(** * The summarizer: redundancy and the greedy selection *)
(* ================================================================== *)

Section SimilarityFacts.
Import Summarizer.

(** The running maximum of the loop of [maxSimilarity]. *)
Lemma maxSimilarity_fold (f : SentenceDoc -> R) (others : list SentenceDoc) :
  forall acc,
    let r := fold_left (fun max other =>
                          if Js.Rltb max (f other) then f other else max)
                       others acc in
    acc <= r
    /\ (forall o, In o others -> f o <= r)
    /\ (r = acc \/ exists o, In o others /\ r = f o).
Proof.
  induction others as [|o others IH]; intro acc; cbn [fold_left].
  - split; [lra|]. split; [intros o []|now left].
  - cbv zeta in IH.
    destruct (Js.Rltb acc (f o)) eqn:E.
    + apply Rltb_true in E.
      destruct (IH (f o)) as (H1 & H2 & H3).
      split; [lra|]. split.
      * intros o' [<-|Ho']; [exact H1|now apply H2].
      * right. destruct H3 as [H3|(o' & Ho' & H3)].
        -- exists o. split; [now left|exact H3].
        -- exists o'. split; [now right|exact H3].
    + apply Rltb_false in E.
      destruct (IH acc) as (H1 & H2 & H3).
      split; [exact H1|]. split.
      * intros o' [<-|Ho']; [lra|now apply H2].
      * destruct H3 as [H3|(o' & Ho' & H3)]; [now left|].
        right. exists o'. split; [now right|exact H3].
Qed.

Lemma maxSimilarity_unfold (doc : SentenceDoc) (others : list SentenceDoc) :
  maxSimilarity doc others
  = fold_left (fun max other =>
                 if Js.Rltb max (tokenOverlap doc other)
                 then tokenOverlap doc other else max)
              others 0.
Proof.
  unfold maxSimilarity. destruct others as [|o others]; reflexivity.
Qed.

Lemma overlap_range (doc o : SentenceDoc) :
  NoDup (uniqueTokens doc) -> 0 <= tokenOverlap doc o <= 1.
Proof.
  intro Hnd. unfold tokenOverlap. cbv zeta.
  set (u := uniqueTokens doc) in *. set (v := uniqueTokens o).
  assert (Hle : (List.length (filter (Js.has v) u)
                 <= List.length (Js.newSet (u ++ v)%list))%nat).
  { transitivity (List.length u).
    - clear. induction u as [|x u IH]; simpl; [lia|].
      destruct (Js.has v x); simpl; lia.
    - apply NoDup_incl_length; [exact Hnd|].
      intros x Hx. apply newSet_In. apply in_or_app. now left. }
  destruct (List.length (Js.newSet (u ++ v)%list)) as [|k] eqn:E.
  - assert (H0 : List.length (filter (Js.has v) u) = 0%nat) by lia.
    rewrite H0. simpl. lra.
  - assert (Hpos : 0 < INR (S k)) by (apply lt_0_INR; lia).
    split.
    + apply Rmult_le_pos; [apply pos_INR|].
      left. now apply Rinv_0_lt_compat.
    + apply Rmult_le_reg_r with (INR (S k)); [exact Hpos|].
      unfold Rdiv. rewrite Rmult_assoc, Rinv_l by lra.
      rewrite Rmult_1_r, Rmult_1_l. now apply le_INR.
Qed.

Lemma overlap_disjoint (doc o : SentenceDoc) :
  (forall t, In t (uniqueTokens doc) -> ~ In t (uniqueTokens o)) ->
  tokenOverlap doc o = 0.
Proof.
  intro H. unfold tokenOverlap. cbv zeta.
  set (u := uniqueTokens doc) in *. set (v := uniqueTokens o) in *.
  assert (E : filter (Js.has v) u = []).
  { clearbody u v. induction u as [|x u IH]; [reflexivity|]. simpl.
    assert (Hx : Js.has v x = false).
    { apply has_not_In. apply H. now left. }
    rewrite Hx. apply IH. intros t Ht. apply H. now right. }
  rewrite E. simpl. unfold Rdiv. apply Rmult_0_l.
Qed.

Lemma overlap_same (doc o : SentenceDoc) :
  NoDup (uniqueTokens doc) -> uniqueTokens doc <> [] ->
  (forall t, In t (uniqueTokens o) <-> In t (uniqueTokens doc)) ->
  tokenOverlap doc o = 1.
Proof.
  intros Hnd Hne Hsame. unfold tokenOverlap. cbv zeta.
  set (u := uniqueTokens doc) in *. set (v := uniqueTokens o) in *.
  assert (E : filter (Js.has v) u = u).
  { assert (H : forall w, incl w u -> filter (Js.has v) w = w).
    { induction w as [|x w IH]; intro Hi; [reflexivity|]. simpl.
      assert (Hx : Js.has v x = true).
      { apply has_In. apply Hsame. apply Hi. now left. }
      rewrite Hx. f_equal. apply IH. intros t Ht. apply Hi. now right. }
    apply H. apply incl_refl. }
  assert (L : List.length (Js.newSet (u ++ v)%list) = List.length u).
  { apply Permutation_length. apply NoDup_Permutation.
    - apply newSet_NoDup.
    - exact Hnd.
    - intro t. rewrite newSet_In, in_app_iff. rewrite Hsame. tauto. }
  rewrite E, L.
  destruct u as [|x u]; [contradiction|]. cbn [List.length].
  apply Rinv_r. apply not_0_INR. discriminate.
Qed.

End SimilarityFacts.

(** X19. Range of [maxSimilarity].  For a document whose unique tokens are
    a set, the redundancy with a list of documents lies in [0, 1]; it is 0
    when the document shares no token with any of them (in particular for
    an empty list), and 1 when one of them has the same, non-empty, set of
    unique tokens. *)
Theorem maxSimilarity_range (doc : Summarizer.SentenceDoc)
        (others : list Summarizer.SentenceDoc) :
  NoDup (Summarizer.uniqueTokens doc) ->
  0 <= Summarizer.maxSimilarity doc others <= 1
  /\ ((forall o t, In o others -> In t (Summarizer.uniqueTokens doc) ->
                   ~ In t (Summarizer.uniqueTokens o)) ->
      Summarizer.maxSimilarity doc others = 0)
  /\ (Summarizer.uniqueTokens doc <> [] ->
      (exists o, In o others
                 /\ forall t, In t (Summarizer.uniqueTokens o)
                              <-> In t (Summarizer.uniqueTokens doc)) ->
      Summarizer.maxSimilarity doc others = 1).
Proof.
  intro Hnd. rewrite maxSimilarity_unfold.
  pose proof (maxSimilarity_fold (tokenOverlap doc) others 0) as H.
  cbv zeta in H. destruct H as (H0 & Hall & Hex).
  assert (Hup : fold_left (fun max other =>
                             if Js.Rltb max (tokenOverlap doc other)
                             then tokenOverlap doc other else max)
                          others 0 <= 1).
  { destruct Hex as [->|(o & Ho & ->)]; [lra|].
    apply overlap_range, Hnd. }
  split; [split; [exact H0|exact Hup]|]. split.
  - intro Hdis. destruct Hex as [->|(o & Ho & ->)]; [reflexivity|].
    apply overlap_disjoint. intros t Ht. now apply (Hdis o t).
  - intros Hne (o & Ho & Hsame).
    pose proof (Hall o Ho) as Hge.
    rewrite (overlap_same _ _ Hnd Hne Hsame) in Hge.
    apply Rle_antisym; [exact Hup|exact Hge].
Qed.

Lemma maxSimilarity_range_witness :
  let docs := Summarizer.buildSentenceDocs Sample.twoSentences in
  let first := nth 0 docs Summarizer.undefinedDoc in
  let second := nth 1 docs Summarizer.undefinedDoc in
  0 <= Summarizer.maxSimilarity first [second] <= 1
  /\ Summarizer.maxSimilarity first [second] = 0
  /\ Summarizer.maxSimilarity first [second; first] = 1.
Proof.
  cbv zeta.
  set (docs := Summarizer.buildSentenceDocs Sample.twoSentences).
  set (first := nth 0 docs Summarizer.undefinedDoc).
  set (second := nth 1 docs Summarizer.undefinedDoc).
  assert (U1 : Summarizer.uniqueTokens first
               = ["solar"; "panel"; "shipp"; "solar_panel"; "panel_shipp";
                  "solar_panel_shipp"]) by (vm_compute; reflexivity).
  assert (U2 : Summarizer.uniqueTokens second
               = ["budget"; "approv"; "today"; "budget_approv";
                  "approv_today"; "budget_approv_today"])
    by (vm_compute; reflexivity).
  assert (Hnd : NoDup (Summarizer.uniqueTokens first)).
  { rewrite U1. repeat constructor; simpl; intuition discriminate. }
  assert (Hdis : forallb (fun t => negb (Js.has (Summarizer.uniqueTokens
                                                   second) t))
                         (Summarizer.uniqueTokens first) = true)
    by (rewrite U1, U2; reflexivity).
  destruct (maxSimilarity_range first [second] Hnd) as (Hr & Hz & _).
  destruct (maxSimilarity_range first [second; first] Hnd) as (_ & _ & Ho).
  split; [exact Hr|]. split.
  - apply Hz. intros o t [<-|[]] Ht.
    rewrite forallb_forall in Hdis. specialize (Hdis t Ht).
    apply negb_true_iff in Hdis.
    exact (proj1 (has_not_In (Summarizer.uniqueTokens second) t) Hdis).
  - apply Ho.
    + rewrite U1. discriminate.
    + exists first. split; [right; left; reflexivity|tauto].
Defined.

Section GreedySelection.
Import Summarizer.

Lemma pickBest_max (docs : list SentenceDoc) (scores : list R)
      (selected candidates : list nat) (first : nat) :
  forall c, In c candidates ->
            mmrValue docs scores selected c
            <= mmrValue docs scores selected
                 (pickBest docs scores selected candidates first).
Proof.
  unfold pickBest.
  assert (Hgen : forall (cs seen : list nat) (acc : nat * option R),
             match snd acc with
             | None => seen = []
             | Some v => v = mmrValue docs scores selected (fst acc)
                         /\ forall c, In c seen ->
                                      mmrValue docs scores selected c <= v
             end ->
             let r := fold_left
               (fun '(bestIndex, bestScore) candidate =>
                  let relevance := nth candidate scores 0 in
                  let redundancy :=
                    maxSimilarity (nth candidate docs undefinedDoc)
                                  (map (fun idx => nth idx docs undefinedDoc)
                                       selected) in
                  let mmr := lambda * relevance - (1 - lambda) * redundancy in
                  let better := match bestScore with
                                | None => true
                                | Some b => Js.Rltb b mmr
                                end in
                  if better then (candidate, Some mmr)
                  else (bestIndex, bestScore)) cs acc in
             match snd r with
             | None => (seen ++ cs)%list = []
             | Some v => v = mmrValue docs scores selected (fst r)
                         /\ forall c, In c (seen ++ cs)%list ->
                                      mmrValue docs scores selected c <= v
             end).
  { induction cs as [|x cs IH]; intros seen [bi bs] Hacc; cbn [fold_left].
    - cbv zeta. rewrite app_nil_r. exact Hacc.
    - cbv zeta in IH |- *.
      replace (seen ++ x :: cs)%list with ((seen ++ [x]) ++ cs)%list
        by (rewrite <- app_assoc; reflexivity).
      apply IH. cbn [snd fst] in Hacc.
      fold (mmrValue docs scores selected x).
      destruct bs as [b|].
      + destruct Hacc as [Hb Hseen].
        destruct (Js.Rltb b (mmrValue docs scores selected x)) eqn:E;
          cbn [snd fst].
        * apply Rltb_true in E. split; [reflexivity|].
          intros c Hc. apply in_app_or in Hc.
          destruct Hc as [Hc|[<-|[]]]; [|lra].
          specialize (Hseen c Hc). lra.
        * apply Rltb_false in E. split; [exact Hb|].
          intros c Hc. apply in_app_or in Hc.
          destruct Hc as [Hc|[<-|[]]]; [now apply Hseen|exact E].
      + cbn [snd fst]. split; [reflexivity|].
        intros c Hc. subst seen. destruct Hc as [<-|[]]. lra. }
  intros c Hc.
  specialize (Hgen candidates [] (first, None) eq_refl).
  cbv zeta in Hgen. cbn [app] in Hgen.
  destruct (snd (fold_left _ candidates (first, None))) as [v|].
  - destruct Hgen as [Hv Hall]. rewrite <- Hv. now apply Hall.
  - subst candidates. contradiction.
Qed.

Lemma removeFirst_other (x c : nat) (l : list nat) :
  In c l -> c <> x -> In c (removeFirst x l).
Proof.
  induction l as [|y l IH]; simpl; [tauto|]. intros [->|Hc] Hne.
  - destruct (Nat.eqb_spec c x); [contradiction|now left].
  - destruct (Nat.eqb y x); [exact Hc|]. right. now apply IH.
Qed.

Lemma mmrLoop_greedy (docs : list SentenceDoc) (scores : list R)
      (room : nat) :
  forall candidates selected,
  exists picked,
    mmrLoop docs scores room candidates selected = (selected ++ picked)%list
    /\ forall k c, (k < List.length picked)%nat -> In c candidates ->
                   ~ In c (firstn k picked) ->
                   mmrValue docs scores (selected ++ firstn k picked)%list c
                   <= mmrValue docs scores (selected ++ firstn k picked)%list
                        (nth k picked 0%nat).
Proof.
  induction room as [|room IH]; intros candidates selected.
  - exists []. split.
    + simpl. rewrite app_nil_r. now destruct candidates.
    + intros k c Hk. simpl in Hk. lia.
  - destruct candidates as [|first cs].
    + exists []. split; [simpl; now rewrite app_nil_r|].
      intros k c Hk. simpl in Hk. lia.
    + cbn [mmrLoop].
      set (best := pickBest docs scores selected (first :: cs) first).
      destruct (IH (removeFirst best (first :: cs)) (selected ++ [best])%list)
        as (picked & E & Hg).
      exists (best :: picked). split.
      * rewrite E. now rewrite <- app_assoc.
      * intros k c Hk Hc Hnot. destruct k as [|k].
        -- cbn [firstn nth]. rewrite app_nil_r.
           now apply pickBest_max.
        -- cbn [firstn nth].
           replace (selected ++ best :: firstn k picked)%list
             with ((selected ++ [best]) ++ firstn k picked)%list
             by (rewrite <- app_assoc; reflexivity).
           cbn [firstn] in Hnot. cbn [List.length] in Hk.
           apply Hg; [lia| |].
           ++ apply removeFirst_other; [exact Hc|].
              intros ->. apply Hnot. now left.
           ++ intro H. apply Hnot. now right.
Qed.

End GreedySelection.

(** X20. [selectByMMR] is greedy.  The selection is the sorted list of
    picks made one after the other, min(maxItems, n) of them; each pick
    maximises, over all sentences not picked before, 0.72 x score minus
    0.28 x the redundancy with the earlier picks.  In particular, whenever
    something is selected, a sentence with the highest score is among the
    selected. *)
Theorem selectByMMR_greedy (docs : list Summarizer.SentenceDoc)
        (scores : list R) (maxItems : nat) :
  (exists picks,
      Summarizer.selectByMMR docs scores maxItems = Js.sortIndices picks
      /\ List.length picks = Nat.min maxItems (List.length scores)
      /\ forall k c, (k < List.length picks)%nat ->
                     (c < List.length scores)%nat ->
                     ~ In c (firstn k picks) ->
                     mmrValue docs scores (firstn k picks) c
                     <= mmrValue docs scores (firstn k picks)
                          (nth k picks 0%nat))
  /\ ((1 <= maxItems)%nat -> scores <> [] ->
      exists i, In i (Summarizer.selectByMMR docs scores maxItems)
                /\ forall j, (j < List.length scores)%nat ->
                             nth j scores 0 <= nth i scores 0).
Proof.
  unfold Summarizer.selectByMMR.
  set (cands := map fst (Js.sortDescBy snd
                           (combine (seq 0 (List.length scores)) scores))).
  assert (Hc : Permutation cands (seq 0 (List.length scores))).
  { unfold cands. rewrite <- (fst_combine_seq scores 0) at 2.
    apply Permutation_map, sortDescBy_perm. }
  assert (Hin : forall c, (c < List.length scores)%nat -> In c cands).
  { intros c Hlt. eapply Permutation_in; [symmetry; exact Hc|].
    apply in_seq. lia. }
  destruct (mmrLoop_greedy docs scores maxItems cands [])
    as (picks & E & Hg).
  destruct (mmrLoop_spec docs scores maxItems cands [])
    as (picked' & rest & E' & _ & HL).
  rewrite E in E'. cbn [app] in E, E'. subst picked'.
  assert (Hlen : List.length picks
                 = Nat.min maxItems (List.length scores)).
  { rewrite HL, (Permutation_length Hc), length_seq. reflexivity. }
  assert (Hgreedy : forall k c, (k < List.length picks)%nat ->
                     (c < List.length scores)%nat ->
                     ~ In c (firstn k picks) ->
                     mmrValue docs scores (firstn k picks) c
                     <= mmrValue docs scores (firstn k picks)
                          (nth k picks 0%nat)).
  { intros k c Hk Hlt Hnot. apply (Hg k c Hk); [now apply Hin|exact Hnot]. }
  split.
  - exists picks. rewrite E. split; [reflexivity|]. split; assumption.
  - intros Hitems Hne. rewrite E.
    assert (Hpos : (0 < List.length picks)%nat).
    { rewrite Hlen. destruct scores; [contradiction|]. simpl. lia. }
    exists (nth 0 picks 0%nat). split.
    + eapply Permutation_in; [symmetry; apply sortIndices_perm|].
      apply nth_In. exact Hpos.
    + intros j Hj.
      pose proof (Hgreedy 0%nat j Hpos Hj (fun H => H)) as H.
      unfold mmrValue in H. cbn [firstn map] in H.
      unfold Summarizer.maxSimilarity, Summarizer.lambda in H. lra.
Qed.

(* ================================================================== *)
(** * The feature extractor: one feature per thread *)
(* ================================================================== *)

Section GroupFold.
Context {D A : Type} (k : D -> string) (new : D -> A) (upd : A -> D -> A).

Lemma group_keys (ds : list D) :
  forall g : Js.JsMap A,
    Js.keys (fold_left (fun g d =>
                          Js.set g (k d) (upd (Js.getOr g (k d) (new d)) d))
                       ds g)
    = fold_left Js.add (map k ds) (Js.keys g).
Proof.
  induction ds as [|d ds IH]; intro g; cbn [fold_left map]; [reflexivity|].
  rewrite IH, keys_set. reflexivity.
Qed.

Lemma group_get (ds : list D) (key : string) :
  forall g : Js.JsMap A,
    Js.get (fold_left (fun g d =>
                         Js.set g (k d) (upd (Js.getOr g (k d) (new d)) d))
                      ds g) key
    = match filter (fun d => String.eqb (k d) key) ds with
      | [] => Js.get g key
      | d0 :: rest =>
          Some (fold_left upd (d0 :: rest) (Js.getOr g key (new d0)))
      end.
Proof.
  induction ds as [|d ds IH]; intro g; cbn [fold_left filter];
    [reflexivity|].
  rewrite IH. destruct (String.eqb_spec (k d) key) as [E|E].
  - subst key. destruct (filter _ ds) as [|d1 rest].
    + rewrite get_set_same. reflexivity.
    + unfold Js.getOr at 1. rewrite get_set_same. reflexivity.
  - destruct (filter _ ds) as [|d1 rest].
    + now apply get_set_other.
    + unfold Js.getOr. now rewrite (get_set_other _ _ _ _ E).
Qed.

End GroupFold.

Section EntryFacts.

Lemma entries_by_get {V} (m : Js.JsMap V) :
  NoDup (Js.keys m) ->
  Forall (fun kv => Js.get m (fst kv) = Some (snd kv)) m.
Proof.
  intro Hnd. apply Forall_forall. intros [key v] Hin.
  now apply NoDup_keys_get.
Qed.

Lemma list_sum_cons (a : nat) (l : list nat) :
  list_sum (a :: l) = (a + list_sum l)%nat.
Proof. reflexivity. Qed.

Lemma indicator_zero (x : string) (ks : list string) :
  ~ In x ks ->
  list_sum (map (fun key => if String.eqb x key then 1%nat else 0%nat) ks)
  = 0%nat.
Proof.
  induction ks as [|y ks IH]; intro Hk; [reflexivity|].
  rewrite map_cons, list_sum_cons.
  destruct (String.eqb_spec x y) as [E|_].
  - exfalso. apply Hk. now left.
  - rewrite IH; [reflexivity|]. intro H. apply Hk. now right.
Qed.

Lemma indicator_sum (x : string) (ks : list string) :
  NoDup ks -> In x ks ->
  list_sum (map (fun key => if String.eqb x key then 1%nat else 0%nat) ks)
  = 1%nat.
Proof.
  induction ks as [|key ks IH]; intros Hnd Hin; [contradiction|].
  inversion Hnd as [|? ? Hk Hnd']; subst.
  rewrite map_cons, list_sum_cons.
  destruct (String.eqb_spec x key) as [E|Hne].
  - subst key. now rewrite indicator_zero.
  - destruct Hin as [E|Hin]; [congruence|].
    rewrite IH by assumption. reflexivity.
Qed.

Lemma count_partition {D} (k : D -> string) (ds : list D)
      (ks : list string) :
  NoDup ks -> (forall d, In d ds -> In (k d) ks) ->
  list_sum (map (fun key =>
                   List.length (filter (fun d => String.eqb (k d) key) ds))
                ks)
  = List.length ds.
Proof.
  intros Hnd. induction ds as [|d ds IH]; intro Hin.
  - cbn [filter List.length]. clear.
    induction ks as [|key ks IHk]; [reflexivity|].
    now rewrite map_cons, list_sum_cons, IHk.
  - cbn [List.length]. rewrite <- IH by (intros x Hx; apply Hin; now right).
    assert (H1 : S (list_sum
                      (map (fun key =>
                              List.length
                                (filter (fun d0 => String.eqb (k d0) key) ds))
                           ks))
                 = (list_sum (map (fun key => if String.eqb (k d) key
                                              then 1%nat else 0%nat) ks)
                    + list_sum
                        (map (fun key =>
                                List.length
                                  (filter (fun d0 => String.eqb (k d0) key)
                                          ds)) ks))%nat).
    { rewrite (indicator_sum (k d) ks Hnd) by (apply Hin; now left).
      reflexivity. }
    rewrite H1. clear.
    induction ks as [|key ks IHk]; [reflexivity|].
    rewrite !map_cons, !list_sum_cons, IHk. cbn [filter].
    destruct (String.eqb (k d) key); cbn [List.length]; lia.
Qed.

Lemma sumR_cons (x : R) (l : list R) : sumR (x :: l) = x + sumR l.
Proof. reflexivity. Qed.

Lemma sumR_INR {X} (f : X -> nat) (l : list X) :
  sumR (map (fun x => INR (f x)) l) = INR (list_sum (map f l)).
Proof.
  induction l as [|x l IH]; [reflexivity|].
  rewrite !map_cons, sumR_cons, list_sum_cons, IH, plus_INR.
  reflexivity.
Qed.

Lemma fold_add_length (l acc : list string) :
  (List.length acc <= List.length (fold_left Js.add l acc)
   <= List.length acc + List.length l)%nat.
Proof.
  revert acc. induction l as [|x l IH]; intro acc; cbn [fold_left].
  - cbn [List.length]. lia.
  - specialize (IH (Js.add acc x)). unfold Js.add in *.
    destruct (Js.has acc x); cbn [List.length] in *;
      rewrite ?length_app in IH; cbn [List.length] in IH; lia.
Qed.

End EntryFacts.

Section ExtractorFacts.
Import ThreadFeatureExtractor.

Lemma inherited_not_weighted (e : string) :
  Js.has inheritedNames e = true -> Js.get REACTION_WEIGHTS e = None.
Proof.
  intro H. apply has_In in H. unfold inheritedNames in H.
  repeat (destruct H as [<-|H]; [reflexivity|]). contradiction.
Qed.

Lemma reactionWeight_None (e : string) :
  reactionWeight e = None <-> Js.has inheritedNames e = true.
Proof.
  unfold reactionWeight. split.
  - destruct (Js.get REACTION_WEIGHTS e); [discriminate|].
    now destruct (Js.has inheritedNames e).
  - intro H. rewrite (inherited_not_weighted e H). now rewrite H.
Qed.

Lemma calculate_fold (summary : list Reaction) :
  forall total : option R,
    fold_left (fun total reaction =>
                 match total, reactionWeight (emoji reaction) with
                 | Some total, Some weight =>
                     Some (total + weight * count reaction)
                 | _, _ => None
                 end) summary total = None
    <-> total = None
        \/ forallb (fun reaction =>
                      negb (Js.has inheritedNames (emoji reaction)))
                   summary = false.
Proof.
  induction summary as [|r summary IH]; intro total; cbn [fold_left forallb].
  - split; [now left|]. intros [H|H]; [exact H|discriminate].
  - rewrite IH. destruct total as [t|].
    + destruct (reactionWeight (emoji r)) as [w|] eqn:E.
      * assert (Hh : Js.has inheritedNames (emoji r) = false).
        { destruct (Js.has inheritedNames (emoji r)) eqn:Hh; [|reflexivity].
          apply reactionWeight_None in Hh. congruence. }
        rewrite Hh. cbn [negb andb].
        split; (intros [H|H]; [discriminate|now right]).
      * apply reactionWeight_None in E. rewrite E. cbn [negb andb].
        split; intros _; [now right|now left].
    + split; intros _; [now left|].
      left. now destruct (reactionWeight (emoji r)).
Qed.

Lemma calculate_None (summary : list Reaction) :
  calculateReactionWeight summary = None
  <-> forallb (fun reaction =>
                 negb (Js.has inheritedNames (emoji reaction)))
              summary = false.
Proof.
  unfold calculateReactionWeight. destruct summary as [|r summary].
  - split; discriminate.
  - rewrite calculate_fold. split; [intros [H|H]; [discriminate|exact H]|].
    intro H. now right.
Qed.

Lemma grouped_fold (guild : string) (topics : list Topic)
      (messages : list IndexedMessage) :
  forall g : Js.JsMap InternalAccumulator,
    fold_left
      (fun grouped doc =>
         match grouped with
         | None => None
         | Some grouped =>
             let key := keyOf doc in
             let acc := Js.getOr grouped key (createAccumulator doc guild) in
             match calculateReactionWeight (msgReactionSummary doc) with
             | None => None
             | Some weight =>
                 Some (Js.set grouped key (accumulate topics acc doc weight))
             end
         end)
      messages (Some g)
    = if plainReactions messages
      then Some (fold_left
                   (fun g doc =>
                      Js.set g (keyOf doc)
                        (accumulate topics
                           (Js.getOr g (keyOf doc)
                                     (createAccumulator doc guild))
                           doc (reactionWeightOf doc)))
                   messages g)
      else None.
Proof.
  induction messages as [|doc messages IH]; intro g;
    cbn [fold_left plainReactions forallb]; [reflexivity|].
  fold (plainReactions messages). cbv zeta.
  destruct (calculateReactionWeight (msgReactionSummary doc)) as [w|] eqn:E.
  - rewrite IH.
    assert (Hw : reactionWeightOf doc = w)
      by (unfold reactionWeightOf; now rewrite E).
    rewrite Hw.
    assert (Hp : forallb (fun reaction =>
                            negb (Js.has inheritedNames (emoji reaction)))
                         (msgReactionSummary doc) = true).
    { destruct (forallb _ (msgReactionSummary doc)) eqn:Hp; [reflexivity|].
      apply calculate_None in Hp. congruence. }
    rewrite Hp. reflexivity.
  - apply calculate_None in E. rewrite E. cbn [andb].
    clear. induction messages as [|d ms IHm]; [reflexivity|exact IHm].
Qed.

(** What the loop leaves in the accumulator of a thread, field by field. *)
Lemma accumulate_fold (topics : list Topic) (grp : list IndexedMessage) :
  forall a0 : InternalAccumulator,
    let a := fold_left (fun a doc =>
                          accumulate topics a doc (reactionWeightOf doc))
                       grp a0 in
    accKey a = accKey a0
    /\ accChannelId a = accChannelId a0
    /\ accThreadId a = accThreadId a0
    /\ accParentChannelId a = accParentChannelId a0
    /\ accFirstMessageAt a = accFirstMessageAt a0
    /\ accMessageCount a = accMessageCount a0 + INR (List.length grp)
    /\ accMessages a = (accMessages a0 ++ map toSummaryMessage grp)%list
    /\ accParticipants a
       = fold_left Js.add (map msgAuthorId grp) (accParticipants a0)
    /\ accLinkCount a = accLinkCount a0 + sumR (map msgLinkCount grp)
    /\ accReactionWeighted a
       = accReactionWeighted a0 + sumR (map reactionWeightOf grp)
    /\ accDecisionVerbHits a
       = accDecisionVerbHits a0
         + sumR (map (fun doc => countDecisionVerbs (msgContent doc)) grp)
    /\ accKeywordSet a
       = fold_left Js.add (flat_map msgMatchedKeywords grp)
                   (accKeywordSet a0).
Proof.
  induction grp as [|d grp IH]; intro a0.
  - cbv zeta. cbn [fold_left map flat_map List.length sumR fold_right INR].
    rewrite app_nil_r. repeat split; try reflexivity; lra.
  - cbv zeta in *. cbn [fold_left].
    destruct (IH (accumulate topics a0 d (reactionWeightOf d)))
      as (H1 & H2 & H3 & H4 & H5 & H6 & H7 & H8 & H9 & H10 & H11 & H12).
    rewrite H1, H2, H3, H4, H5, H6, H7, H8, H9, H10, H11, H12.
    cbn [accumulate accKey accChannelId accThreadId accParentChannelId
           accFirstMessageAt accMessageCount accMessages accParticipants
           accLinkCount accReactionWeighted accDecisionVerbHits
           accKeywordSet map flat_map sumR fold_right fold_left].
    rewrite fold_left_app, <- app_assoc.
    change (List.length (d :: grp)) with (S (List.length grp)).
    rewrite S_INR.
    repeat split; try reflexivity; unfold sumR; lra.
Qed.

Lemma lastMessageAt_fold (topics : list Topic) (grp : list IndexedMessage) :
  forall a0 : InternalAccumulator,
    let a := fold_left (fun a doc =>
                          accumulate topics a doc (reactionWeightOf doc))
                       grp a0 in
    accLastMessageAt a0 <= accLastMessageAt a
    /\ Forall (fun doc => msgTimestamp doc <= accLastMessageAt a) grp
    /\ (accLastMessageAt a = accLastMessageAt a0
        \/ Exists (fun doc => accLastMessageAt a = msgTimestamp doc) grp).
Proof.
  induction grp as [|d grp IH]; intro a0; cbv zeta; cbn [fold_left].
  - split; [lra|]. split; [constructor|now left].
  - cbv zeta in IH.
    destruct (IH (accumulate topics a0 d (reactionWeightOf d)))
      as (H1 & H2 & H3).
    cbn [accumulate accLastMessageAt] in H1, H3.
    destruct (Js.Rltb (accLastMessageAt a0) (msgTimestamp d)) eqn:E.
    + apply Rltb_true in E. split; [lra|]. split.
      * constructor; [exact H1|exact H2].
      * right. destruct H3 as [H3|H3].
        -- now apply Exists_cons_hd.
        -- now apply Exists_cons_tl.
    + apply Rltb_false in E. split; [exact H1|]. split.
      * constructor; [lra|exact H2].
      * destruct H3 as [H3|H3]; [now left|right].
        now apply Exists_cons_tl.
Qed.

(** The features are those of the groups of the keys, in first-seen
    order. *)
Lemma grouped_features (guild : string) (topics : list Topic)
      (messages : list IndexedMessage) :
  Forall2 (fun key f =>
             exists first rest,
               groupOf key messages = first :: rest
               /\ f = toFeature guild
                        (fold_left (fun a doc =>
                                      accumulate topics a doc
                                                 (reactionWeightOf doc))
                                   (first :: rest)
                                   (createAccumulator first guild)))
          (Js.newSet (map keyOf messages))
          (map (toFeature guild)
               (Js.values
                  (fold_left
                     (fun g doc =>
                        Js.set g (keyOf doc)
                          (accumulate topics
                             (Js.getOr g (keyOf doc)
                                       (createAccumulator doc guild))
                             doc (reactionWeightOf doc)))
                     messages []))).
Proof.
  match goal with
  | |- Forall2 _ _ (map _ (Js.values ?g)) => remember g as grouped eqn:Eg
  end.
  assert (Hk : Js.keys grouped = Js.newSet (map keyOf messages)).
  { rewrite Eg.
    rewrite (group_keys keyOf (fun d => createAccumulator d guild)
               (fun a d => accumulate topics a d (reactionWeightOf d))).
    reflexivity. }
  assert (Hnd : NoDup (Js.keys grouped)) by (rewrite Hk; apply newSet_NoDup).
  rewrite <- Hk.
  pose proof (entries_by_get grouped Hnd) as He.
  assert (Hg : forall key a, Js.get grouped key = Some a ->
                 exists first rest,
                   groupOf key messages = first :: rest
                   /\ a = fold_left (fun a doc =>
                                       accumulate topics a doc
                                                  (reactionWeightOf doc))
                                    (first :: rest)
                                    (createAccumulator first guild)).
  { intros key a Ha. rewrite Eg in Ha.
    rewrite (group_get keyOf (fun d => createAccumulator d guild)
               (fun a d => accumulate topics a d (reactionWeightOf d)))
      in Ha.
    fold (groupOf key messages) in Ha.
    destruct (groupOf key messages) as [|first rest]; [discriminate|].
    injection Ha as <-. exists first, rest. split; reflexivity. }
  clear Hk Hnd Eg. unfold Js.keys, Js.values. rewrite map_map.
  induction He as [|[key a] m Hh Ht IH]; cbn [map]; constructor.
  - cbn [fst snd] in *. destruct (Hg key a Hh) as (first & rest & E & ->).
    exists first, rest. now split.
  - exact IH.
Qed.

Lemma features_by_key (guild : string) (topics : list Topic)
      (messages : list IndexedMessage) (fs : list ThreadFeature) :
  fetchFeatures guild topics messages = Some fs ->
  Forall2 (fun key f =>
             exists first rest,
               groupOf key messages = first :: rest
               /\ f = toFeature guild
                        (fold_left (fun a doc =>
                                      accumulate topics a doc
                                                 (reactionWeightOf doc))
                                   (first :: rest)
                                   (createAccumulator first guild)))
          (Js.newSet (map keyOf messages)) fs.
Proof.
  unfold fetchFeatures. destruct messages as [|m0 ms]; [intros [= <-]|].
  { constructor. }
  rewrite grouped_fold.
  destruct (plainReactions (m0 :: ms)); [|discriminate].
  intros [= <-]. apply grouped_features.
Qed.

Lemma groupOf_key (key : string) (messages : list IndexedMessage)
      (first : IndexedMessage) (rest : list IndexedMessage) :
  groupOf key messages = first :: rest -> keyOf first = key.
Proof.
  intro E.
  assert (H : In first (groupOf key messages)) by (rewrite E; now left).
  unfold groupOf in H. apply filter_In in H. destruct H as [_ H].
  now apply String.eqb_eq.
Qed.

End ExtractorFacts.

(** X21. One feature per thread.  [fetchFeatures] yields no result exactly
    when a reaction is named like an inherited property (its weight is then
    not a number); otherwise it returns one feature for each distinct key
    [threadId ?? channelId] of the messages, in the order in which the keys
    first occur; a feature carries the guild asked for and the summary
    messages of exactly the messages of its key, in their order, and counts
    them; every message is counted in exactly one feature. *)
Theorem fetchFeatures_groups (guild : string) (topics : list Topic)
        (found : list ThreadFeatureExtractor.IndexedMessage) :
  (ThreadFeatureExtractor.fetchFeatures guild topics found = None
   <-> plainReactions found = false)
  /\ forall fs,
       ThreadFeatureExtractor.fetchFeatures guild topics found = Some fs ->
       map key fs = Js.newSet (map ThreadFeatureExtractor.keyOf found)
       /\ Forall (fun f =>
                    guildId f = guild
                    /\ groupOf (key f) found <> []
                    /\ messages f
                       = map ThreadFeatureExtractor.toSummaryMessage
                             (groupOf (key f) found)
                    /\ messageCount f
                       = INR (List.length (groupOf (key f) found))) fs
       /\ sumR (map messageCount fs) = INR (List.length found).
Proof.
  split.
  - unfold ThreadFeatureExtractor.fetchFeatures.
    destruct found as [|m0 ms]; [split; discriminate|].
    rewrite grouped_fold.
    destruct (plainReactions (m0 :: ms)); split; congruence.
  - intros fs Hfs. pose proof (features_by_key _ _ _ _ Hfs) as H2.
    assert (Hspec : Forall2 (fun k f =>
               key f = k /\ guildId f = guild
               /\ groupOf k found <> []
               /\ messages f
                  = map ThreadFeatureExtractor.toSummaryMessage
                        (groupOf k found)
               /\ messageCount f = INR (List.length (groupOf k found)))
             (Js.newSet (map ThreadFeatureExtractor.keyOf found)) fs).
    { eapply Forall2_impl; [|exact H2].
      intros k f (first & rest & E & ->).
      destruct (accumulate_fold topics (first :: rest)
                  (ThreadFeatureExtractor.createAccumulator first guild))
        as (H1 & _ & _ & _ & _ & H6 & H7 & _).
      cbn [ThreadFeatureExtractor.toFeature key guildId messageCount
             messages].
      rewrite H1, H6, H7, E.
      cbn [ThreadFeatureExtractor.createAccumulator
             ThreadFeatureExtractor.accKey
             ThreadFeatureExtractor.accMessageCount
             ThreadFeatureExtractor.accMessages app].
      split; [exact (groupOf_key _ _ _ _ E)|].
      split; [reflexivity|]. split; [discriminate|].
      split; [reflexivity|]. lra. }
    clear H2 Hfs. split; [|split].
    + induction Hspec as [|k f ks fs' (Hk & _) _ IH]; cbn [map];
        [reflexivity|]. now rewrite Hk, IH.
    + induction Hspec as [|k f ks fs' (Hk & Hg & Hne & Hm & Hc) _ IH];
        constructor; [|exact IH].
      rewrite Hk. repeat split; assumption.
    + transitivity
        (sumR (map (fun k => INR (List.length (groupOf k found)))
                   (Js.newSet (map ThreadFeatureExtractor.keyOf found)))).
      * induction Hspec as [|k f ks fs' (_ & _ & _ & _ & Hc) _ IH];
          cbn [map sumR fold_right]; [reflexivity|].
        fold (sumR (map messageCount fs')).
        fold (sumR (map (fun k => INR (List.length (groupOf k found)))
                        ks)).
        now rewrite Hc, IH.
      * rewrite sumR_INR. f_equal. unfold groupOf.
        apply count_partition; [apply newSet_NoDup|].
        intros d Hd. apply newSet_In. now apply in_map.
Qed.

(** X22. What a feature aggregates.  Every feature returned by
    [fetchFeatures] takes its channel, thread, parent channel and first
    timestamp from the first message of its thread; counts the distinct
    authors (at least 1, at most the number of messages); sums the link
    counts, reaction weights and decision-verb counts of the messages; has
    [hasLinks] exactly when the link count is at least 2; lists the matched
    keywords of the messages once each, in first-seen order; and has as
    last timestamp the largest timestamp of its messages, never before the
    first. *)
Theorem fetchFeatures_aggregates (guild : string) (topics : list Topic)
        (found : list ThreadFeatureExtractor.IndexedMessage)
        (fs : list ThreadFeature) :
  ThreadFeatureExtractor.fetchFeatures guild topics found = Some fs ->
  Forall (fun f => aggregates (groupOf (key f) found) f) fs.
Proof.
  intro Hfs. pose proof (features_by_key _ _ _ _ Hfs) as H2. clear Hfs.
  induction H2 as [|k f ks fs' (first & rest & E & ->) _ IH];
    [constructor|].
  constructor; [|exact IH].
  set (a0 := ThreadFeatureExtractor.createAccumulator first guild).
  destruct (accumulate_fold topics (first :: rest) a0)
    as (H1 & H2' & H3 & H4 & H5 & H6 & H7 & H8 & H9 & H10 & H11 & H12).
  destruct (lastMessageAt_fold topics (first :: rest) a0) as (L1 & L2 & L3).
  cbv zeta in *.
  assert (Hkey : key (ThreadFeatureExtractor.toFeature guild
                        (fold_left
                           (fun a doc =>
                              ThreadFeatureExtractor.accumulate topics a doc
                                (reactionWeightOf doc))
                           (first :: rest) a0)) = k).
  { cbn [ThreadFeatureExtractor.toFeature key]. rewrite H1.
    exact (groupOf_key _ _ _ _ E). }
  rewrite Hkey, E. unfold aggregates.
  cbn [ThreadFeatureExtractor.toFeature channelId threadId parentChannelId
         firstMessageAt lastMessageAt uniqueParticipants messageCount
         linkCount hasLinks reactionWeighted decisionVerbHits
         matchedKeywords].
  rewrite H2', H3, H4, H5, H6, H8, H9, H10, H11, H12.
  unfold a0 in *.
  cbn [ThreadFeatureExtractor.createAccumulator
         ThreadFeatureExtractor.accChannelId
         ThreadFeatureExtractor.accThreadId
         ThreadFeatureExtractor.accParentChannelId
         ThreadFeatureExtractor.accFirstMessageAt
         ThreadFeatureExtractor.accLastMessageAt
         ThreadFeatureExtractor.accMessageCount
         ThreadFeatureExtractor.accParticipants
         ThreadFeatureExtractor.accLinkCount
         ThreadFeatureExtractor.accReactionWeighted
         ThreadFeatureExtractor.accDecisionVerbHits
         ThreadFeatureExtractor.accKeywordSet] in *.
  fold (Js.newSet (map ThreadFeatureExtractor.msgAuthorId (first :: rest))).
  fold (Js.newSet (flat_map ThreadFeatureExtractor.msgMatchedKeywords
                            (first :: rest))).
  split; [exists first, rest; repeat split; reflexivity|].
  split; [reflexivity|].
  split.
  { pose proof (fold_add_length
                  (map ThreadFeatureExtractor.msgAuthorId (first :: rest))
                  []) as [_ Hup].
    fold (Js.newSet (map ThreadFeatureExtractor.msgAuthorId
                         (first :: rest))) in Hup.
    rewrite length_map in Hup. cbn [List.length Nat.add] in Hup.
    assert (Hlow : (1 <= List.length
                           (Js.newSet (map ThreadFeatureExtractor.msgAuthorId
                                           (first :: rest))))%nat).
    { assert (Hin : In (ThreadFeatureExtractor.msgAuthorId first)
                       (Js.newSet (map ThreadFeatureExtractor.msgAuthorId
                                       (first :: rest)))).
      { apply newSet_In. now left. }
      destruct (Js.newSet _); [contradiction|]. cbn [List.length]. lia. }
    split.
    - apply (le_INR 1). exact Hlow.
    - rewrite Rplus_0_l. apply le_INR. cbn [List.length]. exact Hup. }
  split; [lra|].
  split.
  { rewrite Rplus_0_l. unfold Js.Rleb.
    destruct (Rle_dec 2 _); split; congruence. }
  split; [f_equal; lra|]. split; [lra|]. split; [reflexivity|].
  split; [exact L1|]. split; [exact L2|].
  destruct L3 as [L3|L3]; [|exact L3].
  apply Exists_cons_hd. exact L3.
Qed.

Lemma fetchFeatures_aggregates_witness :
  Forall (fun f => aggregates (groupOf (key f) SampleThread.docs) f)
         SampleThread.features.
Proof.
  apply (fetchFeatures_aggregates "g" TopicService.defaults
           SampleThread.docs SampleThread.features).
  reflexivity.
Defined.

(* ================================================================== *)
(** * The feature extractor: topic hits *)
(* ================================================================== *)

Section TopicHitFacts.
Import ThreadFeatureExtractor.

Lemma countTopics_get (d : IndexedMessage) (ts : list Topic) :
  forall (s : Js.JsMap TopicHitMetric) (key : string),
    NoDup (map topicSlug ts) ->
    Js.get (countTopics ts d s) key
    = match List.find (fun t => String.eqb (topicSlug t) key) ts with
      | Some t =>
          if hitBy t d
          then Some {| slug := slug (Js.getOr s key
                                       {| slug := topicSlug t;
                                          keywordHits := 0; bigramHits := 0;
                                          boost := topicBoost t |});
                       keywordHits :=
                         keywordHits (Js.getOr s key
                                        {| slug := topicSlug t;
                                           keywordHits := 0; bigramHits := 0;
                                           boost := topicBoost t |})
                         + keywordHitsOf t d;
                       bigramHits :=
                         bigramHits (Js.getOr s key
                                       {| slug := topicSlug t;
                                          keywordHits := 0; bigramHits := 0;
                                          boost := topicBoost t |})
                         + bigramHitsOf t d;
                       boost := boost (Js.getOr s key
                                         {| slug := topicSlug t;
                                            keywordHits := 0; bigramHits := 0;
                                            boost := topicBoost t |}) |}
          else Js.get s key
      | None => Js.get s key
      end.
Proof.
  unfold countTopics, hitBy.
  induction ts as [|t ts IH]; intros s key Hnd; cbn [fold_left find];
    [reflexivity|].
  inversion Hnd as [|? ? Hk Hnd']; subst. cbv zeta.
  rewrite (IH _ key Hnd').
  destruct (String.eqb_spec (topicSlug t) key) as [E|E].
  - subst key.
    assert (F : find (fun t0 => String.eqb (topicSlug t0) (topicSlug t)) ts
                = None).
    { destruct (find _ ts) as [t'|] eqn:F; [|reflexivity].
      apply find_some in F. destruct F as [Hin Heq].
      apply String.eqb_eq in Heq. exfalso. apply Hk. rewrite <- Heq.
      now apply in_map. }
    rewrite F.
    destruct (Js.Rltb 0 (keywordHitsOf t d) || Js.Rltb 0 (bigramHitsOf t d));
      [apply get_set_same|reflexivity].
  - assert (Hget : forall v,
               Js.get (if Js.Rltb 0 (keywordHitsOf t d)
                          || Js.Rltb 0 (bigramHitsOf t d)
                       then Js.set s (topicSlug t) v else s) key
               = Js.get s key).
    { intro v. destruct (_ || _); [|reflexivity].
      now apply get_set_other. }
    unfold Js.getOr. rewrite !Hget. reflexivity.
Qed.

Lemma countTopics_keys (d : IndexedMessage) (ts : list Topic) :
  forall s : Js.JsMap TopicHitMetric,
    NoDup (Js.keys s) -> NoDup (Js.keys (countTopics ts d s)).
Proof.
  unfold countTopics. induction ts as [|t ts IH]; intros s Hs;
    cbn [fold_left]; [exact Hs|].
  apply IH. cbv zeta. destruct (_ || _); [|exact Hs].
  now apply keys_set_NoDup.
Qed.

Lemma no_hit_zero (topic : Topic) (d : IndexedMessage) :
  hitBy topic d = false ->
  keywordHitsOf topic d = 0 /\ bigramHitsOf topic d = 0.
Proof.
  unfold hitBy. intro H. apply orb_false_elim in H. destruct H as [Hk Hb].
  apply Rltb_false in Hk. apply Rltb_false in Hb.
  assert (0 <= keywordHitsOf topic d) by (apply pos_INR).
  assert (0 <= bigramHitsOf topic d).
  { unfold bigramHitsOf. destruct (_ && _); [apply pos_INR|lra]. }
  split; lra.
Qed.

Lemma no_hits_zero (topic : Topic) (grp : list IndexedMessage) :
  existsb (hitBy topic) grp = false ->
  sumR (map (keywordHitsOf topic) grp) = 0
  /\ sumR (map (bigramHitsOf topic) grp) = 0.
Proof.
  induction grp as [|d grp IH]; intro H; [split; reflexivity|].
  cbn [existsb] in H. apply orb_false_elim in H. destruct H as [Hd Hg].
  destruct (no_hit_zero _ _ Hd) as [Hk Hb].
  destruct (IH Hg) as [IHk IHb].
  rewrite !map_cons, !sumR_cons. split; lra.
Qed.

Lemma same_slug (topics : list Topic) (a b : Topic) :
  NoDup (map topicSlug topics) -> In a topics -> In b topics ->
  topicSlug a = topicSlug b -> a = b.
Proof.
  induction topics as [|t topics IH]; intros Hnd Ha Hb E; [contradiction|].
  inversion Hnd as [|? ? Hk Hnd']; subst.
  destruct Ha as [->|Ha], Hb as [->|Hb].
  - reflexivity.
  - exfalso. apply Hk. rewrite E. now apply in_map.
  - exfalso. apply Hk. rewrite <- E. now apply in_map.
  - now apply IH.
Qed.

Lemma find_slug (topics : list Topic) (topic : Topic) :
  NoDup (map topicSlug topics) -> In topic topics ->
  find (fun t => String.eqb (topicSlug t) (topicSlug topic)) topics
  = Some topic.
Proof.
  intros Hnd Hin.
  destruct (find _ topics) as [t|] eqn:F.
  - apply find_some in F. destruct F as [Ht E]. apply String.eqb_eq in E.
    f_equal. now apply (same_slug topics).
  - pose proof (find_none _ _ F topic Hin) as H. cbv beta in H.
    now rewrite String.eqb_refl in H.
Qed.

(** What the loops leave in [topicStats] after the messages [seen]. *)
Lemma topicStats_fold (topics : list Topic) (grp : list IndexedMessage) :
  NoDup (map topicSlug topics) ->
  forall (seen : list IndexedMessage) (s : Js.JsMap TopicHitMetric),
    NoDup (Js.keys s) ->
    (forall key m, Js.get s key = Some m ->
                   slug m = key /\ hitsOf topics seen m) ->
    (forall topic, In topic topics -> existsb (hitBy topic) seen = true ->
                   Js.get s (topicSlug topic) <> None) ->
    let s' := fold_left (fun s d => countTopics topics d s) grp s in
    NoDup (Js.keys s')
    /\ (forall key m, Js.get s' key = Some m ->
                      slug m = key /\ hitsOf topics (seen ++ grp)%list m)
    /\ (forall topic, In topic topics ->
                      existsb (hitBy topic) (seen ++ grp)%list = true ->
                      Js.get s' (topicSlug topic) <> None).
Proof.
  intro Hnd. induction grp as [|d grp IH]; intros seen s Hs Ha Hb;
    cbv zeta; cbn [fold_left].
  - rewrite app_nil_r. split; [exact Hs|]. split; [exact Ha|exact Hb].
  - replace (seen ++ d :: grp)%list with ((seen ++ [d]) ++ grp)%list
      by (rewrite <- app_assoc; reflexivity).
    apply IH.
    + now apply countTopics_keys.
    + intros key m Hm. rewrite (countTopics_get d topics s key Hnd) in Hm.
      destruct (find (fun t => String.eqb (topicSlug t) key) topics)
        as [t|] eqn:F.
      * apply find_some in F. destruct F as [Ht E].
        apply String.eqb_eq in E. subst key.
        destruct (hitBy t d) eqn:Hit.
        -- injection Hm as <-. unfold Js.getOr.
           destruct (Js.get s (topicSlug t)) as [m0|] eqn:G.
           ++ destruct (Ha _ _ G) as (Hslug & t0 & Ht0 & Hs0 & Hb0 & He0
                                       & Hk0 & Hg0).
              assert (t0 = t).
              { apply (same_slug topics); try assumption. congruence. }
              subst t0. cbn [slug].
              split; [exact Hslug|]. exists t.
              cbn [slug keywordHits bigramHits boost].
              rewrite !map_app, !sumR_app, existsb_app, He0.
              cbn [map]. rewrite !sumR_cons. unfold sumR at 2 4.
              cbn [fold_right orb].
              repeat split; try assumption; try reflexivity; lra.
           ++ cbn [slug].
              split; [reflexivity|]. exists t.
              cbn [slug keywordHits bigramHits boost].
              assert (Hno : existsb (hitBy t) seen = false).
              { destruct (existsb (hitBy t) seen) eqn:Ex; [|reflexivity].
                exfalso. exact (Hb t Ht Ex G). }
              destruct (no_hits_zero _ _ Hno) as [Hk0 Hg0].
              rewrite !map_app, !sumR_app, existsb_app, Hk0, Hg0.
              cbn [map existsb]. rewrite !sumR_cons, Hit.
              unfold sumR. cbn [fold_right].
              rewrite orb_true_r.
              repeat split; try assumption; try reflexivity; lra.
        -- destruct (Ha _ _ Hm) as (Hslug & t0 & Ht0 & Hs0 & Hb0 & He0
                                    & Hk0 & Hg0).
           assert (t0 = t).
           { apply (same_slug topics); try assumption. congruence. }
           subst t0. split; [exact Hslug|]. exists t.
           destruct (no_hit_zero _ _ Hit) as [Hkd Hgd].
           rewrite !map_app, !sumR_app, existsb_app, He0.
           cbn [map]. rewrite !sumR_cons, Hkd, Hgd. unfold sumR at 2 4.
           cbn [fold_right orb].
           repeat split; try assumption; try reflexivity; lra.
      * destruct (Ha _ _ Hm) as (Hslug & t0 & Ht0 & Hs0 & _).
        exfalso. pose proof (find_none _ _ F t0 Ht0) as H. cbv beta in H.
        rewrite <- Hs0, Hslug, String.eqb_refl in H. discriminate.
    + intros topic Ht Hex.
      rewrite (countTopics_get d topics s _ Hnd), (find_slug _ _ Hnd Ht).
      destruct (hitBy topic d) eqn:Hit; [discriminate|].
      apply Hb; [exact Ht|].
      rewrite existsb_app in Hex. cbn [existsb] in Hex.
      rewrite Hit in Hex. cbn [orb] in Hex.
      now rewrite orb_false_r in Hex.
Qed.

Lemma topicStats_of_fold (topics : list Topic) (grp : list IndexedMessage) :
  forall a0 : InternalAccumulator,
    accTopicStats (fold_left (fun a doc =>
                                accumulate topics a doc
                                           (reactionWeightOf doc)) grp a0)
    = fold_left (fun s d => countTopics topics d s) grp (accTopicStats a0).
Proof.
  induction grp as [|d grp IH]; intro a0; cbn [fold_left]; [reflexivity|].
  rewrite IH. reflexivity.
Qed.

End TopicHitFacts.

(** X23. Topic hits of a feature.  With a taxonomy of pairwise distinct
    slugs, the [topicHits] of every feature returned by [fetchFeatures]
    list, once each, exactly the topics hit by some message of the thread
    (a matched keyword that is a keyword of the topic, or a bigram of the
    topic found in the normalised content); each carries the slug and the
    boost of its topic and the keyword hits and bigram hits summed over
    all messages of the thread. *)
Theorem fetchFeatures_topic_hits (guild : string) (topics : list Topic)
        (found : list ThreadFeatureExtractor.IndexedMessage)
        (fs : list ThreadFeature) :
  NoDup (map topicSlug topics) ->
  ThreadFeatureExtractor.fetchFeatures guild topics found = Some fs ->
  Forall (fun f =>
            NoDup (map slug (topicHits f))
            /\ (forall h, In h (topicHits f) ->
                          hitsOf topics (groupOf (key f) found) h)
            /\ (forall topic,
                   In topic topics ->
                   existsb (hitBy topic) (groupOf (key f) found) = true ->
                   In (topicSlug topic) (map slug (topicHits f)))) fs.
Proof.
  intros Hnd Hfs. pose proof (features_by_key _ _ _ _ Hfs) as H2. clear Hfs.
  induction H2 as [|k f ks fs' (first & rest & E & ->) _ IH];
    [constructor|].
  constructor; [|exact IH].
  set (a0 := ThreadFeatureExtractor.createAccumulator first guild).
  destruct (accumulate_fold topics (first :: rest) a0) as (H1 & _).
  assert (Hkey : key (ThreadFeatureExtractor.toFeature guild
                        (fold_left
                           (fun a doc =>
                              ThreadFeatureExtractor.accumulate topics a doc
                                (reactionWeightOf doc))
                           (first :: rest) a0)) = k).
  { cbn [ThreadFeatureExtractor.toFeature key]. cbv zeta in H1. rewrite H1.
    exact (groupOf_key _ _ _ _ E). }
  rewrite Hkey, E. cbn [ThreadFeatureExtractor.toFeature topicHits].
  rewrite topicStats_of_fold.
  unfold a0. cbn [ThreadFeatureExtractor.createAccumulator
                    ThreadFeatureExtractor.accTopicStats].
  destruct (topicStats_fold topics (first :: rest) Hnd [] [])
    as (Hk & Ha & Hb).
  { constructor. }
  { intros key0 m Hm. discriminate. }
  { intros topic _ Hex. discriminate. }
  cbv zeta in Hk, Ha, Hb. cbn [app] in Ha, Hb.
  match type of Hk with NoDup (Js.keys ?t) => set (s := t) in * end.
  pose proof (entries_by_get s Hk) as He.
  assert (Hslugs : map slug (Js.values s) = Js.keys s).
  { unfold Js.values, Js.keys. rewrite map_map. apply map_ext_in.
    intros [key0 m] Hin. rewrite Forall_forall in He.
    specialize (He _ Hin). cbn [fst snd] in *.
    exact (proj1 (Ha _ _ He)). }
  split; [rewrite Hslugs; exact Hk|]. split.
  - intros h Hh. unfold Js.values in Hh. apply in_map_iff in Hh.
    destruct Hh as ([key0 m] & <- & Hin). rewrite Forall_forall in He.
    specialize (He _ Hin). cbn [fst snd] in *.
    exact (proj2 (Ha _ _ He)).
  - intros topic Ht Hex. rewrite Hslugs.
    specialize (Hb topic Ht Hex).
    destruct (Js.get s (topicSlug topic)) as [m|] eqn:G; [|contradiction].
    apply get_In in G. unfold Js.keys.
    apply in_map_iff. exists (topicSlug topic, m). now split.
Qed.

Lemma fetchFeatures_topic_hits_witness :
  Forall (fun f =>
            NoDup (map slug (topicHits f))
            /\ (forall h, In h (topicHits f) ->
                          hitsOf TopicService.defaults
                                 (groupOf (key f) SampleThread.docs) h)
            /\ (forall topic,
                   In topic TopicService.defaults ->
                   existsb (hitBy topic) (groupOf (key f) SampleThread.docs)
                   = true ->
                   In (topicSlug topic) (map slug (topicHits f))))
         SampleThread.features.
Proof.
  apply (fetchFeatures_topic_hits "g" TopicService.defaults
           SampleThread.docs SampleThread.features).
  - repeat constructor; simpl; intuition discriminate.
  - reflexivity.
Defined.

(* ================================================================== *)
(** * The feature extractor: reactions and decision verbs *)
(* ================================================================== *)

Section ReactionFacts.
Import ThreadFeatureExtractor.

Lemma reactionWeight_range (e : string) (w : R) :
  reactionWeight e = Some w -> 0.75 <= w <= 2.
Proof.
  unfold reactionWeight.
  destruct (Js.get REACTION_WEIGHTS e) as [v|] eqn:G.
  - intros [= <-]. apply get_In in G. unfold REACTION_WEIGHTS in G.
    repeat (destruct G as [[= _ <-]|G]; [lra|]). contradiction.
  - destruct (Js.has inheritedNames e); [discriminate|].
    intros [= <-]. lra.
Qed.

Lemma reactionWeight_default (e : string) :
  ~ In e (Js.keys REACTION_WEIGHTS) -> ~ In e inheritedNames ->
  reactionWeight e = Some 1.
Proof.
  intros Hk Hi. unfold reactionWeight.
  apply get_None_keys in Hk. rewrite Hk.
  apply has_not_In in Hi. now rewrite Hi.
Qed.

Lemma calculate_range (summary : list Reaction) :
  Forall (fun r => 0 <= count r) summary ->
  forall (total w : R),
    fold_left (fun total reaction =>
                 match total, reactionWeight (emoji reaction) with
                 | Some total, Some weight =>
                     Some (total + weight * count reaction)
                 | _, _ => None
                 end) summary (Some total) = Some w ->
    total + 0.75 * sumR (map count summary) <= w
    <= total + 2 * sumR (map count summary).
Proof.
  induction 1 as [|r summary Hr Hs IH]; intros total w; cbn [fold_left].
  - intros [= <-]. unfold sumR. simpl. lra.
  - destruct (reactionWeight (emoji r)) as [v|] eqn:E.
    + intro H. apply IH in H. apply reactionWeight_range in E.
      rewrite map_cons, sumR_cons. nra.
    + intro H. exfalso.
      assert (Hn : forall l,
                 fold_left (fun total reaction =>
                              match total, reactionWeight (emoji reaction)
                              with
                              | Some total, Some weight =>
                                  Some (total + weight * count reaction)
                              | _, _ => None
                              end) l None = None).
      { induction l as [|x l IHl]; [reflexivity|exact IHl]. }
      rewrite Hn in H. discriminate.
Qed.

End ReactionFacts.

(** X24. Reaction weights.  [calculateReactionWeight] is not a number
    exactly when a reaction is named like a property that the weight table
    inherits from [Object.prototype]; otherwise, for reaction counts that
    are not negative, it lies between 0.75 and 2 times the number of
    reactions, every emoji weighing between 0.75 and 2. *)
Theorem calculateReactionWeight_range
        (summary : list ThreadFeatureExtractor.Reaction) :
  (ThreadFeatureExtractor.calculateReactionWeight summary = None
   <-> exists r, In r summary
                 /\ In (ThreadFeatureExtractor.emoji r)
                       ThreadFeatureExtractor.inheritedNames)
  /\ forall w,
       ThreadFeatureExtractor.calculateReactionWeight summary = Some w ->
       Forall (fun r => 0 <= ThreadFeatureExtractor.count r) summary ->
       0.75 * sumR (map ThreadFeatureExtractor.count summary) <= w
       <= 2 * sumR (map ThreadFeatureExtractor.count summary).
Proof.
  split.
  - rewrite calculate_None. split.
    + intro H.
      assert (He : existsb (fun r => Js.has
                                       ThreadFeatureExtractor.inheritedNames
                                       (ThreadFeatureExtractor.emoji r))
                           summary = true).
      { clear - H. induction summary as [|r summary IH]; [discriminate|].
        cbn [forallb existsb] in *.
        destruct (Js.has _ (ThreadFeatureExtractor.emoji r));
          [reflexivity|]. cbn [negb andb orb] in *. now apply IH. }
      apply existsb_exists in He. destruct He as (r & Hr & Hh).
      exists r. split; [exact Hr|]. now apply has_In.
    + intros (r & Hr & Hi).
      destruct (forallb _ summary) eqn:F; [|reflexivity].
      rewrite forallb_forall in F. specialize (F r Hr).
      apply has_In in Hi. rewrite Hi in F. discriminate.
  - intros w Hw Hc. unfold ThreadFeatureExtractor.calculateReactionWeight in Hw.
    destruct summary as [|r summary].
    + injection Hw as <-. unfold sumR. simpl. lra.
    + pose proof (calculate_range (r :: summary) Hc 0 w Hw) as H. lra.
Qed.

Section DecisionFacts.
Import ThreadFeatureExtractor.

Lemma firstWord_positive (words : list Text.chars) (s : Text.chars) :
  Forall (fun w => w <> []) words ->
  Text.firstWord words s <> Some 0%nat.
Proof.
  induction 1 as [|w words Hw Hws IH]; cbn [Text.firstWord];
    [discriminate|].
  destruct (Text.startsWith w s); [|exact IH].
  destruct w; [contradiction|discriminate].
Qed.

Lemma countWords_zero (words : list Text.chars) (s : Text.chars) :
  Forall (fun w => w <> []) words ->
  (countWords words 0 s = 0%nat <-> Text.findWords words s = None).
Proof.
  intro Hw. induction s as [|c t IH]; cbn [countWords Text.findWords].
  - destruct (Text.firstWord words []) as [n|] eqn:F; [|tauto].
    exfalso. clear - Hw F.
    induction Hw as [|w words Hne Hws IHw]; cbn [Text.firstWord] in F;
      [discriminate|].
    destruct w; [contradiction|]. cbn [Text.startsWith] in F.
    now apply IHw.
  - pose proof (firstWord_positive words (c :: t) Hw) as Hp.
    destruct (Text.firstWord words (c :: t)) as [[|m]|].
    + contradiction.
    + split; discriminate.
    + rewrite IH. destruct (Text.findWords words t); split;
        intro H; try discriminate; reflexivity.
Qed.

End DecisionFacts.

(** X25. Decision verbs are detected alike.  The extractor counts at least
    one decision verb in a message exactly when the decision pattern of the
    summarizer matches its content; both use the same eleven words, without
    regard to letter case. *)
Theorem countDecisionVerbs_agrees (content : string) (lastIndex : nat) :
  (0 < ThreadFeatureExtractor.countDecisionVerbs content
   <-> fst (Summarizer.DECISION_REGEX_test lastIndex content) = true)
  /\ 0 <= ThreadFeatureExtractor.countDecisionVerbs content
     <= INR (String.length content) / 3.
Proof.
  assert (Hw : Forall (fun w : Text.chars => w <> [])
                      ThreadFeatureExtractor.decisionVerbs).
  { repeat constructor; discriminate. }
  assert (Hz : ThreadFeatureExtractor.countDecisionVerbs content
               = INR (ThreadFeatureExtractor.countWords
                        ThreadFeatureExtractor.decisionVerbs 0
                        (Text.toLowerCase (Text.ofString content)))).
  { destruct content; reflexivity. }
  split.
  - rewrite Hz.
    unfold Summarizer.DECISION_REGEX_test, Text.regexTest,
      Summarizer.DECISION_REGEX_global. cbn [fst].
    change Summarizer.decisionWords with ThreadFeatureExtractor.decisionVerbs.
    pose proof (countWords_zero ThreadFeatureExtractor.decisionVerbs
                  (Text.toLowerCase (Text.ofString content)) Hw) as H.
    destruct (Text.findWords _ _) as [e|].
    + split; [reflexivity|]. intros _.
      apply (lt_INR 0).
      destruct (ThreadFeatureExtractor.countWords _ 0 _);
        [|lia]. exfalso. destruct H as [H _]. specialize (H eq_refl).
      discriminate.
    + destruct H as [_ H]. rewrite (H eq_refl). cbn [INR].
      split; [lra|discriminate].
  - rewrite Hz. split; [apply pos_INR|].
    assert (Hlen : forall n s,
               Text.firstWord ThreadFeatureExtractor.decisionVerbs s
               = Some n -> (3 <= n <= List.length s)%nat).
    { intros n s F.
      assert (G : forall words,
                 Forall (fun w => (3 <= List.length w)%nat) words ->
                 Text.firstWord words s = Some n ->
                 (3 <= n <= List.length s)%nat).
      { induction 1 as [|x words Hx Hxs IHx]; cbn [Text.firstWord];
          [discriminate|].
        destruct (Text.startsWith x s) eqn:S; [|exact IHx].
        intros [= <-]. split; [exact Hx|].
        destruct (startsWith_app _ _ S) as [r ->].
        rewrite length_app. lia. }
      apply (G ThreadFeatureExtractor.decisionVerbs); [|exact F].
      repeat constructor; simpl; lia. }
    assert (Hcount : forall s skip,
               (skip <= List.length s)%nat ->
               (3 * ThreadFeatureExtractor.countWords
                      ThreadFeatureExtractor.decisionVerbs skip s + skip
                <= List.length s)%nat).
    { induction s as [|c t IHs]; intros skip Hs;
        cbn [ThreadFeatureExtractor.countWords List.length] in *; [lia|].
      destruct skip as [|k].
      - destruct (Text.firstWord ThreadFeatureExtractor.decisionVerbs
                    (c :: t)) as [[|m]|] eqn:F.
        + specialize (IHs 0%nat (Nat.le_0_l _)). lia.
        + destruct (Hlen (S m) (c :: t) F) as [H3 Hl].
          cbn [List.length] in Hl.
          assert (Hm : (m <= List.length t)%nat) by lia.
          specialize (IHs m Hm). lia.
        + specialize (IHs 0%nat (Nat.le_0_l _)). lia.
      - assert (Hk : (k <= List.length t)%nat) by lia.
        specialize (IHs k Hk). lia. }
    specialize (Hcount (Text.toLowerCase (Text.ofString content)) 0%nat
                       (Nat.le_0_l _)).
    unfold Text.toLowerCase in Hcount.
    rewrite length_map, length_ofString in Hcount.
    assert (H : INR (3 * ThreadFeatureExtractor.countWords
                           ThreadFeatureExtractor.decisionVerbs 0
                           (map Text.toLowerChar (Text.ofString content)))
                <= INR (String.length content)) by (apply le_INR; lia).
    rewrite mult_INR in H. simpl (INR 3) in H.
    unfold Text.toLowerCase. lra.
Qed.

(* ================================================================== *)
(** * The presence activities *)
(* ================================================================== *)

(** X26. The presence rotation never loses an activity.
    [buildPresenceActivities] returns the trend activity when a trending
    topic or keyword is given (the topic taking precedence), then the guild
    activity, the three command hints and the fallback, in this order: the
    check for an existing name never fires, so the names are pairwise
    distinct and the fallback is always the last of 5 or 6 activities. *)
Theorem buildPresenceActivities_complete
        (context : PresenceActivityBuilder.PresenceBuilderContext) :
  PresenceActivityBuilder.buildPresenceActivities context
  = ((match PresenceActivityBuilder.buildTrendActivity context with
      | Some trend => [trend]
      | None => []
      end)
     ++ PresenceActivityBuilder.buildGuildActivity
          (PresenceActivityBuilder.guildCount context)
        :: PresenceActivityBuilder.COMMAND_HINTS
        ++ [PresenceActivityBuilder.FALLBACK_ACTIVITY])%list
  /\ NoDup (map PresenceActivityBuilder.name
                (PresenceActivityBuilder.buildPresenceActivities context)).
Proof.
  assert (E : PresenceActivityBuilder.buildPresenceActivities context
    = ((match PresenceActivityBuilder.buildTrendActivity context with
        | Some trend => [trend]
        | None => []
        end)
       ++ PresenceActivityBuilder.buildGuildActivity
            (PresenceActivityBuilder.guildCount context)
          :: PresenceActivityBuilder.COMMAND_HINTS
          ++ [PresenceActivityBuilder.FALLBACK_ACTIVITY])%list).
  { destruct context as [[[label mentions]|] [[keyword mentions']|] n];
      reflexivity. }
  split; [exact E|]. rewrite E.
  destruct context as [[[label mentions]|] [[keyword mentions']|] n];
    cbn [PresenceActivityBuilder.buildTrendActivity
           PresenceActivityBuilder.trendingTopic
           PresenceActivityBuilder.trendingKeyword
           PresenceActivityBuilder.guildCount
           PresenceActivityBuilder.buildGuildActivity
           PresenceActivityBuilder.COMMAND_HINTS
           PresenceActivityBuilder.FALLBACK_ACTIVITY
           PresenceActivityBuilder.name app map];
    repeat (constructor;
            [cbn [In]; intro H;
             repeat (destruct H as [H|H]; [discriminate H|]); exact H|]);
    constructor.
Qed.

(* ================================================================== *)
(** * The summarizer: sentences *)
(* ================================================================== *)

Section TrimFacts.

Lemma dropWhile_head (f : ascii -> bool) (l : Text.chars) (c : ascii)
      (t : Text.chars) :
  Text.dropWhile f l = c :: t -> f c = false.
Proof.
  induction l as [|x l IH]; cbn [Text.dropWhile]; [discriminate|].
  destruct (f x) eqn:E; [exact IH|]. intros [= <- _]. exact E.
Qed.

Lemma dropWhile_suffix (f : ascii -> bool) (l : Text.chars) :
  exists p, l = (p ++ Text.dropWhile f l)%list.
Proof.
  induction l as [|x l [p IH]]; cbn [Text.dropWhile]; [now exists []|].
  destruct (f x).
  - exists (x :: p). cbn [app]. now rewrite <- IH.
  - now exists [].
Qed.

Lemma dropWhile_filter (f : ascii -> bool) (l : Text.chars) :
  filter (fun c => negb (f c)) (Text.dropWhile f l)
  = filter (fun c => negb (f c)) l.
Proof.
  induction l as [|x l IH]; cbn [Text.dropWhile filter]; [reflexivity|].
  destruct (f x) eqn:E; cbn [negb filter]; [exact IH|].
  now rewrite E.
Qed.

Lemma filter_rev_chars (g : ascii -> bool) (l : Text.chars) :
  filter g (rev l) = rev (filter g l).
Proof.
  induction l as [|x l IH]; [reflexivity|]. cbn [rev filter].
  rewrite filter_app, IH. cbn [filter].
  destruct (g x); cbn [rev]; [reflexivity|now rewrite app_nil_r].
Qed.

Lemma trim_filter (l : Text.chars) :
  filter nonSpace (Text.trim l) = filter nonSpace l.
Proof.
  unfold Text.trim, nonSpace.
  rewrite filter_rev_chars, dropWhile_filter, filter_rev_chars,
    rev_involutive.
  apply dropWhile_filter.
Qed.

Lemma trim_trimmed (l : Text.chars) : trimmedChars (Text.trim l).
Proof.
  unfold Text.trim, trimmedChars. split.
  - intros c t E.
    destruct (dropWhile_suffix Text.isSpace
                (rev (Text.dropWhile Text.isSpace l))) as [p Hp].
    apply (f_equal (@rev ascii)) in Hp.
    rewrite rev_involutive, rev_app_distr, E in Hp.
    cbn [app] in Hp. exact (dropWhile_head _ _ _ _ Hp).
  - intros c t E. rewrite rev_involutive in E.
    exact (dropWhile_head _ _ _ _ E).
Qed.

Lemma dropWhile_snoc (f : ascii -> bool) (b : Text.chars) (c : ascii) :
  f c = false ->
  Text.dropWhile f (b ++ [c])%list = (Text.dropWhile f b ++ [c])%list.
Proof.
  intro Hc. induction b as [|x b IH]; cbn [app Text.dropWhile].
  - now rewrite Hc.
  - destruct (f x); [exact IH|reflexivity].
Qed.

Lemma trim_snoc (b : Text.chars) (c : ascii) :
  Text.isSpace c = false ->
  Text.trim (b ++ [c])%list = (Text.dropWhile Text.isSpace b ++ [c])%list.
Proof.
  intro Hc. unfold Text.trim.
  rewrite (dropWhile_snoc _ _ _ Hc), rev_app_distr.
  cbn [rev app Text.dropWhile]. rewrite Hc.
  cbn [rev]. now rewrite rev_involutive.
Qed.

Lemma terminator_not_space (c : ascii) :
  Summarizer.isTerminator c = true -> Text.isSpace c = false.
Proof.
  unfold Summarizer.isTerminator. intro H.
  apply orb_prop in H. destruct H as [H|H];
    [apply orb_prop in H; destruct H as [H|H]|];
    apply Ascii.eqb_eq in H; subst c; reflexivity.
Qed.

Lemma removelast_snoc {A} (l : list A) (x : A) :
  removelast (l ++ [x])%list = l.
Proof. apply removelast_last. Qed.

End TrimFacts.

Section SentenceFacts.
Import Summarizer.

Lemma ended_sentence (b : Text.chars) (c : ascii) :
  Forall (fun x => isTerminator x = false) b -> isTerminator c = true ->
  exists x t,
    Text.trim (b ++ [c])%list = x :: t
    /\ goodSentence (Text.toString (x :: t)).
Proof.
  intros Hb Hc. pose proof (terminator_not_space c Hc) as Hs.
  rewrite (trim_snoc b c Hs).
  destruct (Text.dropWhile Text.isSpace b ++ [c])%list as [|x t] eqn:E.
  { destruct (Text.dropWhile Text.isSpace b); discriminate. }
  exists x, t. split; [reflexivity|]. unfold goodSentence.
  rewrite ofString_toString. split; [discriminate|]. split.
  - rewrite <- E, <- (trim_snoc b c Hs). apply trim_trimmed.
  - rewrite <- E, removelast_snoc.
    apply Forall_forall. intros y Hy. apply dropWhile_incl in Hy.
    rewrite Forall_forall in Hb. now apply Hb.
Qed.

Lemma tail_sentence (b : Text.chars) (x : ascii) (t : Text.chars) :
  Forall (fun y => isTerminator y = false) b ->
  Text.trim b = x :: t -> goodSentence (Text.toString (x :: t)).
Proof.
  intros Hb E. unfold goodSentence. rewrite ofString_toString.
  split; [discriminate|]. split.
  - rewrite <- E. apply trim_trimmed.
  - assert (H : Forall (fun y => isTerminator y = false) (x :: t)).
    { rewrite <- E. now apply trim_Forall. }
    clear - H. revert x H. induction t as [|y t IH]; intros x H;
      [constructor|].
    cbn [removelast]. constructor; [exact (Forall_inv H)|].
    apply IH. exact (Forall_inv_tail H).
Qed.

Lemma noTerm_existsb (l : Text.chars) :
  Forall (fun y => isTerminator y = false) l ->
  existsb isTerminator l = false.
Proof.
  induction 1 as [|y l Hy Hl IH]; [reflexivity|].
  cbn [existsb]. now rewrite Hy, IH.
Qed.

(** The loop of [splitSentences] over the pieces of the text [s], the
    piece under construction being [cur]. *)
Lemma split_loop (s : Text.chars) :
  forall (cur : Text.chars) (sentences : list string) (buffer : Text.chars),
    Forall (fun y => isTerminator y = false) cur ->
    Forall (fun y => isTerminator y = false) buffer ->
    Forall goodSentence sentences ->
    let r := fold_left
               (fun '(sentences, buffer) part =>
                  let buffer := (buffer ++ part)%list in
                  if existsb isTerminator part then
                    let trimmed := Text.trim buffer in
                    (match trimmed with
                     | [] => sentences
                     | _ => (sentences ++ [Text.toString trimmed])%list
                     end, [])
                  else (sentences, buffer))
               (splitCapture cur s) (sentences, buffer) in
    Forall goodSentence (fst r)
    /\ Forall (fun y => isTerminator y = false) (snd r)
    /\ filter nonSpace
              (List.concat (map Text.ofString (fst r)) ++ snd r)%list
       = filter nonSpace
                (List.concat (map Text.ofString sentences)
                 ++ buffer ++ cur ++ s)%list.
Proof.
  induction s as [|c t IH]; intros cur sentences buffer Hcur Hbuf Hsen;
    cbv zeta; cbn [splitCapture].
  - cbn [fold_left]. rewrite (noTerm_existsb cur Hcur). cbn [fst snd].
    rewrite app_nil_r. split; [exact Hsen|]. split; [|reflexivity].
    apply Forall_app. now split.
  - destruct (isTerminator c) eqn:Ec.
    + cbn [fold_left]. rewrite (noTerm_existsb cur Hcur).
      cbn [existsb]. rewrite Ec. cbn [orb].
      assert (Hb : Forall (fun y => isTerminator y = false)
                          (buffer ++ cur)%list)
        by (apply Forall_app; now split).
      destruct (ended_sentence (buffer ++ cur)%list c Hb Ec)
        as (x & rest & E & Hgood).
      rewrite E.
      cbv zeta in IH.
      destruct (IH [] (sentences ++ [Text.toString (x :: rest)])%list [])
        as (H1 & H2 & H3).
      { constructor. }
      { constructor. }
      { apply Forall_app. split; [exact Hsen|].
        constructor; [exact Hgood|constructor]. }
      split; [exact H1|]. split; [exact H2|].
      eapply eq_trans; [exact H3|].
      rewrite map_app, concat_app. cbn [map List.concat app].
      rewrite ofString_toString, app_nil_r, <- E.
      rewrite !filter_app, trim_filter, !filter_app.
      cbn [filter app]. rewrite <- !app_assoc.
      destruct (nonSpace c); reflexivity.
    + cbv zeta in IH.
      destruct (IH (cur ++ [c])%list sentences buffer) as (H1 & H2 & H3).
      { apply Forall_app. split; [exact Hcur|].
        constructor; [exact Ec|constructor]. }
      { exact Hbuf. }
      { exact Hsen. }
      split; [exact H1|]. split; [exact H2|].
      eapply eq_trans; [exact H3|].
      rewrite <- !app_assoc. reflexivity.
Qed.

End SentenceFacts.

(** X27. Sentences.  Every sentence [splitSentences] returns is not empty,
    starts and ends with a character that is no white space, and contains
    no terminator [.], [!] or [?] before its last character; the sentences
    together keep every character of the text that is no white space, in
    order. *)
Theorem splitSentences_sentences (content : string) :
  Forall goodSentence (Summarizer.splitSentences content)
  /\ filter nonSpace
            (List.concat (map Text.ofString
                              (Summarizer.splitSentences content)))
     = filter nonSpace (Text.ofString content).
Proof.
  unfold Summarizer.splitSentences.
  match goal with
  | |- context [fold_left ?f ?l ?a] =>
      assert (H : Forall goodSentence (fst (fold_left f l a))
                  /\ Forall (fun y => Summarizer.isTerminator y = false)
                            (snd (fold_left f l a))
                  /\ filter nonSpace
                            (List.concat
                               (map Text.ofString (fst (fold_left f l a)))
                             ++ snd (fold_left f l a))%list
                     = filter nonSpace (Text.ofString content))
        by exact (split_loop (Text.ofString content) [] [] []
                    (Forall_nil _) (Forall_nil _) (Forall_nil _));
      destruct (fold_left f l a) as [sentences buffer]
  end.
  cbn [fst snd] in H. destruct H as (H1 & H2 & H3).
  rewrite <- H3.
  destruct (Text.trim buffer) as [|x t] eqn:E.
  - split; [exact H1|].
    rewrite filter_app, <- (trim_filter buffer), E. cbn [filter].
    now rewrite app_nil_r.
  - split.
    + apply Forall_app. split; [exact H1|].
      constructor; [|constructor]. exact (tail_sentence buffer x t H2 E).
    + rewrite map_app, concat_app. cbn [map List.concat].
      rewrite ofString_toString, app_nil_r, <- E.
      now rewrite !filter_app, trim_filter.
Qed.

(* ================================================================== *)
(** * The summarizer: sentence scores *)
(* ================================================================== *)

Section ScoreFacts.
Import Summarizer.










End ScoreFacts.


(* ================================================================== *)
(** * The digest: threads listed, entries, escalations *)
(* ================================================================== *)

Section DigestFacts.
Import DigestGenerator.

Lemma StronglySorted_map {A B} (f : A -> B) (R1 : A -> A -> Prop)
      (R2 : B -> B -> Prop) (l : list A) :
  (forall a b, R1 a b -> R2 (f a) (f b)) ->
  StronglySorted R1 l -> StronglySorted R2 (map f l).
Proof.
  intros Hf. induction 1 as [|x l Hs IH Hall]; cbn [map]; constructor.
  - exact IH.
  - apply Forall_map. eapply Forall_impl; [|exact Hall].
    intros b Hb. now apply Hf.
Qed.

Lemma perm_filter {A} (f : A -> bool) (l l' : list A) :
  Permutation l l' -> Permutation (filter f l) (filter f l').
Proof.
  induction 1 as [|x l l' HP IH|x y l|l l' l'' H1 IH1 H2 IH2];
    cbn [filter].
  - constructor.
  - destruct (f x); [now constructor|exact IH].
  - destruct (f x), (f y); try apply Permutation_refl. apply perm_swap.
  - now transitivity (filter f l').
Qed.

Lemma metadata_entry (score : ThreadScore) : entryOf score (metadata score).
Proof.
  unfold entryOf, metadata. cbv zeta.
  cbn [entryChannelId entryThreadId entryMessageCount primaryTopic topics].
  split; [reflexivity|]. split; [reflexivity|]. split; [reflexivity|].
  unfold primaryTopicOf, topTopicWeights, sortedTopics.
  fold topicWeight.
  change (fun hit : TopicHitMetric =>
            (keywordHits hit + bigramHits hit * 2) * boost hit)
    with topicWeight.
  pose proof (sortDescBy_perm topicWeight (topicHits (feature score))) as HP.
  pose proof (sortDescBy_sorted topicWeight (topicHits (feature score)))
    as HS.
  split; [|split; [|split]].
  - destruct (topicHits (feature score)) as [|h0 hs] eqn:E.
    + destruct (matchedKeywords (feature score)); reflexivity.
    + destruct (Js.sortDescBy topicWeight (h0 :: hs)) as [|hit rest] eqn:S.
      { apply Permutation_nil in HP. discriminate. }
      exists hit. split; [|split].
      * eapply Permutation_in; [exact HP|]. now left.
      * reflexivity.
      * intros h Hh.
        assert (Hin : In h (hit :: rest)).
        { eapply Permutation_in; [symmetry; exact HP|exact Hh]. }
        destruct Hin as [<-|Hin]; [lra|].
        apply StronglySorted_inv in HS. destruct HS as [_ Hall].
        rewrite Forall_forall in Hall. now apply Hall.
  - rewrite length_map, length_firstn.
    now rewrite (Permutation_length HP).
  - apply (StronglySorted_map _ (fun a b => topicWeight b <= topicWeight a)).
    + intros a b Hab. cbn [weight]. unfold topicWeight in Hab. lra.
    + now apply StronglySorted_firstn.
  - apply Forall_map. apply Forall_forall. intros hit Hin.
    apply In_firstn in Hin. exists hit. split; [|split].
    + eapply Permutation_in; [exact HP|exact Hin].
    + reflexivity.
    + cbn [weight]. unfold topicWeight. lra.
Qed.

Lemma analyze_members_perm (scores : list ThreadScore) :
  Permutation
    (flat_map ThemeClusterService.members
              (ThemeClusterService.clusters
                 (ThemeClusterService.analyze scores)))
    scores.
Proof.
  rewrite analyze_clusters.
  pose proof (clusterIndices_partition scores) as HP.
  rewrite flat_map_concat_map, map_map. simpl.
  rewrite <- (map_map snd (ThemeClusterService.pick scores)).
  rewrite <- flat_map_concat_map, pick_concat.
  transitivity (ThemeClusterService.pick scores
                  (seq 0 (List.length scores))).
  - unfold ThemeClusterService.pick. now apply Permutation_flat_map.
  - pose proof (pick_seq [] scores) as H. simpl in H. now rewrite H.
Qed.

(** The two counters of [detectEscalations] for one topic. *)
Lemma escalation_counters (s : string)
      (clusters : list ThemeClusterService.ThreadCluster) :
  forall (c0 : nat) (d0 : R),
    let r := fold_left
               (fun '(channelCount, decisionHits) cluster =>
                  let membersWithTopic :=
                    filter (fun member =>
                              existsb (fun hit => String.eqb (slug hit) s)
                                      (topicHits (feature member)))
                           (ThemeClusterService.members cluster) in
                  if (0 <? List.length membersWithTopic)%nat
                  then
                    ((channelCount
                      + List.length
                          (Js.newSet
                             (map (fun member => channelId (feature member))
                                  membersWithTopic)))%nat,
                     decisionHits
                     + fold_left (fun sum member =>
                                    sum + decisionVerbHits (feature member))
                                 membersWithTopic 0)
                  else (channelCount, decisionHits))
               clusters (c0, d0) in
    (fst r <= c0 + List.length
                     (filter (carries s)
                             (flat_map ThemeClusterService.members clusters)))%nat
    /\ snd r = d0 + sumR (map (fun member => decisionVerbHits (feature member))
                              (filter (carries s)
                                      (flat_map ThemeClusterService.members
                                                clusters))).
Proof.
  unfold carries.
  induction clusters as [|cl clusters IH]; intros c0 d0; cbv zeta;
    cbn [fold_left flat_map].
  - cbn [filter List.length map fst snd]. unfold sumR. simpl.
    split; [lia|lra].
  - cbv zeta in IH. rewrite filter_app, length_app, map_app, sumR_app.
    set (mwt := filter _ (ThemeClusterService.members cl)).
    assert (Hn : (List.length
                    (Js.newSet (map (fun member => channelId (feature member))
                                    mwt))
                  <= List.length mwt)%nat).
    { pose proof (fold_add_length
                    (map (fun member => channelId (feature member)) mwt) [])
        as [_ H].
      rewrite length_map in H. exact H. }
    destruct (0 <? List.length mwt)%nat eqn:E.
    + match goal with
      | |- context [fold_left ?f clusters (?c, ?d)] =>
          destruct (IH c d) as [H1 H2]
      end.
      split; [lia|]. rewrite H2, fold_left_plus. lra.
    + apply Nat.ltb_ge in E.
      assert (Hm : mwt = []) by (destruct mwt; [reflexivity|simpl in E; lia]).
      destruct (IH c0 d0) as [H1 H2].
      split; [lia|]. rewrite H2, Hm. unfold sumR. simpl. lra.
Qed.

Lemma escalations_fold (clusters : list ThemeClusterService.ThreadCluster)
      (P : string -> Prop) (topTopics : list (string * R)) :
  (forall topic,
      In topic topTopics ->
      (let '(channelCount, decisionHits) :=
         fold_left
           (fun '(channelCount, decisionHits) cluster =>
              let membersWithTopic :=
                filter (fun member =>
                          existsb (fun hit =>
                                     String.eqb (slug hit) (fst topic))
                                  (topicHits (feature member)))
                       (ThemeClusterService.members cluster) in
              if (0 <? List.length membersWithTopic)%nat
              then
                ((channelCount
                  + List.length
                      (Js.newSet
                         (map (fun member => channelId (feature member))
                              membersWithTopic)))%nat,
                 decisionHits
                 + fold_left (fun sum member =>
                                sum + decisionVerbHits (feature member))
                             membersWithTopic 0)
              else (channelCount, decisionHits))
           clusters (0%nat, 0) in
       (3 <=? channelCount)%nat && Js.Rleb 2 decisionHits) = true ->
      P (fst topic ++ arrow)) ->
  Forall P (detectEscalations topTopics clusters).
Proof.
  unfold detectEscalations. intro H.
  assert (G : forall (todo : list (string * R)) (acc : list string),
             incl todo topTopics -> Forall P acc ->
             Forall P
               (fold_left
                  (fun escalations topic =>
                     let '(channelCount, decisionHits) :=
                       fold_left
                         (fun '(channelCount, decisionHits) cluster =>
                            let membersWithTopic :=
                              filter (fun member =>
                                        existsb (fun hit =>
                                                   String.eqb (slug hit)
                                                              (fst topic))
                                                (topicHits (feature member)))
                                     (ThemeClusterService.members cluster) in
                            if (0 <? List.length membersWithTopic)%nat
                            then
                              ((channelCount
                                + List.length
                                    (Js.newSet
                                       (map (fun member =>
                                               channelId (feature member))
                                            membersWithTopic)))%nat,
                               decisionHits
                               + fold_left
                                   (fun sum member =>
                                      sum + decisionVerbHits (feature member))
                                   membersWithTopic 0)
                            else (channelCount, decisionHits))
                         clusters (0%nat, 0) in
                     if (3 <=? channelCount)%nat && Js.Rleb 2 decisionHits
                     then (escalations ++ [(fst topic ++ arrow)%string])%list
                     else escalations)
                  todo acc)).
  { induction todo as [|topic todo IH]; intros acc Hincl Hacc;
      cbn [fold_left]; [exact Hacc|].
    apply IH; [intros x Hx; apply Hincl; now right|].
    specialize (H topic (Hincl topic (or_introl eq_refl))).
    destruct (fold_left _ clusters (0%nat, 0)) as [cc dh].
    destruct ((3 <=? cc)%nat && Js.Rleb 2 dh); [|exact Hacc].
    apply Forall_app. split; [exact Hacc|].
    constructor; [|constructor]. now apply H. }
  apply G; [apply incl_refl|constructor].
Qed.

End DigestFacts.

(** X29. The threads of a digest.  [generateDigest] lists the first 9
    threads of [scoreThreads] (all of them when there are fewer); when no
    score is [NaN] these are the threads that score best, best first: no
    thread left out scores more than a listed one.  [topicCount] is their
    number and the message count of the statistics is the sum of their
    message counts; each entry names as primary topic a topic hit of the
    thread of largest weight (keywordHits + 2 x bigramHits) x boost, or
    the first matched keyword, or "discussion", and lists the three
    heaviest hits in descending order, each with twice that weight. *)
Theorem digest_thread_details (st : GuildFeatureConfigService.State)
        (now : R) (guild : string) (features : list ThreadFeature) :
  exists top rest,
    ThreadScoringService.scoreThreads st now guild features
    = (top ++ rest)%list
    /\ List.length top = Nat.min 9 (List.length features)
    /\ (Forall (fun t => Js.isNumber (score t) = true) (top ++ rest) ->
        StronglySorted (fun a b => Js.numLe (score b) (score a)) top
        /\ forall a b, In a top -> In b rest ->
                       Js.numLe (score b) (score a))
    /\ Forall2 entryOf top
               (fst (DigestGenerator.generateDigest st now guild features))
    /\ DigestGenerator.topicCount
         (snd (DigestGenerator.generateDigest st now guild features))
       = List.length top
    /\ DigestGenerator.statsMessageCount
         (snd (DigestGenerator.generateDigest st now guild features))
       = sumR (map (fun s => messageCount (feature s)) top).
Proof.
  set (scored := ThreadScoringService.scoreThreads st now guild features).
  exists (firstn 9 scored), (skipn 9 scored).
  assert (Hlen : List.length scored = List.length features).
  { unfold scored, ThreadScoringService.scoreThreads, Js.sortDescByNumeric.
    now rewrite sort_length, length_map. }
  assert (Hsorted : Forall (fun t => Js.isNumber (score t) = true) scored ->
                    StronglySorted (fun a b => Js.numLe (score b) (score a))
                                   scored).
  { unfold scored, ThreadScoringService.scoreThreads. intro Hnum.
    apply sortDescByNumeric_sorted.
    eapply Permutation_Forall; [apply sortDescByNumeric_perm|exact Hnum]. }
  assert (Hd : DigestGenerator.generateDigest st now guild features
               = (map DigestGenerator.metadata (firstn 9 scored),
                  {| DigestGenerator.statsMessageCount :=
                       fold_left (fun total s =>
                                    total + messageCount (feature s))
                                 (firstn 9 scored) 0;
                     DigestGenerator.topicCount :=
                       List.length (firstn 9 scored);
                     DigestGenerator.topTopics :=
                       match features with
                       | [] => []
                       | _ => TopicCounterService.count scored
                       end;
                     DigestGenerator.clusterLabels :=
                       match features with
                       | [] => []
                       | _ => map ThemeClusterService.label
                                  (ThemeClusterService.clusters
                                     (ThemeClusterService.analyze scored))
                       end |})).
  { unfold scored. destruct features; reflexivity. }
  rewrite Hd. cbn [fst snd DigestGenerator.topicCount
                     DigestGenerator.statsMessageCount].
  split; [symmetry; apply firstn_skipn|].
  split; [rewrite length_firstn, Hlen; reflexivity|].
  split.
  { rewrite firstn_skipn. intro Hnum. specialize (Hsorted Hnum).
    rewrite <- (firstn_skipn 9 scored) in Hsorted.
    apply StronglySorted_app_inv in Hsorted.
    destruct Hsorted as [Htop H]. split; [exact Htop|exact H]. }
  split.
  { clear. induction (firstn 9 scored) as [|s l IH]; cbn [map];
      constructor; [apply metadata_entry|exact IH]. }
  split; [reflexivity|].
  rewrite fold_left_plus. lra.
Qed.

(** X30. Escalations need three threads.  Every entry of
    [detectEscalations], run on the clusters of [analyze], is the slug of
    one of the top topics followed by the arrow, and that topic is hit in
    at least 3 of the analysed threads, whose decision-verb hits add up to
    at least 2. *)
Theorem escalations_need_three_threads (scored : list ThreadScore)
        (topTopics : list (string * R)) :
  Forall (fun e =>
            exists topic,
              In topic topTopics
              /\ e = fst topic ++ DigestGenerator.arrow
              /\ (3 <= List.length (filter (carries (fst topic)) scored))%nat
              /\ 2 <= sumR (map (fun s => decisionVerbHits (feature s))
                                (filter (carries (fst topic)) scored)))
         (DigestGenerator.detectEscalations
            topTopics
            (ThemeClusterService.clusters
               (ThemeClusterService.analyze scored))).
Proof.
  assert (G : forall todo, incl todo topTopics ->
    Forall (fun e =>
              exists topic,
                In topic topTopics
                /\ e = fst topic ++ DigestGenerator.arrow
                /\ (3 <= List.length (filter (carries (fst topic)) scored))%nat
                /\ 2 <= sumR (map (fun s => decisionVerbHits (feature s))
                                  (filter (carries (fst topic)) scored)))
           (DigestGenerator.detectEscalations
              todo
              (ThemeClusterService.clusters
                 (ThemeClusterService.analyze scored)))).
  { intros todo Hincl. apply escalations_fold.
    intros topic Ht Hcond. exists topic.
    split; [now apply Hincl|]. split; [reflexivity|].
    unfold carries.
    pose proof (escalation_counters
                  (fst topic)
                  (ThemeClusterService.clusters
                     (ThemeClusterService.analyze scored)) 0%nat 0)
      as Hc.
    cbv zeta in Hc. unfold carries in Hc.
    destruct (fold_left _ (ThemeClusterService.clusters
                             (ThemeClusterService.analyze scored))
                        (0%nat, 0)) as [cc dh].
    cbn [fst snd] in Hc. destruct Hc as [H1 H2].
    apply andb_prop in Hcond. destruct Hcond as [H3 Hr].
    apply Nat.leb_le in H3. apply Rleb_true in Hr.
    pose proof (perm_filter (carries (fst topic)) _ _
                            (analyze_members_perm scored)) as HP.
    unfold carries in HP.
    split.
    - rewrite <- (Permutation_length HP). lia.
    - rewrite <- (sumR_perm _ _ (Permutation_map _ HP)). lra. }
  apply G. apply incl_refl.
Qed.
